(** * English speech to Japanese subtitles (WAV only): the subtitle pipeline

    A shallow embedding of [src/main.py], class [EnglishToJapaneseSubtitle]:
    WAV validation, the transcription adapter, the translation function,
    the construction of subtitle segments, the two timestamp formatters and
    the SRT renderer.

    Conventions of the embedding.
    - A Python [str] is the list of its Unicode code points ([str]); string
      constants of the source are written as UTF-8 literals and decoded by
      [utf8].
    - A time is a Python [float], and a finite [float] is read as the rational
      number it denotes ([Q]).  Arithmetic on floats is the exact operation
      followed by rounding to the nearest float, ties to the even significand
      (IEEE 754 binary64, [double_round]); [//] and [%] follow CPython's
      [float_floor_div] and [float_rem], and [datetime.timedelta] follows
      CPython's [delta_new], with its rounding to whole microseconds and its
      two range checks.  A rational that is not a float stands for the float
      nearest to it, as a literal or a JSON number does in Python
      ([py_float]); the [int] default [0] of [.get] formats as the float [0.0]
      does.  The values [inf] and [nan] are outside the model, and so is a
      rational of magnitude [2^1024] or more, which Python would read as
      [inf].
    - A [dict] read with [.get(key, default)] is a record of optional fields:
      [None] is a missing key.
    - Code that raises, catches, or talks to the outside (files, the remote
      API, the progress callback) lives in the monad [M]: a state monad over
      an abstract world with an exception result.  An exception is the text
      that [str(e)] gives, for [e] an instance of [Exception].  Console
      output ([print]) is not modelled. *)

From Stdlib Require Import ZArith NArith QArith Qround Qabs Qpower List Lia Lqa Bool
  String Ascii.
Import ListNotations.

Local Open Scope Z_scope.

(** ** Strings *)

(** A code point, and a Python [str]. *)
Definition char := N.
Definition str := list char.

(** Decoding of the UTF-8 bytes of a literal into code points.  [cont k acc
    bs] reads [k] continuation bytes. *)
Fixpoint utf8_cont (k : nat) (acc : N) (bs : list N) : N * list N :=
  match k, bs with
  | S k', b :: bs' => utf8_cont k' (acc * 64 + N.land b 63) bs'
  | _, _ => (acc, bs)
  end.

Fixpoint utf8_decode (fuel : nat) (bs : list N) : str :=
  match fuel, bs with
  | S fuel', b :: bs' =>
      let '(k, lead) :=
        if (b <? 128)%N then (0%nat, b)
        else if (b <? 224)%N then (1%nat, N.land b 31)
        else if (b <? 240)%N then (2%nat, N.land b 15)
        else (3%nat, N.land b 7) in
      let '(c, rest) := utf8_cont k lead bs' in
      c :: utf8_decode fuel' rest
  | _, _ => []
  end.

Definition utf8 (s : string) : str :=
  let bs := List.map N_of_ascii (list_ascii_of_string s) in
  utf8_decode (List.length bs) bs.

(** [str.isspace] for one character: the code points CPython treats as
    whitespace, which are also the ones [str.strip()] removes. *)
Definition isspace (c : char) : bool :=
  ((9 <=? c) && (c <=? 13) || (28 <=? c) && (c <=? 32)
   || (c =? 133) || (c =? 160) || (c =? 5760)
   || (8192 <=? c) && (c <=? 8202)
   || (c =? 8232) || (c =? 8233) || (c =? 8239) || (c =? 8287)
   || (c =? 12288))%N.

Fixpoint lstrip (s : str) : str :=
  match s with
  | c :: s' => if isspace c then lstrip s' else s
  | [] => []
  end.

Definition rstrip (s : str) : str := rev (lstrip (rev s)).

(** [s.strip()] *)
Definition strip (s : str) : str := rstrip (lstrip s).

(** Truth value of a [str]: non-empty. *)
Definition truthy (s : str) : bool :=
  match s with [] => false | _ :: _ => true end.

(** [s.lower()] on the letters A to Z.  Of the other code points only U+0130
    and U+212A lower-case to something that contains an ASCII character
    ([i] and [k]); the rest of the Unicode mapping leaves the ASCII part of a
    string alone and is not modelled. *)
Definition lower_char (c : char) : str :=
  if ((65 <=? c) && (c <=? 90))%N then [(c + 32)%N]
  else if (c =? 304)%N then [105; 775]%N
  else if (c =? 8490)%N then [107]%N
  else [c].

Definition lower (s : str) : str := flat_map lower_char s.

Fixpoint str_eqb (a b : str) : bool :=
  match a, b with
  | [], [] => true
  | x :: a', y :: b' => (x =? y)%N && str_eqb a' b'
  | _, _ => false
  end.

(** [s.endswith(suffix)] *)
Definition endswith (s suffix : str) : bool :=
  (List.length suffix <=? List.length s)%nat
  && str_eqb (skipn (List.length s - List.length suffix) s) suffix.

(** ** Decimal rendering of integers *)

Definition digit_char (d : N) : char := (48 + d)%N.

Fixpoint digits_from (fuel : nat) (n : N) (acc : str) : str :=
  let acc' := digit_char (n mod 10) :: acc in
  match fuel with
  | O => acc'
  | S fuel' => if (n <? 10)%N then acc' else digits_from fuel' (n / 10) acc'
  end.

(** [str(n)] for a natural number: its decimal digits, most significant
    first.  A number has no more decimal digits than binary ones. *)
Definition str_of_N (n : N) : str := digits_from (N.to_nat (N.size n)) n [].

Definition zfill (width : nat) (s : str) : str :=
  repeat (digit_char 0) (width - List.length s) ++ s.

(** [format(z, '0{width}d')]: zero padding to [width] characters, the sign
    of a negative number counted in the width. *)
Definition format_0d (width : nat) (z : Z) : str :=
  if z <? 0 then 45%N :: zfill (width - 1) (str_of_N (Z.to_N (- z)))
  else zfill width (str_of_N (Z.to_N z)).

(** ** Results and exceptions *)

(** The text of an exception, as [str(e)] and [f"{e}"] give it. *)
Definition exc := str.

Inductive result (A : Type) : Type :=
| Raise (e : exc)
| Return (a : A).
Arguments Raise {A} e.
Arguments Return {A} a.

(** [str(z)] for an integer. *)
Definition str_of_Z (z : Z) : str :=
  if z <? 0 then 45%N :: str_of_N (Z.to_N (- z)) else str_of_N (Z.to_N z).

(** ** Numbers *)

(** [int(x)]: truncation toward zero. *)
Definition py_int (x : Q) : Z := Z.quot (Qnum x) (Zpos (Qden x)).

(** Rounding to the nearest integer, ties to the even one. *)
Definition round_half_even (x : Q) : Z :=
  let f := Qfloor x in
  match ((x - inject_Z f) ?= (1 # 2))%Q with
  | Lt => f
  | Gt => f + 1
  | Eq => if Z.even f then f else f + 1
  end.

(** *** Floats *)

(** [2^k] for an integer [k]. *)
Definition pow2 (k : Z) : Q := (2 ^ k)%Q.

(** [floor(log2 x)] for a positive [x]. *)
Definition Qlog2 (x : Q) : Z :=
  let k := Z.log2 (Qnum x) - Z.log2 (Zpos (Qden x)) in
  if Qle_bool (pow2 k) x then k else k - 1.

(** The exponent of the unit in the last place of the binary64 numbers
    around [x]: 53 bits of significand, and [2^-1074] for the subnormal
    numbers. *)
Definition ulp_exp (x : Q) : Z := Z.max (Qlog2 (Qabs x) - 52) (-1074).

(** The float nearest to [x], ties to the even significand. *)
Definition double_round (x : Q) : Q :=
  Qred (inject_Z (round_half_even (x / pow2 (ulp_exp x))) * pow2 (ulp_exp x)).

(** [x] is a float. *)
Definition is_float (x : Q) : Prop := (double_round x == x)%Q.

(** The float a number stands for. *)
Definition py_float (x : Q) : Q := double_round x.

(** [x + y], [x - y], [x * y] and [x / y] on floats. *)
Definition float_add (x y : Q) : Q := double_round (x + y).
Definition float_sub (x y : Q) : Q := double_round (x - y).
Definition float_mul (x y : Q) : Q := double_round (x * y).
Definition float_div (x y : Q) : Q := double_round (x / y).

(** C's [fmod]: the remainder of the division truncated toward zero; it is
    exact. *)
Definition fmod (x y : Q) : Q := Qred (x - y * inject_Z (py_int (x / y))).

Definition Qltb (x y : Q) : bool := negb (Qle_bool y x).

(** [vx % wx] on floats, for [wx] other than 0 (CPython's [float_rem]): the
    remainder takes the sign of [wx]. *)
Definition float_mod (vx wx : Q) : Q :=
  let rem := fmod vx wx in
  if Qeq_bool rem 0 then 0
  else if xorb (Qltb wx 0) (Qltb rem 0) then float_add rem wx
  else rem.

(** [vx // wx] on floats, for [wx] other than 0 (CPython's
    [float_floor_div]): the quotient of [vx - fmod(vx, wx)] by [wx], lowered
    by one when the remainder had to change sign, and snapped to the nearest
    whole number. *)
Definition float_floordiv (vx wx : Q) : Q :=
  let rem := fmod vx wx in
  let div := float_div (float_sub vx rem) wx in
  let div :=
    if Qeq_bool rem 0 then div
    else if xorb (Qltb wx 0) (Qltb rem 0) then float_sub div 1
    else div in
  if Qeq_bool div 0 then 0
  else
    let floordiv := inject_Z (Qfloor div) in
    if Qltb (1 # 2) (float_sub div floordiv) then float_add floordiv 1 else floordiv.

(** ** [datetime.timedelta] *)

Record timedelta : Type := mk_timedelta
  { td_days : Z;
    td_seconds : Z;
    td_microseconds : Z }.

Definition MAX_DELTA_DAYS : Z := 999999999.

(** The range of a C [int]. *)
Definition INT_MIN : Z := -2147483648.
Definition INT_MAX : Z := 2147483647.

(** The number of microseconds [timedelta(seconds=x)] holds for a float [x]:
    the whole seconds are counted exactly; the fraction is multiplied by
    [10^6] in float arithmetic and the product is rounded to a whole number,
    ties to even. *)
Definition microseconds_of (seconds : Q) : Z :=
  let intpart := py_int seconds in
  let fracpart := (seconds - inject_Z intpart)%Q in
  intpart * 1000000 + round_half_even (float_mul 1000000 fracpart).

(** [timedelta(seconds=x)] for a float [x]: the microseconds are normalised
    into days, seconds of the day and microseconds of the second.  A number
    of days that does not fit a C [int] raises [OverflowError], and so does
    one beyond [MAX_DELTA_DAYS] in magnitude, with another message. *)
Definition timedelta_of_seconds (seconds : Q) : result timedelta :=
  let us := microseconds_of seconds in
  let d := us / 86400000000 in
  if (d <? INT_MIN) || (INT_MAX <? d) then
    Raise (utf8 "Python int too large to convert to C int")
  else if MAX_DELTA_DAYS <? Z.abs d then
    Raise (utf8 "days=" ++ str_of_Z d ++ utf8 "; must have magnitude <= 999999999")
  else
    Return {| td_days := d;
              td_seconds := (us mod 86400000000) / 1000000;
              td_microseconds := us mod 1000000 |}.

(** [td.total_seconds()]: the number of microseconds divided by [10^6], as a
    float. *)
Definition total_seconds (td : timedelta) : Q :=
  double_round
    (((td_days td * 86400 + td_seconds td) * 1000000 + td_microseconds td) # 1000000).

(** ** The timestamp formatters *)

(** [format_time_srt]: [HH:MM:SS,mmm]. *)
Definition format_time_srt (seconds : Q) : result str :=
  match timedelta_of_seconds (py_float seconds) with
  | Raise e => Raise e
  | Return td =>
      let hours := py_int (float_floordiv (total_seconds td) 3600) in
      let minutes := py_int (float_floordiv (float_mod (total_seconds td) 3600) 60) in
      let secs := py_int (float_mod (total_seconds td) 60) in
      let millisecs := py_int (float_mul (float_mod (total_seconds td) 1) 1000) in
      Return (format_0d 2 hours ++ utf8 ":" ++ format_0d 2 minutes ++ utf8 ":"
              ++ format_0d 2 secs ++ utf8 "," ++ format_0d 3 millisecs)
  end.

(** [format_time_display]: [MM:SS]. *)
Definition format_time_display (seconds : Q) : str :=
  let minutes := py_int (float_floordiv (py_float seconds) 60) in
  let secs := py_int (float_mod (py_float seconds) 60) in
  format_0d 2 minutes ++ utf8 ":" ++ format_0d 2 secs.

(** ** The data model *)

(** [d.get(key, default)] on an optional field. *)
Definition dict_get {A : Type} (field : option A) (default : A) : A :=
  match field with
  | Some v => v
  | None => default
  end.

(** A segment of the transcription: a [dict] with keys [start], [end] and
    [text], each of which may be missing. *)
Record RawSegment : Type := mk_raw
  { seg_start : option Q;
    seg_end : option Q;
    seg_text : option str }.

(** The structured result of a transcription: a [dict] with keys [text],
    [language], [duration] and [segments]. *)
Record TranscriptionResult : Type := mk_transcription
  { tr_text : option str;
    tr_language : option str;
    tr_duration : option Q;
    tr_segments : option (list RawSegment) }.

(** A subtitle segment: a [dict] built with the four keys [start], [end],
    [english] and [japanese]. *)
Record SubtitleSegment : Type := mk_subtitle
  { sub_start : Q;
    sub_end : Q;
    english : str;
    japanese : str }.

(** The response object of the transcription API; [segments] is read only
    when [hasattr] finds it. *)
Record Transcript : Type := mk_transcript
  { t_text : str;
    t_language : str;
    t_duration : Q;
    t_segments : option (list RawSegment) }.

(** The response object of the chat API: the [message.content] of each of its
    [choices], where a content may be [None]. *)
Record ChatCompletion : Type := mk_completion
  { choices : list (option str) }.

(** The parameters a WAV header gives. *)
Record WaveParams : Type := mk_wave
  { nchannels : Z;
    sampwidth : Z;
    framerate : Z;
    nframes : Z }.

(** Keyword arguments of [client.audio.transcriptions.create]. *)
Record TranscriptionRequest (Handle : Type) : Type := mk_transcription_request
  { tq_model : str;
    tq_file : Handle;
    tq_language : str;
    tq_response_format : str;
    tq_timestamp_granularities : option (list str) }.
Arguments mk_transcription_request {Handle}.
Arguments tq_model {Handle}.
Arguments tq_file {Handle}.
Arguments tq_language {Handle}.
Arguments tq_response_format {Handle}.
Arguments tq_timestamp_granularities {Handle}.

(** Keyword arguments of [client.chat.completions.create]; a message is a
    role and a content. *)
Record ChatRequest : Type := mk_chat_request
  { cq_model : str;
    cq_messages : list (str * str);
    cq_temperature : Q }.

(** The return value of [process_wav_file] on success. *)
Record ProcessResult : Type := mk_process
  { pr_segments : str + list SubtitleSegment;
    pr_original_text : str;
    pr_duration : Q }.

(** ** The monad of effects *)

Section Monad.
Variable World : Type.

Definition M (A : Type) : Type := World -> result A * World.

Definition ret {A : Type} (a : A) : M A := fun w => (Return a, w).

Definition raise {A : Type} (e : exc) : M A := fun w => (Raise e, w).

Definition bind {A B : Type} (m : M A) (k : A -> M B) : M B :=
  fun w =>
    match m w with
    | (Return a, w') => k a w'
    | (Raise e, w') => (Raise e, w')
    end.

(** [try: m  except Exception as e: handler e] *)
Definition try_except {A : Type} (m : M A) (handler : exc -> M A) : M A :=
  fun w =>
    match m w with
    | (Return a, w') => (Return a, w')
    | (Raise e, w') => handler e w'
    end.

(** The exit of a [with] block: [cleanup] runs whether [m] returned or
    raised. *)
Definition finally {A : Type} (m : M A) (cleanup : World -> World) : M A :=
  fun w => let '(r, w') := m w in (r, cleanup w').

End Monad.

Arguments ret {World A} a.
Arguments raise {World A} e.
Arguments bind {World A B} m k.
Arguments try_except {World A} m handler.
Arguments finally {World A} m cleanup.

Declare Scope monad_scope.
Delimit Scope monad_scope with monad.
Notation "x <- m ;; k" := (bind m (fun x => k))
  (at level 61, m at next level, right associativity) : monad_scope.
Notation "m ;; k" := (bind m (fun _ => k))
  (at level 61, right associativity) : monad_scope.

(** The outside world as the program uses it: the [wave] and [os.path]
    modules, binary files, and the two endpoints of the remote API.
    [wave_open] stands for opening a file with [wave.open], reading the four
    header fields, and closing it when the [with] block ends. *)
Class Platform (World Client Handle : Type) : Type := mk_platform
  { wave_open : str -> M World WaveParams;
    getsize : str -> M World Z;
    open_rb : str -> M World Handle;
    seek : Handle -> Z -> M World unit;
    close : Handle -> World -> World;
    transcriptions_create : Client -> TranscriptionRequest Handle -> M World Transcript;
    chat_completions_create : Client -> ChatRequest -> M World ChatCompletion;
    format_1f : Q -> str }.

(** ** The program *)

Section Program.
Context {World Client Handle : Type} {platform : Platform World Client Handle}.
Local Open Scope monad_scope.

(** An instance of [EnglishToJapaneseSubtitle]: its [client] attribute is
    [None] until an API key has been accepted. *)
Record EnglishToJapaneseSubtitle : Type := mk_self
  { client : option Client }.

Definition MSG_NO_API_KEY : str := utf8 "OpenAI APIキーが設定されていません".

(** *** [validate_wav_file] *)

Definition validate_wav_file (wav_file : str) : M World (bool * str) :=
  try_except
    (wf <- wave_open wav_file ;;
     duration <- (if framerate wf =? 0
                  then raise (utf8 "float division by zero")
                  else ret (inject_Z (nframes wf) / inject_Z (framerate wf))%Q) ;;
     file_size <- getsize wav_file ;;
     if file_size >? 25 * 1024 * 1024
     then ret (false,
               utf8 "ファイルサイズが大きすぎます: "
               ++ format_1f (inject_Z file_size / inject_Z (1024 * 1024))%Q
               ++ utf8 "MB（上限: 25MB）")
     else ret (true, utf8 "WAVファイルは有効です"))
    (fun e => ret (false, utf8 "WAVファイルの読み込みエラー: " ++ e)).

(** *** [transcribe_english_with_timestamps] *)

Definition transcribe_english_with_timestamps
    (self : EnglishToJapaneseSubtitle) (audio_file : str)
  : M World (str + TranscriptionResult) :=
  match client self with
  | None => ret (inl MSG_NO_API_KEY)
  | Some c =>
      v <- validate_wav_file audio_file ;;
      let '(is_valid, message) := v in
      if negb is_valid then ret (inl message)
      else
        try_except
          (transcript <-
             (audio <- open_rb audio_file ;;
              finally
                (try_except
                   (transcriptions_create c
                      {| tq_model := utf8 "whisper-1";
                         tq_file := audio;
                         tq_language := utf8 "en";
                         tq_response_format := utf8 "verbose_json";
                         tq_timestamp_granularities := Some [utf8 "segment"] |})
                   (fun new_api_error =>
                      seek audio 0 ;;
                      transcriptions_create c
                        {| tq_model := utf8 "whisper-1";
                           tq_file := audio;
                           tq_language := utf8 "en";
                           tq_response_format := utf8 "verbose_json";
                           tq_timestamp_granularities := None |}))
                (close audio)) ;;
           ret (inr {| tr_text := Some (t_text transcript);
                       tr_language := Some (t_language transcript);
                       tr_duration := Some (t_duration transcript);
                       tr_segments := Some (match t_segments transcript with
                                            | Some segments => segments
                                            | None => []
                                            end) |}))
          (fun e => ret (inl (utf8 "英語音声認識エラー: " ++ e)))
  end.

(** *** [translate_to_japanese] *)

Definition SUBTITLE_PROMPT : str := utf8 "あなたは映像字幕の専門翻訳者です。以下の英語テキストを自然で読みやすい日本語字幕に翻訳してください。

翻訳の際の注意事項：
- 字幕として読みやすい自然な日本語にする
- 文脈を考慮し、映像に合う表現を使う
- 敬語は文脈に応じて適切に使用
- 専門用語は日本語で一般的な表現を使用
- 長すぎる文は適切に分割する
".

Definition GENERIC_PROMPT : str :=
  utf8 "以下の英語テキストを自然な日本語に翻訳してください。".

Definition translate_to_japanese
    (self : EnglishToJapaneseSubtitle) (english_text : str) (context : str)
  : M World str :=
  match client self with
  | None => ret MSG_NO_API_KEY
  | Some c =>
      try_except
        (let system_prompt :=
           if str_eqb context (utf8 "subtitle") then SUBTITLE_PROMPT
           else GENERIC_PROMPT in
         response <- chat_completions_create c
           {| cq_model := utf8 "gpt-4";
              cq_messages := [(utf8 "system", system_prompt);
                              (utf8 "user", english_text)];
              cq_temperature := 0.3 |} ;;
         match choices response with
         | [] => raise (utf8 "list index out of range")
         | None :: _ => raise (utf8 "'NoneType' object has no attribute 'strip'")
         | Some content :: _ => ret (strip content)
         end)
        (fun e => ret (utf8 "翻訳エラー: " ++ e))
  end.

(** *** [create_subtitle_segments] *)

(** The [for segment in segments] loop; [subtitle_segments] is the list built
    so far, to which [append] adds at the end. *)
Fixpoint segments_loop
    (self : EnglishToJapaneseSubtitle) (segments : list RawSegment)
    (subtitle_segments : list SubtitleSegment) : M World (list SubtitleSegment) :=
  match segments with
  | [] => ret subtitle_segments
  | segment :: rest =>
      let english_text := strip (dict_get (seg_text segment) []) in
      if truthy english_text then
        japanese_text <- translate_to_japanese self english_text (utf8 "subtitle") ;;
        segments_loop self rest
          (subtitle_segments
           ++ [{| sub_start := dict_get (seg_start segment) 0%Q;
                  sub_end := dict_get (seg_end segment) 0%Q;
                  english := english_text;
                  japanese := japanese_text |}])
      else segments_loop self rest subtitle_segments
  end.

Definition create_subtitle_segments
    (self : EnglishToJapaneseSubtitle) (transcription_result : str + TranscriptionResult)
  : M World (str + list SubtitleSegment) :=
  match transcription_result with
  | inl message => ret (inl message)
  | inr transcription_result =>
      let segments := dict_get (tr_segments transcription_result) [] in
      match segments with
      | [] =>
          let english_text := dict_get (tr_text transcription_result) [] in
          japanese_text <- translate_to_japanese self english_text (utf8 "subtitle") ;;
          ret (inr [{| sub_start := 0;
                       sub_end := dict_get (tr_duration transcription_result) 0%Q;
                       english := english_text;
                       japanese := japanese_text |}])
      | _ :: _ =>
          subtitle_segments <- segments_loop self segments [] ;;
          ret (inr subtitle_segments)
      end
  end.

(** *** [process_wav_file] *)

(** [if progress_callback: progress_callback(message)] *)
Definition report (progress_callback : option (str -> M World unit)) (message : str)
  : M World unit :=
  match progress_callback with
  | Some callback => callback message
  | None => ret tt
  end.

Definition MSG_WAV_ONLY : str :=
  utf8 "WAVファイルのみ対応しています。他の形式は事前にWAVに変換してください。".

Definition process_wav_file
    (self : EnglishToJapaneseSubtitle) (file_path : str)
    (progress_callback : option (str -> M World unit))
  : M World (str + ProcessResult) :=
  try_except
    (report progress_callback (utf8 "WAVファイルを確認中...") ;;
     if negb (endswith (lower file_path) (utf8 ".wav")) then ret (inl MSG_WAV_ONLY)
     else
       report progress_callback (utf8 "英語音声を認識中...") ;;
       transcription_result <- transcribe_english_with_timestamps self file_path ;;
       match transcription_result with
       | inl message => ret (inl message)
       | inr tr =>
           report progress_callback (utf8 "日本語に翻訳中...") ;;
           subtitle_segments <- create_subtitle_segments self transcription_result ;;
           report progress_callback (utf8 "完了！") ;;
           ret (inr {| pr_segments := subtitle_segments;
                       pr_original_text := dict_get (tr_text tr) [];
                       pr_duration := dict_get (tr_duration tr) 0%Q |})
       end)
    (fun e => ret (inl (utf8 "処理エラー: " ++ e))).

End Program.

(** *** [generate_srt_content] *)

(** The [for i, segment in enumerate(subtitle_segments, 1)] loop, from index
    [i] on; [srt_content] is the text built so far. *)
Fixpoint srt_loop (i : Z) (subtitle_segments : list SubtitleSegment) (srt_content : str)
  : result str :=
  match subtitle_segments with
  | [] => Return srt_content
  | segment :: rest =>
      match format_time_srt (sub_start segment) with
      | Raise e => Raise e
      | Return start_time =>
          match format_time_srt (sub_end segment) with
          | Raise e => Raise e
          | Return end_time =>
              let srt_content := srt_content ++ (str_of_Z i ++ utf8 "
") in
              let srt_content := srt_content ++ (start_time ++ utf8 " --> " ++ end_time ++ utf8 "
") in
              let srt_content := srt_content ++ (japanese segment ++ utf8 "

") in
              srt_loop (i + 1) rest srt_content
          end
      end
  end.

Definition generate_srt_content (subtitle_segments : list SubtitleSegment) : result str :=
  srt_loop 1 subtitle_segments [].

(** ** Reading timestamps back *)

Definition is_digit (c : char) : bool := ((48 <=? c) && (c <=? 57))%N.

(** Regular expressions, as far as the timestamp patterns need them. *)
Inductive regex : Type :=
| RChar (c : char)
| RDigit
| RCat (r1 r2 : regex)
| RStar (r : regex).

(** [re_match r s]: the whole of [s] matches [r]. *)
Inductive re_match : regex -> str -> Prop :=
| MChar c : re_match (RChar c) [c]
| MDigit c : is_digit c = true -> re_match RDigit [c]
| MCat r1 r2 s1 s2 :
    re_match r1 s1 -> re_match r2 s2 -> re_match (RCat r1 r2) (s1 ++ s2)
| MStarNil r : re_match (RStar r) []
| MStarApp r s1 s2 :
    re_match r s1 -> re_match (RStar r) s2 -> re_match (RStar r) (s1 ++ s2).

(** [\d{2,}], [\d{2}] and [\d{3}] *)
Definition two_or_more_digits : regex := RCat RDigit (RCat RDigit (RStar RDigit)).
Definition two_digits : regex := RCat RDigit RDigit.
Definition three_digits : regex := RCat RDigit (RCat RDigit RDigit).

(** [^\d{2,}:\d{2}:\d{2},\d{3}$] *)
Definition SRT_PATTERN : regex :=
  RCat two_or_more_digits
    (RCat (RChar 58%N)
       (RCat two_digits
          (RCat (RChar 58%N)
             (RCat two_digits (RCat (RChar 44%N) three_digits))))).

(** [^\d{2,}:\d{2}$] *)
Definition DISPLAY_PATTERN : regex :=
  RCat two_or_more_digits (RCat (RChar 58%N) two_digits).

(** The number a string of decimal digits denotes, continuing from [acc]. *)
Fixpoint parse_digits (s : str) (acc : N) : option N :=
  match s with
  | [] => Some acc
  | c :: s' => if is_digit c then parse_digits s' (acc * 10 + (c - 48))%N else None
  end.

Definition parse_N (s : str) : option N :=
  match s with
  | [] => None
  | _ :: _ => parse_digits s 0%N
  end.

(** The parts of [s] before and after the first [sep]. *)
Fixpoint split_on (sep : char) (s : str) : option (str * str) :=
  match s with
  | [] => None
  | c :: s' =>
      if (c =? sep)%N then Some ([], s')
      else match split_on sep s' with
           | Some (a, b) => Some (c :: a, b)
           | None => None
           end
  end.

(** The fields of an SRT timestamp: hours, minutes, seconds, milliseconds. *)
Definition parse_srt (s : str) : option (N * N * N * N) :=
  match split_on 58%N s with
  | Some (hh, r1) =>
      match split_on 58%N r1 with
      | Some (mm, r2) =>
          match split_on 44%N r2 with
          | Some (ss, mmm) =>
              match parse_N hh, parse_N mm, parse_N ss, parse_N mmm with
              | Some h, Some m, Some s, Some ms => Some (h, m, s, ms)
              | _, _, _, _ => None
              end
          | None => None
          end
      | None => None
      end
  | None => None
  end.

(** [hours*3600 + minutes*60 + seconds + ms/1000] *)
Definition srt_value (t : N * N * N * N) : Q :=
  let '(h, m, s, ms) := t in
  (inject_Z (Z.of_N h * 3600 + Z.of_N m * 60 + Z.of_N s) + (Z.of_N ms # 1000))%Q.

(** The fields of a display timestamp: minutes, seconds. *)
Definition parse_display (s : str) : option (N * N) :=
  match split_on 58%N s with
  | Some (mm, ss) =>
      match parse_N mm, parse_N ss with
      | Some m, Some s => Some (m, s)
      | _, _ => None
      end
  | None => None
  end.

(** The value, in seconds, that a [timedelta] built from [s] holds: [s] as
    [timedelta] rounds it to whole microseconds. *)
Definition microsecond_rounded (s : Q) : Q := microseconds_of (py_float s) # 1000000.

(** The values of [s] that [timedelta(seconds=s)] accepts. *)
Definition in_timedelta_range (s : Q) : Prop :=
  - MAX_DELTA_DAYS * 86400000000 <= microseconds_of (py_float s)
  < (MAX_DELTA_DAYS + 1) * 86400000000.

(** The float that [total_seconds()] returns for the [timedelta] built from
    [s]. *)
Definition total_seconds_of (s : Q) : Q :=
  double_round (microseconds_of (py_float s) # 1000000).

(** The millisecond field the SRT formatter computes from a total of [t]
    seconds, and the whole number of milliseconds its four fields stand
    for. *)
Definition millisecond_field (t : Q) : Z :=
  py_int (float_mul (t - inject_Z (Qfloor t)) 1000).

Definition milliseconds_shown (t : Q) : Z := Qfloor t * 1000 + millisecond_field t.

(** The segments the loop keeps: those whose stripped text is non-empty. *)
Definition kept (segment : RawSegment) : bool :=
  truthy (strip (dict_get (seg_text segment) [])).

(** The subtitle segment built from a kept segment and its translation. *)
Definition subtitle_of (segment : RawSegment) (japanese_text : str) : SubtitleSegment :=
  {| sub_start := dict_get (seg_start segment) 0%Q;
     sub_end := dict_get (seg_end segment) 0%Q;
     english := strip (dict_get (seg_text segment) []);
     japanese := japanese_text |}.

(** The request [translate_to_japanese] sends for a text in the subtitle
    context. *)
Definition subtitle_request (english_text : str) : ChatRequest :=
  {| cq_model := utf8 "gpt-4";
     cq_messages := [(utf8 "system", SUBTITLE_PROMPT); (utf8 "user", english_text)];
     cq_temperature := 0.3 |}.

(** The two requests of the transcription adapter. *)
Definition primary_request {Handle : Type} (audio : Handle) : TranscriptionRequest Handle :=
  {| tq_model := utf8 "whisper-1";
     tq_file := audio;
     tq_language := utf8 "en";
     tq_response_format := utf8 "verbose_json";
     tq_timestamp_granularities := Some [utf8 "segment"] |}.

Definition fallback_request {Handle : Type} (audio : Handle) : TranscriptionRequest Handle :=
  {| tq_model := utf8 "whisper-1";
     tq_file := audio;
     tq_language := utf8 "en";
     tq_response_format := utf8 "verbose_json";
     tq_timestamp_granularities := None |}.

(** The result [dict] the adapter builds from a response. *)
Definition result_of_transcript (transcript : Transcript) : TranscriptionResult :=
  {| tr_text := Some (t_text transcript);
     tr_language := Some (t_language transcript);
     tr_duration := Some (t_duration transcript);
     tr_segments := Some (match t_segments transcript with
                          | Some segments => segments
                          | None => []
                          end) |}.

(** A subtitle segment whose two times [timedelta] accepts. *)
Definition times_in_range (segment : SubtitleSegment) : Prop :=
  in_timedelta_range (sub_start segment) /\ in_timedelta_range (sub_end segment).

(** One block of an SRT file. *)
Definition srt_block (i : Z) (start_time end_time : str) (segment : SubtitleSegment) : str :=
  (str_of_Z i ++ utf8 "
")
  ++ (start_time ++ utf8 " --> " ++ end_time ++ utf8 "
")
  ++ (japanese segment ++ utf8 "

").

(** ** A scripted world

    A world that records what the program does to it, in order, and answers
    from a script.  It gives the program something to run on. *)

Inductive event : Type :=
| EvProgress (message : str)
| EvWaveOpen (path : str)
| EvGetSize (path : str)
| EvOpen (path : str)
| EvSeek (handle : nat) (pos : Z)
| EvClose (handle : nat)
| EvTranscribe (request : TranscriptionRequest nat)
| EvChat (request : ChatRequest).

Record Script : Type := mk_script
  { on_wave_open : str -> result WaveParams;
    on_getsize : str -> result Z;
    on_open : str -> result nat;
    on_transcribe : TranscriptionRequest nat -> result Transcript;
    on_chat : ChatRequest -> result ChatCompletion }.

Definition logged {A : Type} (e : event) (r : result A) : M (list event) A :=
  fun log => (r, log ++ [e]).

Definition scripted (script : Script) : Platform (list event) unit nat :=
  {| wave_open := fun path => logged (EvWaveOpen path) (on_wave_open script path);
     getsize := fun path => logged (EvGetSize path) (on_getsize script path);
     open_rb := fun path => logged (EvOpen path) (on_open script path);
     seek := fun handle pos => logged (EvSeek handle pos) (Return tt);
     close := fun handle log => log ++ [EvClose handle];
     transcriptions_create := fun _ request =>
       logged (EvTranscribe request) (on_transcribe script request);
     chat_completions_create := fun _ request =>
       logged (EvChat request) (on_chat script request);
     format_1f := fun _ => utf8 "?" |}.

(** A progress callback that records its message. *)
Definition logging_callback : option (str -> M (list event) unit) :=
  Some (fun message => logged (EvProgress message) (Return tt)).

(** The user text of a chat request: the content of its last message. *)
Definition user_text (request : ChatRequest) : str :=
  snd (last (cq_messages request) ([], [])).

(** A sample script: a valid WAV file of 1000 bytes; an API that rejects
    [timestamp_granularities] and otherwise returns three segments; a chat
    model that answers ["JA:"] followed by the text, and fails on ["Bye"]. *)
Definition sample_segments : list RawSegment :=
  [ {| seg_start := Some 0%Q; seg_end := Some 2%Q; seg_text := Some (utf8 "Hi") |};
    {| seg_start := Some 2%Q; seg_end := Some 4%Q; seg_text := Some (utf8 "  ") |};
    {| seg_start := Some 4%Q; seg_end := Some 6%Q; seg_text := Some (utf8 "Bye") |} ].

Definition sample_transcript : Transcript :=
  {| t_text := utf8 "Hi Bye"; t_language := utf8 "english";
     t_duration := 6; t_segments := Some sample_segments |}.

Definition sample_script : Script :=
  {| on_wave_open := fun _ =>
       Return {| nchannels := 1; sampwidth := 2; framerate := 16000; nframes := 96000 |};
     on_getsize := fun _ => Return 1000;
     on_open := fun _ => Return 3%nat;
     on_transcribe := fun request =>
       match tq_timestamp_granularities request with
       | Some _ => Raise (utf8 "unexpected keyword argument")
       | None => Return sample_transcript
       end;
     on_chat := fun request =>
       if str_eqb (user_text request) (utf8 "Bye") then Raise (utf8 "rate limit")
       else Return {| choices := [Some (utf8 "JA:" ++ user_text request)] |} |}.

Definition sample_self : @EnglishToJapaneseSubtitle unit := {| client := Some tt |}.

(** Sample inputs: a result with segments, a result without segments, a
    result with no key at all, and a list of subtitle segments. *)
Definition sample_result : TranscriptionResult := result_of_transcript sample_transcript.

Definition whole_clip_result : TranscriptionResult :=
  {| tr_text := Some (utf8 "Hello");
     tr_language := Some (utf8 "english");
     tr_duration := Some 12.5%Q;
     tr_segments := Some [] |}.

Definition bare_result : TranscriptionResult :=
  {| tr_text := None; tr_language := None; tr_duration := None; tr_segments := None |}.




Definition untimed_segment : RawSegment :=
  {| seg_start := None; seg_end := None; seg_text := Some (utf8 "  Yes ") |}.

Definition untimed_result : TranscriptionResult :=
  {| tr_text := Some (utf8 "Hi Yes");
     tr_language := Some (utf8 "english");
     tr_duration := Some 6%Q;
     tr_segments := Some (firstn 1 sample_segments ++ untimed_segment :: []) |}.

Definition sample_subtitles : list SubtitleSegment :=
  [ {| sub_start := 0; sub_end := 2.5; english := utf8 "Hi"; japanese := utf8 "JA:Hi" |};
    {| sub_start := 4; sub_end := 3661.0019; english := utf8 "Bye";
       japanese := utf8 "JA:Bye" |} ].

(** Two more scripts: a file that is not a WAV container, and a file of
    30000000 bytes. *)
Definition corrupt_script : Script :=
  {| on_wave_open := fun _ => Raise (utf8 "file does not start with RIFF id");
     on_getsize := on_getsize sample_script;
     on_open := on_open sample_script;
     on_transcribe := on_transcribe sample_script;
     on_chat := on_chat sample_script |}.

Definition huge_script : Script :=
  {| on_wave_open := on_wave_open sample_script;
     on_getsize := fun _ => Return 30000000;
     on_open := on_open sample_script;
     on_transcribe := on_transcribe sample_script;
     on_chat := on_chat sample_script |}.


(** ** More of the program: the API key and the bilingual text

    The definitions and properties from here on go beyond the claims. *)

(** The constructor of the API client and the call that proves a key
    valid. *)
Class KeyService (World Client : Type) : Type := mk_key_service
  { OpenAI : str -> M World Client;
    models_list : Client -> M World unit }.

Section ApiKey.
Context {World Client : Type} {service : KeyService World Client}.
Local Open Scope monad_scope.

(** *** [EnglishToJapaneseSubtitle.set_api_key]

    The method assigns [self.client]; the model returns the object after the
    call beside the method's result. *)
Definition set_api_key (self : @EnglishToJapaneseSubtitle Client) (api_key : str)
  : M World (@EnglishToJapaneseSubtitle Client * bool) :=
  try_except
    (c <- OpenAI api_key ;;
     let self := {| client := Some c |} in
     models_list c ;;
     ret (self, true))
    (fun e => ret ({| client := None |}, false)).

(** *** [EnglishToJapaneseSubtitle.__init__]

    [IMPORTS_OK] is the module's flag that tells whether its imports
    succeeded.  When they failed the constructor returns before it assigns
    [self.client]: the object it leaves has no [client] attribute at all,
    and any later read of [self.client] raises [AttributeError].  The model
    returns [None] for such an object, and [Some self] for an object with
    the attribute. *)
Definition init (IMPORTS_OK : bool) (api_key : option str)
  : M World (option (@EnglishToJapaneseSubtitle Client)) :=
  if negb IMPORTS_OK then ret None
  else
    let self := {| client := None |} in
    match api_key with
    | Some key =>
        if truthy key then
          r <- set_api_key self key ;;
          ret (Some (fst r))
        else ret (Some self)
    | None => ret (Some self)
    end.

End ApiKey.

(** *** [generate_bilingual_text]

    [generated_at] is the text of
    [datetime.now().strftime('%Y-%m-%d %H:%M:%S')]. *)

(** One block of the bilingual text. *)
Definition bilingual_block (i : Z) (segment : SubtitleSegment) : str :=
  (utf8 "[" ++ format_0d 3 i ++ utf8 "] " ++ format_time_display (sub_start segment)
   ++ utf8 " - " ++ format_time_display (sub_end segment) ++ utf8 "
")
  ++ (utf8 "EN: " ++ english segment ++ utf8 "
")
  ++ (utf8 "JA: " ++ japanese segment ++ utf8 "
")
  ++ (repeat 45%N 40 ++ utf8 "

").

(** The [for i, segment in enumerate(subtitle_segments, 1)] loop, from index
    [i] on; [text_content] is the text built so far. *)
Fixpoint bilingual_loop (i : Z) (subtitle_segments : list SubtitleSegment)
    (text_content : str) : str :=
  match subtitle_segments with
  | [] => text_content
  | segment :: rest =>
      let start_time := format_time_display (sub_start segment) in
      let end_time := format_time_display (sub_end segment) in
      let text_content :=
        text_content ++ (utf8 "[" ++ format_0d 3 i ++ utf8 "] " ++ start_time
                         ++ utf8 " - " ++ end_time ++ utf8 "
") in
      let text_content := text_content ++ (utf8 "EN: " ++ english segment ++ utf8 "
") in
      let text_content := text_content ++ (utf8 "JA: " ++ japanese segment ++ utf8 "
") in
      let text_content := text_content ++ (repeat 45%N 40 ++ utf8 "

") in
      bilingual_loop (i + 1) rest text_content
  end.

(** The banner: a rule of 60 [=], the title, the time of generation, a rule
    and an empty line. *)
Definition bilingual_banner (generated_at : str) : str :=
  (repeat 61%N 60 ++ utf8 "
")
  ++ utf8 "英語音声 → 日本語字幕
"
  ++ (utf8 "生成日時: " ++ generated_at ++ utf8 "
")
  ++ (repeat 61%N 60 ++ utf8 "

").

Definition generate_bilingual_text (generated_at : str)
    (subtitle_segments : list SubtitleSegment) : str :=
  let text_content := repeat 61%N 60 ++ utf8 "
" in
  let text_content := text_content ++ utf8 "英語音声 → 日本語字幕
" in
  let text_content := text_content ++ (utf8 "生成日時: " ++ generated_at ++ utf8 "
") in
  let text_content := text_content ++ (repeat 61%N 60 ++ utf8 "

") in
  bilingual_loop 1 subtitle_segments text_content.

(** ** Notions the further properties use *)

(** A string with no whitespace at either end. *)
Definition trimmed (s : str) : Prop :=
  match s with
  | [] => True
  | c :: s' => isspace c = false /\ isspace (last s' c) = false
  end.

(** The text of a raw segment consists of whitespace only (or is missing). *)
Definition blank (segment : RawSegment) : Prop :=
  Forall (fun c => isspace c = true) (dict_get (seg_text segment) []).

(** The last four characters that make a path a WAV path. *)
Definition is_wav_suffix (c0 c1 c2 c3 : char) : Prop :=
  c0 = 46%N /\ (c1 = 119 \/ c1 = 87)%N /\ (c2 = 97 \/ c2 = 65)%N /\ (c3 = 118 \/ c3 = 86)%N.

(** A constructor that accepts every key, and a validity check that accepts
    the key ["sk-good"] only; the client is the key. *)
Definition sample_key_service : KeyService (list str) str :=
  {| OpenAI := fun api_key log => (Return api_key, log ++ [utf8 "OpenAI"]);
     models_list := fun c log =>
       (if str_eqb c (utf8 "sk-good") then Return tt else Raise (utf8 "401"),
        log ++ [utf8 "models.list"]) |}.

(** A script whose response carries no [segments] attribute. *)
Definition plain_transcript : Transcript :=
  {| t_text := utf8 "Hello"; t_language := utf8 "english";
     t_duration := 12.5; t_segments := None |}.

(** [enumerate(l, i)] as a list. *)
Fixpoint enumerate {A : Type} (i : Z) (l : list A) : list (Z * A) :=
  match l with
  | [] => []
  | x :: l' => (i, x) :: enumerate (i + 1) l'
  end.

(** The scripted world for a client of any type. *)
Definition scripted_for (Client : Type) (script : Script) : Platform (list event) Client nat :=
  {| wave_open := fun path => logged (EvWaveOpen path) (on_wave_open script path);
     getsize := fun path => logged (EvGetSize path) (on_getsize script path);
     open_rb := fun path => logged (EvOpen path) (on_open script path);
     seek := fun handle pos => logged (EvSeek handle pos) (Return tt);
     close := fun handle log => log ++ [EvClose handle];
     transcriptions_create := fun _ request =>
       logged (EvTranscribe request) (on_transcribe script request);
     chat_completions_create := fun _ request =>
       logged (EvChat request) (on_chat script request);
     format_1f := fun _ => utf8 "?" |}.

(** More sample inputs: an object without client, a result whose segments
    are all blank, the result built from a response without segments, three
    more scripts (a header with frame rate 0, a file that cannot be opened,
    an API that fails on every request) and a progress callback that
    raises. *)
Definition self_without_key : @EnglishToJapaneseSubtitle unit := {| client := None |}.

Definition blank_result : TranscriptionResult :=
  {| tr_text := Some (utf8 "Hello");
     tr_language := Some (utf8 "english");
     tr_duration := Some 6%Q;
     tr_segments :=
       Some [ {| seg_start := Some 0%Q; seg_end := Some 2%Q; seg_text := Some (utf8 " 	 ") |};
              {| seg_start := Some 2%Q; seg_end := Some 4%Q; seg_text := None |} ] |}.

Definition plain_result : TranscriptionResult := result_of_transcript plain_transcript.

Definition zero_rate_script : Script :=
  {| on_wave_open := fun _ =>
       Return {| nchannels := 1; sampwidth := 2; framerate := 0; nframes := 96000 |};
     on_getsize := on_getsize sample_script;
     on_open := on_open sample_script;
     on_transcribe := on_transcribe sample_script;
     on_chat := on_chat sample_script |}.

Definition locked_script : Script :=
  {| on_wave_open := on_wave_open sample_script;
     on_getsize := on_getsize sample_script;
     on_open := fun _ => Raise (utf8 "Permission denied");
     on_transcribe := on_transcribe sample_script;
     on_chat := on_chat sample_script |}.

Definition failing_api_script : Script :=
  {| on_wave_open := on_wave_open sample_script;
     on_getsize := on_getsize sample_script;
     on_open := on_open sample_script;
     on_transcribe := fun _ => Raise (utf8 "Connection error.");
     on_chat := on_chat sample_script |}.

Definition raising_callback : option (str -> M (list event) unit) :=
  Some (fun message => logged (EvProgress message) (Raise (utf8 "window closed"))).

(** What the sample world returns for the sample result, and the requests it
    logs. *)
Definition sample_output : list SubtitleSegment :=
  [ {| sub_start := 0; sub_end := 2; english := utf8 "Hi"; japanese := utf8 "JA:Hi" |};
    {| sub_start := 4; sub_end := 6; english := utf8 "Bye";
       japanese := utf8 "翻訳エラー: rate limit" |} ].

Definition sample_chat_log : list event :=
  [ EvChat (subtitle_request (utf8 "Hi")); EvChat (subtitle_request (utf8 "Bye")) ].

Definition sample_upload_log (path : str) : list event :=
  [ EvWaveOpen path; EvGetSize path; EvOpen path;
    EvTranscribe (primary_request 3%nat); EvSeek 3 0;
    EvTranscribe (fallback_request 3%nat); EvClose 3 ].

(** * Properties *)

(** ** Sample runs of the definitions *)

Example utf8_ascii : utf8 ".wav" = [46; 119; 97; 118]%N.
Proof. reflexivity. Qed.

Example utf8_label : utf8 "翻訳エラー: " = [32763; 35379; 12456; 12521; 12540; 58; 32]%N.
Proof. reflexivity. Qed.

Example format_0d_examples :
  format_0d 2 5 = utf8 "05" /\ format_0d 2 123 = utf8 "123" /\
  format_0d 3 7 = utf8 "007" /\ format_0d 2 (-1) = utf8 "-1" /\
  format_0d 3 (-5) = utf8 "-05" /\ format_0d 2 0 = utf8 "00" /\
  format_0d 2 23999999999 = utf8 "23999999999".
Proof. repeat split; reflexivity. Qed.

Example strip_examples :
  strip (utf8 "  Hi there 	") = utf8 "Hi there" /\ strip (utf8 "  ") = [] /\
  strip [12288; 72; 160]%N = [72]%N.
Proof. repeat split; reflexivity. Qed.

Example double_round_examples :
  (double_round 12.5 = 25 # 2 /\
   double_round 1.2 = 5404319552844595 # 4503599627370496 /\
   double_round 1.001 = 2254051613498933 # 2251799813685248 /\
   double_round 10000000000000000000000 = 10000000000000000000000 /\
   double_round (1 # 3) = 6004799503160661 # 18014398509481984 /\
   double_round 9007199254740993 = 9007199254740992 /\
   double_round (- 9007199254740995) = - 9007199254740996)%Q.
Proof. repeat split; vm_compute; reflexivity. Qed.

Example float_arithmetic_examples :
  (float_mod (py_float 1.2) 1 = 900719925474099 # 4503599627370496 /\
   float_mul (900719925474099 # 4503599627370496) 1000
     = 3518437208883199 # 17592186044416 /\
   float_floordiv 10000000000000000000000 60 = 166666666666666655744 /\
   float_floordiv (-7) 2 = -4 /\ float_mod (-7) 2 = 1 /\
   float_floordiv 7 (-2) = -4 /\ float_mod 7 (-2) = -1)%Q /\
  microseconds_of (py_float 0.9999996) = 1000000 /\
  microseconds_of (py_float 0.0000005) = 0 /\
  microseconds_of (py_float 0.0000015) = 2.
Proof. repeat split; vm_compute; reflexivity. Qed.

Example format_time_srt_examples :
  format_time_srt 0 = Return (utf8 "00:00:00,000") /\
  format_time_srt 12.5 = Return (utf8 "00:00:12,500") /\
  format_time_srt 3661.5 = Return (utf8 "01:01:01,500") /\
  format_time_srt 1.2 = Return (utf8 "00:00:01,199") /\
  format_time_srt 1.001 = Return (utf8 "00:00:01,000") /\
  format_time_srt 59.999 = Return (utf8 "00:00:59,999") /\
  format_time_srt 0.9999996 = Return (utf8 "00:00:01,000") /\
  format_time_srt 0.0000005 = Return (utf8 "00:00:00,000") /\
  format_time_srt 360000 = Return (utf8 "100:00:00,000") /\
  format_time_srt (-1) = Return (utf8 "-1:59:59,000") /\
  format_time_srt (-0.5) = Return (utf8 "-1:59:59,500") /\
  format_time_srt 86399999999999.5 = Return (utf8 "23999999999:59:59,500") /\
  format_time_srt 100000000000000 =
    Raise (utf8 "days=1157407407; must have magnitude <= 999999999") /\
  format_time_srt 185542587187200 =
    Raise (utf8 "Python int too large to convert to C int") /\
  format_time_srt (-86399999913600) = Return (utf8 "-23999999976:00:00,000") /\
  format_time_srt (-86399999913601) =
    Raise (utf8 "days=-1000000000; must have magnitude <= 999999999").
Proof. repeat split; vm_compute; reflexivity. Qed.

Example format_time_display_examples :
  format_time_display 0 = utf8 "00:00" /\
  format_time_display 75.9 = utf8 "01:15" /\
  format_time_display 6000 = utf8 "100:00" /\
  format_time_display 3599.999 = utf8 "59:59" /\
  format_time_display 9007199254740991 = utf8 "150119987579016:31" /\
  format_time_display 10000000000000000000000 = utf8 "166666666666666655744:40".
Proof. repeat split; vm_compute; reflexivity. Qed.

Example parse_srt_example :
  parse_srt (utf8 "100:02:03,045") = Some (100, 2, 3, 45)%N.
Proof. reflexivity. Qed.

(** ** Decimal digits *)

Lemma is_digit_digit_char (d : N) : (d < 10)%N -> is_digit (digit_char d) = true.
Proof.
  intros Hd. unfold is_digit, digit_char.
  apply andb_true_iff; split; apply N.leb_le; lia.
Qed.

Lemma parse_digits_app (ds rest : str) :
  Forall (fun c => is_digit c = true) ds ->
  forall a, exists v,
    parse_digits ds a = Some v /\ parse_digits (ds ++ rest) a = parse_digits rest v.
Proof.
  induction 1 as [|c ds Hc _ IH]; intros a; simpl.
  - exists a; split; reflexivity.
  - rewrite Hc. apply IH.
Qed.

(** What [digits_from] appends in front of [acc]: a non-empty run of digits
    that denotes [n] and is as short as [n] allows. *)
Lemma digits_from_spec (fuel : nat) :
  forall (n : N) (acc : str),
    (n < 10 ^ N.of_nat (S fuel))%N ->
    exists ds,
      digits_from fuel n acc = ds ++ acc /\
      ds <> [] /\
      Forall (fun c => is_digit c = true) ds /\
      (forall a, parse_digits ds a = Some (a * 10 ^ N.of_nat (List.length ds) + n)%N) /\
      (forall k, (n < 10 ^ N.of_nat (S k))%N -> (List.length ds <= S k)%nat).
Proof.
  induction fuel as [|fuel IH]; intros n acc Hn.
  - assert (Hlt : (n < 10)%N) by (change (10 ^ N.of_nat 1)%N with 10%N in Hn; exact Hn).
    exists [digit_char (n mod 10)]. simpl.
    rewrite N.mod_small by exact Hlt.
    repeat split.
    + discriminate.
    + constructor; [apply is_digit_digit_char; exact Hlt | constructor].
    + intros a. rewrite is_digit_digit_char by exact Hlt.
      unfold digit_char. f_equal. lia.
    + intros k _. lia.
  - cbn [digits_from]. destruct (n <? 10)%N eqn:Hsmall.
    + apply N.ltb_lt in Hsmall.
      exists [digit_char (n mod 10)]. simpl.
      rewrite N.mod_small by exact Hsmall.
      repeat split.
      * discriminate.
      * constructor; [apply is_digit_digit_char; exact Hsmall | constructor].
      * intros a. rewrite is_digit_digit_char by exact Hsmall.
        unfold digit_char. f_equal. lia.
      * intros k _. lia.
    + apply N.ltb_ge in Hsmall.
      assert (Hdiv : (n / 10 < 10 ^ N.of_nat (S fuel))%N).
      { apply N.Div0.div_lt_upper_bound.
        replace (N.of_nat (S (S fuel))) with (N.succ (N.of_nat (S fuel))) in Hn by lia.
        rewrite N.pow_succ_r' in Hn. exact Hn. }
      destruct (IH (n / 10)%N (digit_char (n mod 10) :: acc) Hdiv)
        as (ds & Heq & Hne & Hall & Hparse & Hlen).
      assert (Hd : (n mod 10 < 10)%N) by (apply N.mod_lt; discriminate).
      exists (ds ++ [digit_char (n mod 10)]).
      repeat split.
      * rewrite Heq, <- app_assoc. reflexivity.
      * destruct ds; discriminate.
      * apply Forall_app; split; [exact Hall|].
        constructor; [apply is_digit_digit_char; exact Hd | constructor].
      * intros a.
        destruct (parse_digits_app ds [digit_char (n mod 10)] Hall a) as (v & Hv & Happ).
        rewrite Happ. rewrite Hparse in Hv. injection Hv as <-.
        simpl. rewrite is_digit_digit_char by exact Hd.
        unfold digit_char. f_equal.
        rewrite length_app. cbn [List.length].
        replace (N.of_nat (List.length ds + 1)) with (N.succ (N.of_nat (List.length ds))) by lia.
        rewrite N.pow_succ_r'.
        rewrite (N.add_comm 48), N.add_sub.
        rewrite (N.div_mod n 10 ltac:(discriminate)) at 3.
        ring.
      * intros k Hk. rewrite length_app. cbn [List.length].
        destruct k as [|k].
        { change (10 ^ N.of_nat 1)%N with 10%N in Hk. lia. }
        assert (Hk' : (n / 10 < 10 ^ N.of_nat (S k))%N).
        { apply N.Div0.div_lt_upper_bound.
          replace (N.of_nat (S (S k))) with (N.succ (N.of_nat (S k))) in Hk by lia.
          rewrite N.pow_succ_r' in Hk. exact Hk. }
        specialize (Hlen k Hk'). lia.
Qed.

Lemma size_pow10 (n : N) : (n < 10 ^ N.of_nat (S (N.to_nat (N.size n))))%N.
Proof.
  apply N.lt_le_trans with (2 ^ N.size n)%N.
  - destruct n as [|p]; [reflexivity|].
    apply N.size_gt.
  - replace (N.of_nat (S (N.to_nat (N.size n)))) with (N.succ (N.size n)) by lia.
    rewrite N.pow_succ_r'.
    apply N.le_trans with (10 ^ N.size n)%N.
    + apply N.pow_le_mono_l. lia.
    + assert (0 < 10 ^ N.size n)%N by (apply N.neq_0_lt_0, N.pow_nonzero; discriminate).
      lia.
Qed.

(** [str_of_N n] is a non-empty string of digits that reads back as [n]. *)
Lemma str_of_N_spec (n : N) :
  str_of_N n <> [] /\
  Forall (fun c => is_digit c = true) (str_of_N n) /\
  parse_digits (str_of_N n) 0 = Some n /\
  (forall k, (n < 10 ^ N.of_nat (S k))%N -> (List.length (str_of_N n) <= S k)%nat).
Proof.
  unfold str_of_N.
  destruct (digits_from_spec _ n [] (size_pow10 n)) as (ds & Heq & Hne & Hall & Hparse & Hlen).
  rewrite Heq, app_nil_r.
  repeat split; try assumption.
  rewrite Hparse. reflexivity.
Qed.

Definition all_digits (s : str) : Prop := Forall (fun c => is_digit c = true) s.

Lemma zfill_length (width : nat) (s : str) :
  List.length (zfill width s) = Nat.max width (List.length s).
Proof. unfold zfill. rewrite length_app, repeat_length. lia. Qed.

Lemma zfill_all_digits (width : nat) (s : str) :
  all_digits s -> all_digits (zfill width s).
Proof.
  intros Hs. unfold zfill. apply Forall_app; split; [|exact Hs].
  apply Forall_forall. intros c Hc. apply repeat_spec in Hc. subst c. reflexivity.
Qed.

Lemma parse_digits_zfill (width : nat) (s : str) :
  parse_digits (zfill width s) 0 = parse_digits s 0.
Proof.
  unfold zfill. induction (width - List.length s)%nat as [|k IH]; [reflexivity|].
  simpl. exact IH.
Qed.

(** A non-negative number formats to digits only, at least [width] of them
    and exactly [width] when the number is below [10 ^ width]; the digits
    read back as the number. *)
Lemma format_0d_spec (width : nat) (z : Z) :
  0 <= z -> (0 < width)%nat ->
  all_digits (format_0d width z) /\
  (width <= List.length (format_0d width z))%nat /\
  (z < 10 ^ Z.of_nat width -> List.length (format_0d width z) = width) /\
  parse_N (format_0d width z) = Some (Z.to_N z).
Proof.
  intros Hz Hw. unfold format_0d.
  destruct (Z.ltb_spec z 0) as [Hneg|_]; [lia|].
  destruct (str_of_N_spec (Z.to_N z)) as (Hne & Hall & Hparse & Hlen).
  repeat split.
  - apply zfill_all_digits. exact Hall.
  - rewrite zfill_length. lia.
  - intros Hlt. rewrite zfill_length.
    destruct width as [|k]; [lia|].
    assert (List.length (str_of_N (Z.to_N z)) <= S k)%nat; [|lia].
    apply Hlen.
    assert (Heq : (10 ^ N.of_nat (S k))%N = Z.to_N (10 ^ Z.of_nat (S k))).
    { rewrite Z2N.inj_pow by lia. f_equal; lia. }
    rewrite Heq. lia.
  - unfold parse_N.
    destruct (zfill width (str_of_N (Z.to_N z))) eqn:Hzf.
    + exfalso. apply (f_equal (@List.length char)) in Hzf.
      rewrite zfill_length in Hzf. simpl in Hzf. lia.
    + rewrite <- Hzf, parse_digits_zfill. exact Hparse.
Qed.

Lemma re_match_digit (c : char) : is_digit c = true -> re_match RDigit [c].
Proof. apply MDigit. Qed.

Lemma re_match_digits_star (s : str) : all_digits s -> re_match (RStar RDigit) s.
Proof.
  induction 1 as [|c s Hc _ IH]; [apply MStarNil|].
  change (c :: s) with ([c] ++ s). apply MStarApp; [apply MDigit; exact Hc | exact IH].
Qed.

Lemma re_match_two_or_more (s : str) :
  all_digits s -> (2 <= List.length s)%nat -> re_match two_or_more_digits s.
Proof.
  intros Hs Hlen.
  destruct s as [|a [|b s]]; simpl in Hlen; try lia.
  inversion Hs as [|? ? Ha Hs']; subst. inversion Hs' as [|? ? Hb Hs'']; subst.
  change (a :: b :: s) with ([a] ++ [b] ++ s).
  apply MCat; [apply MDigit; exact Ha|].
  apply MCat; [apply MDigit; exact Hb|].
  apply re_match_digits_star. exact Hs''.
Qed.

Lemma re_match_two (s : str) :
  all_digits s -> List.length s = 2%nat -> re_match two_digits s.
Proof.
  intros Hs Hlen.
  destruct s as [|a [|b [|c s]]]; simpl in Hlen; try lia.
  inversion Hs as [|? ? Ha Hs']; subst. inversion Hs' as [|? ? Hb _]; subst.
  change [a; b] with ([a] ++ [b]).
  apply MCat; apply MDigit; assumption.
Qed.

Lemma re_match_three (s : str) :
  all_digits s -> List.length s = 3%nat -> re_match three_digits s.
Proof.
  intros Hs Hlen.
  destruct s as [|a [|b [|c [|d s]]]]; simpl in Hlen; try lia.
  inversion Hs as [|? ? Ha Hs']; subst. inversion Hs' as [|? ? Hb Hs'']; subst.
  inversion Hs'' as [|? ? Hc _]; subst.
  change [a; b; c] with ([a] ++ [b] ++ [c]).
  apply MCat; [apply MDigit; exact Ha|].
  apply MCat; apply MDigit; assumption.
Qed.

(** Splitting at a separator that is not a digit, after a run of digits. *)
Lemma split_on_digits (sep : char) (ds rest : str) :
  is_digit sep = false -> all_digits ds ->
  split_on sep (ds ++ sep :: rest) = Some (ds, rest).
Proof.
  intros Hsep. induction 1 as [|c ds Hc _ IH]; simpl.
  - rewrite N.eqb_refl. reflexivity.
  - destruct (N.eqb_spec c sep) as [->|_]; [congruence|].
    rewrite IH. reflexivity.
Qed.

(** ** Floats

    The facts about rounding to the nearest float that the formatters rest
    on: the size of the rounding error, the numbers that are rounded to
    themselves, and monotonicity. *)

(** *** Powers of two *)


Lemma pow2_pos (k : Z) : (0 < pow2 k)%Q.
Proof. apply Qpower_0_lt. reflexivity. Qed.

Lemma pow2_add (a b : Z) : (pow2 (a + b) == pow2 a * pow2 b)%Q.
Proof. apply Qpower_plus. discriminate. Qed.

Lemma pow2_sub (a b : Z) : (pow2 (a - b) == pow2 a / pow2 b)%Q.
Proof. apply Qpower_minus. discriminate. Qed.

Lemma pow2_le (a b : Z) : a <= b -> (pow2 a <= pow2 b)%Q.
Proof. intros H. apply Qpower_le_compat_l; [exact H|discriminate]. Qed.

Lemma pow2_lt (a b : Z) : a < b -> (pow2 a < pow2 b)%Q.
Proof. intros H. apply Qpower_lt_compat_l; [exact H|reflexivity]. Qed.

Lemma pow2_lt_inv (a b : Z) : (pow2 a < pow2 b)%Q -> a < b.
Proof. intros H. apply (Qpower_lt_compat_l_inv 2); [exact H|reflexivity]. Qed.

Lemma pow2_inject (k : Z) : 0 <= k -> (pow2 k == inject_Z (2 ^ k))%Q.
Proof. intros H. symmetry. apply (Zpower_Qpower 2 k H). Qed.

Lemma pow2_succ (k : Z) : (pow2 (k + 1) == 2 * pow2 k)%Q.
Proof. rewrite pow2_add. change (pow2 1) with 2%Q. ring. Qed.

Lemma Qlog2_spec (x : Q) : (0 < x)%Q -> (pow2 (Qlog2 x) <= x < pow2 (Qlog2 x + 1))%Q.
Proof.
  intros Hx. destruct x as [n d].
  assert (Hn : 0 < n) by (unfold Qlt in Hx; cbn in Hx; lia).
  unfold Qlog2. cbn [Qnum Qden].
  set (a := Z.log2 n). set (b := Z.log2 (Z.pos d)).
  destruct (Z.log2_spec n Hn) as [Ha1 Ha2]. fold a in Ha1, Ha2.
  destruct (Z.log2_spec (Z.pos d) eq_refl) as [Hb1 Hb2]. fold b in Hb1, Hb2.
  assert (Ha0 : 0 <= a) by apply Z.log2_nonneg.
  assert (Hb0 : 0 <= b) by apply Z.log2_nonneg.
  rewrite Zle_Qle, <- pow2_inject in Ha1 by lia.
  rewrite Zlt_Qlt, <- (pow2_inject (Z.succ a)) in Ha2 by lia.
  rewrite Zle_Qle, <- pow2_inject in Hb1 by lia.
  rewrite Zlt_Qlt, <- (pow2_inject (Z.succ b)) in Hb2 by lia.
  unfold Z.succ in *. rewrite pow2_succ in Ha2, Hb2.
  pose proof (pow2_pos a) as Pa. pose proof (pow2_pos b) as Pb.
  pose proof (pow2_pos (a - b)) as Pk.
  assert (Hk : (pow2 (a - b) * pow2 b == pow2 a)%Q).
  { rewrite <- pow2_add. replace (a - b + b) with a by lia. reflexivity. }
  assert (Hxd : ((n # d) * inject_Z (Z.pos d) == inject_Z n)%Q).
  { unfold Qeq, Qmult, inject_Z. cbn [Qnum Qden]. lia. }
  set (x := n # d) in *. set (D := inject_Z (Z.pos d)) in *. set (N := inject_Z n) in *.
  set (A := pow2 a) in *. set (B := pow2 b) in *. 
  destruct (Qle_bool (pow2 (a - b)) x) eqn:Hc.
  - apply Qle_bool_iff in Hc. split; [exact Hc|].
    rewrite pow2_succ. set (P := pow2 (a - b)) in *.
    apply Qnot_le_lt. intros Hge.
    assert (H1 : (2 * P * D <= x * D)%Q) by (apply Qmult_le_compat_r; lra).
    assert (H2 : (2 * P * B <= 2 * P * D)%Q) by (apply Qmult_le_l; lra).
    lra.
  - assert (Hlt : (x < pow2 (a - b))%Q).
    { apply Qnot_le_lt. intros H. apply Qle_bool_iff in H. congruence. }
    replace (a - b - 1 + 1) with (a - b) by lia. split; [|exact Hlt].
    assert (Hp : (2 * pow2 (a - b - 1) == pow2 (a - b))%Q).
    { rewrite <- pow2_succ. replace (a - b - 1 + 1) with (a - b) by lia. reflexivity. }
    set (P := pow2 (a - b)) in *. set (P' := pow2 (a - b - 1)) in *.
    apply Qnot_lt_le. intros Hlt'.
    assert (H1 : (x * D < P' * D)%Q) by (apply Qmult_lt_compat_r; lra).
    assert (H2 : (P' * D <= P' * (2 * B))%Q).
    { apply Qmult_le_l; [|lra]. pose proof (pow2_pos (a - b - 1)). 
      unfold P'. lra. }
    assert (Hk' : (P' * (2 * B) == A)%Q) by (rewrite <- Hk, <- Hp; ring).
    lra.
Qed.

Lemma Qlog2_unique (x : Q) (e : Z) : (pow2 e <= x < pow2 (e + 1))%Q -> Qlog2 x = e.
Proof.
  intros [H1 H2].
  assert (Hx : (0 < x)%Q) by (pose proof (pow2_pos e); lra).
  destruct (Qlog2_spec x Hx) as [H3 H4].
  assert (Ha : e < Qlog2 x + 1) by (apply pow2_lt_inv; lra).
  assert (Hb : Qlog2 x < e + 1) by (apply pow2_lt_inv; lra).
  lia.
Qed.

Lemma Qlog2_comp (x y : Q) : (x == y)%Q -> (0 < x)%Q -> Qlog2 x = Qlog2 y.
Proof.
  intros Hxy Hx. apply Qlog2_unique. rewrite Hxy. apply Qlog2_spec. lra.
Qed.

Lemma Qlog2_lt (x : Q) (k : Z) : (0 < x)%Q -> (x < pow2 k)%Q -> Qlog2 x < k.
Proof.
  intros Hx Hk. destruct (Qlog2_spec x Hx) as [H1 _]. apply pow2_lt_inv. lra.
Qed.

Lemma Qlog2_ge (x : Q) (k : Z) : (pow2 k <= x)%Q -> k <= Qlog2 x.
Proof.
  intros Hk. assert (Hx : (0 < x)%Q) by (pose proof (pow2_pos k); lra).
  destruct (Qlog2_spec x Hx) as [_ H2].
  assert (k < Qlog2 x + 1) by (apply pow2_lt_inv; lra). lia.
Qed.

(** Absolute values, for [lra]. *)
Lemma Qabs_cases (x : Q) :
  ((0 <= x)%Q /\ (Qabs x == x)%Q) \/ ((x < 0)%Q /\ (Qabs x == - x)%Q).
Proof.
  destruct (Qlt_le_dec x 0) as [H|H].
  - right. split; [exact H|]. apply Qabs_neg. lra.
  - left. split; [exact H|]. apply Qabs_pos. exact H.
Qed.

Ltac qabs x := let H := fresh "Habs" in destruct (Qabs_cases x) as [[? H]|[? H]].

(** ** Rounding to the nearest integer *)

Lemma round_half_even_bounds (x : Q) :
  (inject_Z (round_half_even x) - (1 # 2) <= x <= inject_Z (round_half_even x) + (1 # 2))%Q.
Proof.
  unfold round_half_even.
  pose proof (Qfloor_le x) as Hlo. pose proof (Qlt_floor x) as Hhi.
  rewrite inject_Z_plus in Hhi. change (inject_Z 1) with 1%Q in Hhi.
  destruct (Qcompare_spec (x - inject_Z (Qfloor x)) (1 # 2)) as [Heq|Hlt|Hgt].
  - destruct (Z.even (Qfloor x));
      [|rewrite inject_Z_plus; change (inject_Z 1) with 1%Q]; lra.
  - lra.
  - rewrite inject_Z_plus; change (inject_Z 1) with 1%Q. lra.
Qed.

Lemma round_half_even_comp (x y : Q) : (x == y)%Q -> round_half_even x = round_half_even y.
Proof.
  intros Hxy. unfold round_half_even.
  rewrite (Qfloor_comp x y Hxy).
  assert (Hc : ((x - inject_Z (Qfloor y)) ?= (1 # 2))%Q
               = ((y - inject_Z (Qfloor y)) ?= (1 # 2))%Q).
  { apply Qcompare_comp; [rewrite Hxy|]; reflexivity. }
  rewrite Hc. reflexivity.
Qed.

Lemma round_half_even_inject (z : Z) : round_half_even (inject_Z z) = z.
Proof.
  unfold round_half_even. rewrite Qfloor_Z.
  destruct (Qcompare_spec (inject_Z z - inject_Z z) (1 # 2)) as [H|H|H]; [lra|reflexivity|lra].
Qed.

Lemma inject_Z_half_le (a b : Z) :
  (inject_Z a - (1 # 2) <= inject_Z b + (1 # 2))%Q <-> a <= b + 1.
Proof. unfold Qle, Qminus, Qplus, Qopp, inject_Z. cbn [Qnum Qden]. lia. Qed.

Lemma inject_Z_half_lt (a b : Z) :
  (inject_Z a - (1 # 2) < inject_Z b + (1 # 2))%Q <-> a <= b.
Proof. unfold Qlt, Qminus, Qplus, Qopp, inject_Z. cbn [Qnum Qden]. lia. Qed.

Lemma round_half_even_le (x y : Q) :
  (x <= y)%Q -> round_half_even x <= round_half_even y.
Proof.
  intros Hxy.
  pose proof (round_half_even_bounds x) as [Hx1 Hx2].
  pose proof (round_half_even_bounds y) as [Hy1 Hy2].
  assert (H : (inject_Z (round_half_even x) - (1 # 2)
               <= inject_Z (round_half_even y) + (1 # 2))%Q) by lra.
  apply inject_Z_half_le in H.
  destruct (Z.eq_dec (round_half_even x) (round_half_even y + 1)) as [Heq|Hne]; [|lia].
  exfalso.
  assert (Hx : (x == y)%Q).
  { rewrite Heq, inject_Z_plus in Hx1. change (inject_Z 1) with 1%Q in Hx1. lra. }
  apply round_half_even_comp in Hx. lia.
Qed.

(** No integer is nearer to [x] than [round_half_even x]. *)
Lemma round_half_even_nearest (x : Q) (j : Z) :
  (Qabs (inject_Z (round_half_even x) - x) <= Qabs (inject_Z j - x))%Q.
Proof.
  pose proof (round_half_even_bounds x) as [H1 H2].
  destruct (Z.eq_dec j (round_half_even x)) as [->|Hne]; [lra|].
  assert (Hj : (inject_Z j <= inject_Z (round_half_even x) - 1
                \/ inject_Z (round_half_even x) + 1 <= inject_Z j)%Q).
  { destruct (Z_lt_le_dec j (round_half_even x)) as [Hlt|Hge].
    - left. assert (H : j <= round_half_even x + -1) by lia.
      rewrite Zle_Qle, inject_Z_plus in H. change (inject_Z (-1)) with (-1)%Q in H. lra.
    - right. assert (H : round_half_even x + 1 <= j) by lia.
      rewrite Zle_Qle, inject_Z_plus in H. change (inject_Z 1) with 1%Q in H. lra. }
  qabs (inject_Z (round_half_even x) - x)%Q; qabs (inject_Z j - x)%Q; destruct Hj; lra.
Qed.

(** ** Rounding to the nearest float *)

Lemma double_round_eq (x : Q) :
  (double_round x
   == inject_Z (round_half_even (x / pow2 (ulp_exp x))) * pow2 (ulp_exp x))%Q.
Proof. apply Qred_correct. Qed.

Lemma ulp_exp_ge (x : Q) : -1074 <= ulp_exp x.
Proof. apply Z.le_max_r. Qed.

Lemma Qabs_pos_lt (x : Q) : ~ (x == 0)%Q -> (0 < Qabs x)%Q.
Proof. intros Hx. qabs x; lra. Qed.

Lemma ulp_exp_spec (x : Q) : ~ (x == 0)%Q -> (Qabs x < pow2 (ulp_exp x + 53))%Q.
Proof.
  intros Hx. destruct (Qlog2_spec (Qabs x) (Qabs_pos_lt x Hx)) as [_ H].
  eapply Qlt_le_trans; [exact H|]. apply pow2_le. unfold ulp_exp. lia.
Qed.

Lemma ulp_exp_le (x : Q) (k : Z) :
  ~ (x == 0)%Q -> (Qabs x < pow2 k)%Q -> -1074 <= k - 53 -> ulp_exp x <= k - 53.
Proof.
  intros Hx Hk Hmin.
  pose proof (Qlog2_lt (Qabs x) k (Qabs_pos_lt x Hx) Hk). unfold ulp_exp. lia.
Qed.

Lemma ulp_exp_ge_of (x : Q) (k : Z) : (pow2 k <= Qabs x)%Q -> k - 52 <= ulp_exp x.
Proof. intros Hk. pose proof (Qlog2_ge (Qabs x) k Hk). unfold ulp_exp. lia. Qed.

Lemma ulp_exp_comp (x y : Q) : (x == y)%Q -> ~ (x == 0)%Q -> ulp_exp x = ulp_exp y.
Proof.
  intros Hxy Hx. unfold ulp_exp.
  rewrite (Qlog2_comp (Qabs x) (Qabs y)); [reflexivity| |apply Qabs_pos_lt; exact Hx].
  rewrite Hxy. reflexivity.
Qed.

Lemma double_round_zero (x : Q) : (x == 0)%Q -> (double_round x == 0)%Q.
Proof.
  intros Hx. rewrite double_round_eq.
  rewrite (round_half_even_comp (x / pow2 (ulp_exp x)) (inject_Z 0)).
  - rewrite round_half_even_inject. ring.
  - generalize (pow2 (ulp_exp x)). intros p. rewrite Hx.
    unfold Qdiv. change (inject_Z 0) with 0%Q. ring.
Qed.

Lemma double_round_comp (x y : Q) : (x == y)%Q -> double_round x = double_round y.
Proof.
  intros Hxy. apply Qred_complete.
  destruct (Qeq_dec x 0) as [Hx|Hx].
  - assert (Hy : (y == 0)%Q) by (rewrite <- Hxy; exact Hx).
    pose proof (double_round_zero x Hx) as H1.
    pose proof (double_round_zero y Hy) as H2.
    rewrite double_round_eq in H1, H2. rewrite H1, H2. reflexivity.
  - rewrite (ulp_exp_comp x y Hxy Hx).
    rewrite (round_half_even_comp (x / pow2 (ulp_exp y)) (y / pow2 (ulp_exp y)));
      [reflexivity|]. rewrite Hxy. reflexivity.
Qed.

(** The scaled value and its rounding. *)
Lemma scaled_eq (x : Q) (q : Z) : (x / pow2 q * pow2 q == x)%Q.
Proof. pose proof (pow2_pos q). field. lra. Qed.

Lemma Qabs_scale (x : Q) (q : Z) : (Qabs (x * pow2 q) == Qabs x * pow2 q)%Q.
Proof. rewrite Qabs_Qmult. rewrite (Qabs_pos (pow2 q)); [reflexivity|]. pose proof (pow2_pos q). lra. Qed.

(** The error of rounding a number below [2^k] in magnitude is at most
    [2^(k-54)], half a unit in the last place. *)
Lemma double_round_error (x : Q) (k : Z) :
  -1021 <= k -> (Qabs x < pow2 k)%Q -> (Qabs (double_round x - x) <= pow2 (k - 54))%Q.
Proof.
  intros Hk Hx. pose proof (pow2_pos (k - 54)) as Hp.
  destruct (Qeq_dec x 0) as [H0|H0].
  - rewrite (double_round_zero x H0), H0. change (Qabs (0 - 0)) with 0%Q. lra.
  - pose proof (ulp_exp_le x k H0 Hx ltac:(lia)) as Hq.
    set (q := ulp_exp x) in *.
    assert (Hd : (double_round x - x
                  == (inject_Z (round_half_even (x / pow2 q)) - x / pow2 q) * pow2 q)%Q).
    { rewrite double_round_eq. fold q. rewrite <- (scaled_eq x q) at 2. ring. }
    rewrite Hd, Qabs_scale.
    pose proof (round_half_even_bounds (x / pow2 q)) as [H1 H2].
    assert (Hh : (Qabs (inject_Z (round_half_even (x / pow2 q)) - x / pow2 q) <= 1 # 2)%Q).
    { qabs (inject_Z (round_half_even (x / pow2 q)) - x / pow2 q)%Q; lra. }
    assert (Hq2 : (pow2 q <= pow2 (k - 53))%Q) by (apply pow2_le; exact Hq).
    assert (Hq3 : (pow2 (k - 53) == 2 * pow2 (k - 54))%Q).
    { rewrite <- pow2_succ. replace (k - 54 + 1) with (k - 53) by lia. reflexivity. }
    pose proof (pow2_pos q) as Hpq.
    assert (Hm : (Qabs (inject_Z (round_half_even (x / pow2 q)) - x / pow2 q) * pow2 q
                  <= (1 # 2) * pow2 q)%Q) by (apply Qmult_le_compat_r; lra).
    lra.
Qed.

Lemma pow2_split (a b : Z) : b <= a -> (pow2 a == inject_Z (2 ^ (a - b)) * pow2 b)%Q.
Proof.
  intros H. rewrite <- pow2_inject by lia. rewrite <- pow2_add.
  replace (a - b + b) with a by lia. reflexivity.
Qed.

Lemma Qabs_inject_Z (m : Z) : Qabs (inject_Z m) = inject_Z (Z.abs m).
Proof. destruct m; reflexivity. Qed.

(** A number that is an integer multiple of the unit in its last place is
    rounded to itself. *)
Lemma double_round_multiple (x : Q) (z : Z) :
  (x == inject_Z z * pow2 (ulp_exp x))%Q -> is_float x.
Proof.
  intros Hz. unfold is_float. rewrite double_round_eq.
  rewrite (round_half_even_comp (x / pow2 (ulp_exp x)) (inject_Z z)).
  - rewrite round_half_even_inject. symmetry. exact Hz.
  - pose proof (pow2_pos (ulp_exp x)) as Hp. revert Hz Hp.
    generalize (pow2 (ulp_exp x)). intros p Hz Hp.
    rewrite Hz. field. lra.
Qed.

(** A significand of at most 53 bits with an exponent in range is a float. *)
Lemma double_round_exact (m q : Z) :
  -1074 <= q -> Z.abs m <= 2 ^ 53 -> is_float (inject_Z m * pow2 q).
Proof.
  intros Hq Hm.
  set (x := (inject_Z m * pow2 q)%Q).
  destruct (Z.eq_dec m 0) as [->|Hm0].
  - unfold is_float. rewrite double_round_zero; unfold x; ring.
  - assert (Hx0 : ~ (x == 0)%Q).
    { unfold x. intros H. pose proof (pow2_pos q) as Hp.
      apply Qmult_integral in H. destruct H as [H|H]; [|lra].
      apply (inject_Z_injective m 0) in H. contradiction. }
    assert (Habs : (Qabs x == inject_Z (Z.abs m) * pow2 q)%Q).
    { unfold x. rewrite Qabs_scale, Qabs_inject_Z. reflexivity. }
    assert (Hlo : (pow2 q <= Qabs x)%Q).
    { rewrite Habs. pose proof (pow2_pos q) as Hp.
      assert (H1 : (1 <= inject_Z (Z.abs m))%Q).
      { change 1%Q with (inject_Z 1). rewrite <- Zle_Qle. lia. }
      setoid_replace (pow2 q) with (1 * pow2 q)%Q at 1 by ring.
      apply Qmult_le_compat_r; lra. }
    destruct (Z.eq_dec (Z.abs m) (2 ^ 53)) as [Htop|Htop].
    + (* the significand is 2^53: a power of two, one exponent higher *)
      assert (Hx : (Qabs x == pow2 (q + 53))%Q).
      { rewrite Habs, Htop, <- pow2_inject by lia. rewrite <- pow2_add.
        replace (53 + q) with (q + 53) by lia. reflexivity. }
      assert (He : Qlog2 (Qabs x) = q + 53).
      { apply Qlog2_unique. rewrite Hx. split; [lra|]. apply pow2_lt. lia. }
      assert (Hu : ulp_exp x = q + 1) by (unfold ulp_exp; lia).
      apply (double_round_multiple x (m / 2)). rewrite Hu. unfold x.
      rewrite pow2_succ.
      assert (Hm2 : m = 2 * (m / 2)).
      { assert (H2 : Z.abs m mod 2 = 0) by (rewrite Htop; reflexivity).
        Z.div_mod_to_equations. lia. }
      rewrite Hm2 at 1. rewrite inject_Z_mult. change (inject_Z 2) with 2%Q. ring.
    + assert (Hhi : (Qabs x < pow2 (q + 53))%Q).
      { rewrite Habs. rewrite (Z.add_comm q 53), pow2_add, (pow2_inject 53) by lia.
        pose proof (pow2_pos q) as Hp.
        apply Qmult_lt_compat_r; [exact Hp|]. rewrite <- Zlt_Qlt. lia. }
      pose proof (ulp_exp_le x (q + 53) Hx0 Hhi ltac:(lia)) as Hu.
      apply (double_round_multiple x (m * 2 ^ (q - ulp_exp x))).
      unfold x at 1. rewrite (pow2_split q (ulp_exp x)) by lia.
      rewrite inject_Z_mult. ring.
Qed.

Lemma double_round_Z (m : Z) :
  Z.abs m <= 2 ^ 53 -> (double_round (inject_Z m) == inject_Z m)%Q.
Proof.
  intros Hm. pose proof (double_round_exact m 0 ltac:(lia) Hm) as H.
  unfold is_float in H. change (pow2 0) with 1%Q in H.
  rewrite <- (double_round_comp (inject_Z m) (inject_Z m * 1)) in H by ring.
  rewrite H. ring.
Qed.

(** The rounded value: a significand of at most 53 bits and the exponent of
    the unit in the last place. *)
Lemma double_round_repr (x : Q) :
  exists m, (double_round x == inject_Z m * pow2 (ulp_exp x))%Q /\ Z.abs m <= 2 ^ 53.
Proof.
  exists (round_half_even (x / pow2 (ulp_exp x))). split; [apply double_round_eq|].
  destruct (Qeq_dec x 0) as [H0|H0].
  - rewrite (round_half_even_comp _ (inject_Z 0)); [rewrite round_half_even_inject; lia|].
    generalize (pow2 (ulp_exp x)). intros p. rewrite H0. 
    unfold Qdiv. change (inject_Z 0) with 0%Q. ring.
  - pose proof (ulp_exp_spec x H0) as Hx. set (q := ulp_exp x) in *.
    pose proof (pow2_pos q) as Hp.
    assert (Hs : (Qabs (x / pow2 q) <= inject_Z (2 ^ 53))%Q).
    { rewrite <- pow2_inject by lia.
      assert (H1 : (Qabs x == Qabs (x / pow2 q) * pow2 q)%Q).
      { rewrite <- Qabs_scale. rewrite scaled_eq. reflexivity. }
      rewrite pow2_add in Hx. rewrite H1 in Hx.
      apply Qlt_le_weak. apply Qnot_le_lt. intros Hge.
      assert (H2 : (pow2 53 * pow2 q <= Qabs (x / pow2 q) * pow2 q)%Q)
        by (apply Qmult_le_compat_r; lra).
      lra. }
    assert (H1 : round_half_even (x / pow2 q) <= 2 ^ 53).
    { rewrite <- (round_half_even_inject (2 ^ 53)). apply round_half_even_le.
      qabs (x / pow2 q)%Q; lra. }
    assert (H2 : - 2 ^ 53 <= round_half_even (x / pow2 q)).
    { rewrite <- (round_half_even_inject (- 2 ^ 53)). apply round_half_even_le.
      rewrite inject_Z_opp. qabs (x / pow2 q)%Q; lra. }
    lia.
Qed.

Lemma double_round_is_float (x : Q) : is_float (double_round x).
Proof.
  destruct (double_round_repr x) as (m & Hm & Hb).
  pose proof (double_round_exact m (ulp_exp x) (ulp_exp_ge x) Hb) as H.
  unfold is_float in *.
  rewrite (double_round_comp _ _ Hm). rewrite H. symmetry. exact Hm.
Qed.

(** A float of magnitude [2^k] or more is a multiple of [2^(k-52)]. *)
Lemma is_float_multiple (x : Q) (k : Z) :
  is_float x -> (pow2 k <= Qabs x)%Q -> exists j, (x == inject_Z j * pow2 (k - 52))%Q.
Proof.
  intros Hf Hk. destruct (double_round_repr x) as (m & Hm & _).
  pose proof (ulp_exp_ge_of x k Hk) as Hq.
  exists (m * 2 ^ (ulp_exp x - (k - 52))).
  unfold is_float in Hf. transitivity (double_round x); [symmetry; exact Hf|]. rewrite Hm.
  rewrite (pow2_split (ulp_exp x) (k - 52)) by lia.
  rewrite inject_Z_mult. ring.
Qed.

(** Every float is a multiple of [2^-1074]. *)
Lemma is_float_multiple_min (x : Q) :
  is_float x -> exists j, (x == inject_Z j * pow2 (-1074))%Q.
Proof.
  intros Hf. destruct (double_round_repr x) as (m & Hm & _).
  pose proof (ulp_exp_ge x) as Hq.
  exists (m * 2 ^ (ulp_exp x - -1074)).
  unfold is_float in Hf. transitivity (double_round x); [symmetry; exact Hf|]. rewrite Hm.
  rewrite (pow2_split (ulp_exp x) (-1074)) by lia.
  rewrite inject_Z_mult. ring.
Qed.

(** No float is nearer to [x] than [double_round x]. *)
Lemma double_round_nearest (x y : Q) :
  is_float y -> (Qabs (double_round x - x) <= Qabs (y - x))%Q.
Proof.
  intros Hy.
  destruct (Qeq_dec x 0) as [H0|H0].
  { rewrite (double_round_zero x H0), H0. change (Qabs (0 - 0)) with 0%Q. apply Qabs_nonneg. }
  set (q := ulp_exp x).
  pose proof (pow2_pos q) as Hp.
  assert (Hmult : forall j, (Qabs (double_round x - x)
                             <= Qabs (inject_Z j * pow2 q - x))%Q).
  { intros j.
    assert (H1 : (double_round x - x
                  == (inject_Z (round_half_even (x / pow2 q)) - x / pow2 q) * pow2 q)%Q).
    { rewrite double_round_eq. fold q. rewrite <- (scaled_eq x q) at 2. ring. }
    assert (H2 : (inject_Z j * pow2 q - x == (inject_Z j - x / pow2 q) * pow2 q)%Q).
    { rewrite <- (scaled_eq x q) at 1. ring. }
    rewrite H1, H2, !Qabs_scale.
    apply Qmult_le_compat_r; [apply round_half_even_nearest|lra]. }
  destruct (Z_le_dec (Qlog2 (Qabs x) - 52) (-1074)) as [Hsub|Hnorm].
  - (* the unit is 2^-1074, of which every float is a multiple *)
    assert (Hq : q = -1074) by (unfold q, ulp_exp; lia).
    destruct (is_float_multiple_min y Hy) as (j & Hj).
    rewrite Hj, <- Hq. apply Hmult.
  - assert (Hq : q = Qlog2 (Qabs x) - 52) by (unfold q, ulp_exp; lia).
    set (e := Qlog2 (Qabs x)) in *.
    destruct (Qlt_le_dec (Qabs y) (pow2 e)) as [Hsmall|Hbig].
    + (* [y] lies below the binade of [x]: the power of two is between *)
      destruct (Qlog2_spec (Qabs x) (Qabs_pos_lt x H0)) as [He _]. fold e in He.
      assert (Hpe : (pow2 e == inject_Z (2 ^ 52) * pow2 q)%Q).
      { rewrite (pow2_split e q) by lia. replace (e - q) with 52 by lia. reflexivity. }
      pose proof (Hmult (2 ^ 52)) as Hpos. pose proof (Hmult (- 2 ^ 52)) as Hneg.
      rewrite inject_Z_opp in Hneg.
      setoid_replace (- inject_Z (2 ^ 52) * pow2 q)%Q with (- pow2 e)%Q in Hneg
        by (rewrite Hpe; ring).
      rewrite <- Hpe in Hpos.
      qabs x; qabs y; qabs (y - x)%Q;
        [qabs (pow2 e - x)%Q | qabs (pow2 e - x)%Q
         | qabs (pow2 e - x)%Q | qabs (pow2 e - x)%Q
         | qabs (- pow2 e - x)%Q | qabs (- pow2 e - x)%Q
         | qabs (- pow2 e - x)%Q | qabs (- pow2 e - x)%Q ]; lra.
    + destruct (is_float_multiple y e Hy Hbig) as (j & Hj).
      rewrite Hj, <- Hq. apply Hmult.
Qed.

(** Rounding to the nearest float is monotone. *)
Lemma double_round_le (x y : Q) : (x <= y)%Q -> (double_round x <= double_round y)%Q.
Proof.
  intros Hxy. apply Qnot_lt_le. intros Hlt.
  pose proof (double_round_nearest x (double_round y) (double_round_is_float y)) as H1.
  pose proof (double_round_nearest y (double_round x) (double_round_is_float x)) as H2.
  assert (Heq : (x == y)%Q).
  { qabs (double_round x - x)%Q; qabs (double_round y - x)%Q;
      qabs (double_round y - y)%Q; qabs (double_round x - y)%Q; lra. }
  rewrite (double_round_comp x y Heq) in Hlt. lra.
Qed.

Lemma double_round_nonneg (x : Q) : (0 <= x)%Q -> (0 <= double_round x)%Q.
Proof. intros H. apply double_round_le in H. rewrite (double_round_zero 0) in H; [exact H|reflexivity]. Qed.

Lemma double_round_nonpos (x : Q) : (x <= 0)%Q -> (double_round x <= 0)%Q.
Proof. intros H. apply double_round_le in H. rewrite (double_round_zero 0) in H; [exact H|reflexivity]. Qed.

(** ** Arithmetic of the formatters *)

Lemma py_int_inject (z : Z) : py_int (inject_Z z) = z.
Proof. unfold py_int, inject_Z. cbn [Qnum Qden]. apply Z.quot_1_r. Qed.

Lemma py_int_nonneg (x : Q) : (0 <= x)%Q -> py_int x = Qfloor x.
Proof.
  destruct x as [n d]. intros Hx. unfold py_int, Qfloor. cbn [Qnum Qden].
  apply Z.quot_div_nonneg; [|reflexivity].
  unfold Qle in Hx. cbn [Qnum Qden] in Hx. lia.
Qed.

Lemma py_int_nonpos (x : Q) : (x <= 0)%Q -> py_int x = - Qfloor (- x).
Proof.
  destruct x as [n d]. intros Hx. unfold py_int, Qfloor, Qopp. cbn [Qnum Qden].
  assert (Hn : n <= 0) by (unfold Qle in Hx; cbn [Qnum Qden] in Hx; lia).
  rewrite <- (Z.opp_involutive n) at 1. rewrite Z.quot_opp_l by discriminate.
  f_equal. apply Z.quot_div_nonneg; lia.
Qed.

Lemma py_int_comp (x y : Q) : (x == y)%Q -> py_int x = py_int y.
Proof.
  intros Hxy. destruct (Qlt_le_dec x 0) as [Hneg|Hpos].
  - rewrite !py_int_nonpos by lra. f_equal. apply Qfloor_comp. rewrite Hxy. reflexivity.
  - rewrite !py_int_nonneg by lra. apply Qfloor_comp. exact Hxy.
Qed.

Lemma Qfloor_unique (x : Q) (k : Z) :
  (inject_Z k <= x < inject_Z k + 1)%Q -> Qfloor x = k.
Proof.
  intros [H1 H2].
  pose proof (Qfloor_le x) as H3. pose proof (Qlt_floor x) as H4.
  rewrite inject_Z_plus in H4. change (inject_Z 1) with 1%Q in H4.
  assert (Ha : (inject_Z k < inject_Z (Qfloor x) + 1)%Q) by lra.
  assert (Hb : (inject_Z (Qfloor x) < inject_Z k + 1)%Q) by lra.
  change 1%Q with (inject_Z 1) in Ha, Hb. rewrite <- inject_Z_plus in Ha, Hb.
  rewrite <- Zlt_Qlt in Ha, Hb. lia.
Qed.

Lemma Qfloor_bounds (x : Q) : (inject_Z (Qfloor x) <= x < inject_Z (Qfloor x) + 1)%Q.
Proof.
  pose proof (Qfloor_le x) as H3. pose proof (Qlt_floor x) as H4.
  rewrite inject_Z_plus in H4. change (inject_Z 1) with 1%Q in H4. split; assumption.
Qed.

Lemma Qfloor_sub_Z (x : Q) (z : Z) : Qfloor (x - inject_Z z) = Qfloor x - z.
Proof.
  apply Qfloor_unique. pose proof (Qfloor_bounds x) as [H1 H2].
  unfold Z.sub. rewrite inject_Z_plus, inject_Z_opp. lra.
Qed.

(** The floor of a quotient by a whole number. *)
Lemma Qfloor_div (t : Q) (c : positive) :
  Qfloor (t / inject_Z (Zpos c)) = Qfloor t / Zpos c.
Proof.
  destruct t as [n d]. unfold Qdiv, Qinv, Qmult, Qfloor, inject_Z. cbn [Qnum Qden].
  rewrite Z.mul_1_r, Pos2Z.inj_mul. symmetry. apply Z.div_div; lia.
Qed.

Lemma inject_Z_div_mod (n : Z) (c : positive) :
  (inject_Z n == inject_Z (Zpos c) * inject_Z (n / Zpos c) + inject_Z (n mod Zpos c))%Q.
Proof.
  rewrite <- inject_Z_mult, <- inject_Z_plus. rewrite <- Z.div_mod by discriminate.
  reflexivity.
Qed.

Lemma fmod_eq (x y : Q) : (fmod x y == x - y * inject_Z (py_int (x / y)))%Q.
Proof. apply Qred_correct. Qed.

Lemma Qltb_false (x y : Q) : (y <= x)%Q -> Qltb x y = false.
Proof. intros H. unfold Qltb. apply Qle_bool_iff in H. rewrite H. reflexivity. Qed.

Lemma Qltb_true (x y : Q) : (x < y)%Q -> Qltb x y = true.
Proof.
  intros H. unfold Qltb. destruct (Qle_bool y x) eqn:E; [|reflexivity].
  apply Qle_bool_iff in E. lra.
Qed.

(** [t % c] for a float [t] that is not negative and a whole positive [c]:
    the exact remainder. *)
Lemma float_mod_nonneg (t : Q) (c : positive) :
  (0 <= t)%Q ->
  (float_mod t (inject_Z (Zpos c))
   == t - inject_Z (Zpos c) * inject_Z (Qfloor t / Zpos c))%Q.
Proof.
  intros Ht. set (C := inject_Z (Zpos c)).
  assert (HC : (0 < C)%Q) by (unfold C; change 0%Q with (inject_Z 0); rewrite <- Zlt_Qlt; lia).
  assert (Hy : (0 <= t / C)%Q).
  { apply Qle_shift_div_l; [exact HC|]. lra. }
  assert (Hrem : (fmod t C == t - C * inject_Z (Qfloor t / Zpos c))%Q).
  { rewrite fmod_eq, (py_int_nonneg _ Hy). unfold C. rewrite Qfloor_div. reflexivity. }
  pose proof (Qfloor_bounds (t / C)) as [Hf1 Hf2].
  unfold C in Hf1, Hf2. rewrite Qfloor_div in Hf1, Hf2. fold C in Hf1, Hf2.
  assert (Hpos : (0 <= fmod t C)%Q).
  { rewrite Hrem.
    assert (H : (C * inject_Z (Qfloor t / Zpos c) <= C * (t / C))%Q)
      by (apply Qmult_le_l; assumption).
    assert (H' : (C * (t / C) == t)%Q) by (field; lra).
    lra. }
  unfold float_mod. fold C.
  destruct (Qeq_bool (fmod t C) 0) eqn:E.
  - apply Qeq_bool_iff in E. rewrite <- Hrem. symmetry. exact E.
  - rewrite (Qltb_false C 0) by lra. rewrite (Qltb_false (fmod t C) 0) by exact Hpos.
    cbn [xorb]. exact Hrem.
Qed.

Lemma float_mod_bounds (t : Q) (c : positive) :
  (0 <= t)%Q ->
  (0 <= float_mod t (inject_Z (Zpos c)) < inject_Z (Zpos c))%Q.
Proof.
  intros Ht. rewrite (float_mod_nonneg t c Ht).
  pose proof (Qfloor_bounds t) as [H1 H2].
  pose proof (inject_Z_div_mod (Qfloor t) c) as Hdm.
  pose proof (Z.mod_pos_bound (Qfloor t) (Zpos c) eq_refl) as [Hm1 Hm2].
  rewrite Zle_Qle in Hm1. 
  assert (Hm3 : (inject_Z (Qfloor t mod Zpos c) + 1 <= inject_Z (Zpos c))%Q).
  { change 1%Q with (inject_Z 1). rewrite <- inject_Z_plus, <- Zle_Qle. lia. }
  change (inject_Z 0) with 0%Q in Hm1. split; lra.
Qed.

(** [t // c] for a float [t] and a whole positive [c]: the floor of the
    quotient, as long as the numbers involved have at most 53 bits. *)
Lemma float_floordiv_spec (t : Q) (c : positive) :
  Zpos c * Z.abs (py_int (t / inject_Z (Zpos c))) <= 2 ^ 53 ->
  Z.abs (Qfloor (t / inject_Z (Zpos c))) <= 2 ^ 53 ->
  (float_floordiv t (inject_Z (Zpos c)) == inject_Z (Qfloor (t / inject_Z (Zpos c))))%Q.
Proof.
  set (C := inject_Z (Zpos c)). set (K := Qfloor (t / C)). intros Hsize HK.
  assert (HC : (0 < C)%Q) by (unfold C; change 0%Q with (inject_Z 0); rewrite <- Zlt_Qlt; lia).
  pose proof (Qfloor_bounds (t / C)) as [Hf1 Hf2]. fold K in Hf1, Hf2.
  assert (HtC : (C * (t / C) == t)%Q) by (field; lra).
  (* the truncated quotient and the sign of the remainder *)
  assert (Hcases :
    (py_int (t / C) = K /\ (0 <= fmod t C)%Q)
    \/ (py_int (t / C) = K + 1 /\ (fmod t C < 0)%Q)).
  { destruct (Qlt_le_dec (t / C) 0) as [Hneg|Hpos].
    - destruct (Qeq_dec (t / C) (inject_Z K)) as [Hint|Hfrac].
      + left. rewrite fmod_eq, (py_int_comp _ _ Hint), py_int_inject.
        split; [reflexivity|]. rewrite <- HtC at 1. rewrite Hint. lra.
      + right.
        assert (HT : py_int (t / C) = K + 1).
        { rewrite py_int_nonpos by lra.
          rewrite (Qfloor_unique (- (t / C)) (- K - 1)); [lia|].
          unfold Z.sub. rewrite inject_Z_plus, !inject_Z_opp.
          change (inject_Z 1) with 1%Q. split; [lra|].
          destruct (Qlt_le_dec (inject_Z K) (t / C)) as [H|H]; [lra|].
          exfalso. apply Hfrac. lra. }
        split; [exact HT|]. rewrite fmod_eq, HT, inject_Z_plus.
        change (inject_Z 1) with 1%Q.
        assert (H : (C * (t / C) < C * (inject_Z K + 1))%Q) by (apply Qmult_lt_l; assumption).
        lra.
    - left. rewrite fmod_eq, (py_int_nonneg _ Hpos). fold K. split; [reflexivity|].
      assert (H : (C * inject_Z K <= C * (t / C))%Q) by (apply Qmult_le_l; assumption).
      lra. }
  (* the first quotient is the truncated one, exactly *)
  assert (Hdiv0 : (float_div (float_sub t (fmod t C)) C == inject_Z (py_int (t / C)))%Q).
  { set (T := py_int (t / C)) in *.
    assert (HT : Z.abs (Zpos c * T) <= 2 ^ 53 /\ Z.abs T <= 2 ^ 53) by nia.
    unfold float_div, float_sub.
    rewrite (double_round_comp (t - fmod t C) (inject_Z (Zpos c * T))).
    - rewrite (double_round_comp (double_round (inject_Z (Zpos c * T)) / C) (inject_Z T)).
      + apply double_round_Z. apply HT.
      + rewrite (double_round_Z _ (proj1 HT)), inject_Z_mult. fold C. field. lra.
    - rewrite fmod_eq. fold T. rewrite inject_Z_mult. fold C. ring. }
  (* lowered by one when the remainder is negative *)
  assert (Hdiv :
    ((if Qeq_bool (fmod t C) 0 then float_div (float_sub t (fmod t C)) C
      else if xorb (Qltb C 0) (Qltb (fmod t C) 0)
           then float_sub (float_div (float_sub t (fmod t C)) C) 1
           else float_div (float_sub t (fmod t C)) C) == inject_Z K)%Q).
  { rewrite (Qltb_false C 0) by lra.
    destruct Hcases as [[HT Hrem]|[HT Hrem]]; rewrite HT in Hdiv0.
    - rewrite (Qltb_false (fmod t C) 0) by exact Hrem. cbn [xorb].
      destruct (Qeq_bool (fmod t C) 0); exact Hdiv0.
    - rewrite (Qltb_true (fmod t C) 0) by exact Hrem. cbn [xorb].
      destruct (Qeq_bool (fmod t C) 0) eqn:E; [apply Qeq_bool_iff in E; lra|].
      unfold float_sub at 1.
      rewrite (double_round_comp _ (inject_Z K)).
      + apply double_round_Z. lia.
      + rewrite Hdiv0, inject_Z_plus. change (inject_Z 1) with 1%Q. ring. }
  unfold float_floordiv. fold C.
  revert Hdiv.
  generalize (if Qeq_bool (fmod t C) 0 then float_div (float_sub t (fmod t C)) C
              else if xorb (Qltb C 0) (Qltb (fmod t C) 0)
                   then float_sub (float_div (float_sub t (fmod t C)) C) 1
                   else float_div (float_sub t (fmod t C)) C).
  intros div Hdiv.
  destruct (Qeq_bool div 0) eqn:E.
  - apply Qeq_bool_iff in E. rewrite <- Hdiv, E. reflexivity.
  - assert (Hfl : Qfloor div = K).
    { rewrite (Qfloor_comp div (inject_Z K) Hdiv). apply Qfloor_Z. }
    rewrite Hfl.
    assert (Hz : (float_sub div (inject_Z K) == 0)%Q).
    { unfold float_sub. apply double_round_zero. rewrite Hdiv. ring. }
    rewrite (Qltb_false (1 # 2) (float_sub div (inject_Z K))) by (rewrite Hz; discriminate).
    reflexivity.
Qed.

Lemma float_floordiv_nonneg (t : Q) (c : positive) :
  (0 <= t)%Q -> Zpos c * (Qfloor t / Zpos c) <= 2 ^ 53 ->
  (float_floordiv t (inject_Z (Zpos c)) == inject_Z (Qfloor t / Zpos c))%Q.
Proof.
  intros Ht Hsize.
  assert (HT : 0 <= Qfloor t) by (change 0 with (Qfloor 0); apply Qfloor_resp_le; exact Ht).
  assert (Hq : 0 <= Qfloor t / Zpos c) by (apply Z.div_pos; lia).
  assert (Hy : (0 <= t / inject_Z (Zpos c))%Q).
  { apply Qle_shift_div_l; [|lra]. change 0%Q with (inject_Z 0). rewrite <- Zlt_Qlt. lia. }
  rewrite <- Qfloor_div. apply float_floordiv_spec.
  - rewrite (py_int_nonneg _ Hy), Qfloor_div. lia.
  - rewrite Qfloor_div. nia.
Qed.

(** ** [timedelta] *)

(** The total number of seconds of a normalised [timedelta]. *)
Lemma total_seconds_normalised (us : Z) :
  total_seconds {| td_days := us / 86400000000;
                   td_seconds := (us mod 86400000000) / 1000000;
                   td_microseconds := us mod 1000000 |} = double_round (us # 1000000).
Proof.
  unfold total_seconds. cbn [td_days td_seconds td_microseconds]. do 2 f_equal.
  pose proof (Z.div_mod us 86400000000 ltac:(lia)) as H1.
  pose proof (Z.div_mod (us mod 86400000000) 1000000 ltac:(lia)) as H2.
  assert (H3 : (us mod 86400000000) mod 1000000 = us mod 1000000).
  { apply Z.mod_mod_divide. exists 86400. reflexivity. }
  lia.
Qed.

Lemma in_timedelta_range_days (s : Q) :
  in_timedelta_range s <->
  Z.abs (microseconds_of (py_float s) / 86400000000) <= MAX_DELTA_DAYS.
Proof.
  unfold in_timedelta_range, MAX_DELTA_DAYS.
  set (us := microseconds_of (py_float s)).
  pose proof (Z.div_mod us 86400000000 ltac:(lia)) as Hdm.
  pose proof (Z.mod_pos_bound us 86400000000 ltac:(lia)) as Hb.
  lia.
Qed.

(** Within its range, [timedelta] holds the microseconds, normalised. *)
Lemma timedelta_of_seconds_in_range (s : Q) :
  in_timedelta_range s ->
  timedelta_of_seconds (py_float s)
  = Return {| td_days := microseconds_of (py_float s) / 86400000000;
              td_seconds := (microseconds_of (py_float s) mod 86400000000) / 1000000;
              td_microseconds := microseconds_of (py_float s) mod 1000000 |}.
Proof.
  intros Hrange. apply in_timedelta_range_days in Hrange.
  unfold timedelta_of_seconds. set (us := microseconds_of (py_float s)) in *.
  unfold MAX_DELTA_DAYS, INT_MIN, INT_MAX in *.
  destruct (Z.ltb_spec (us / 86400000000) (-2147483648)) as [H|_]; [lia|].
  destruct (Z.ltb_spec 2147483647 (us / 86400000000)) as [H|_]; [lia|].
  destruct (Z.ltb_spec 999999999 (Z.abs (us / 86400000000))) as [H|_]; [lia|].
  reflexivity.
Qed.

(** Outside its range, [timedelta] raises [OverflowError]: for a number of
    days that fits a C [int] the message names it. *)
Lemma timedelta_of_seconds_out_of_range (s : Q) :
  ~ in_timedelta_range s ->
  timedelta_of_seconds (py_float s)
  = Raise (if (microseconds_of (py_float s) / 86400000000 <? INT_MIN)
              || (INT_MAX <? microseconds_of (py_float s) / 86400000000)
           then utf8 "Python int too large to convert to C int"
           else utf8 "days=" ++ str_of_Z (microseconds_of (py_float s) / 86400000000)
                ++ utf8 "; must have magnitude <= 999999999").
Proof.
  intros Hrange. rewrite in_timedelta_range_days in Hrange.
  unfold timedelta_of_seconds. set (us := microseconds_of (py_float s)) in *.
  destruct ((us / 86400000000 <? INT_MIN) || (INT_MAX <? us / 86400000000)); [reflexivity|].
  destruct (Z.ltb_spec MAX_DELTA_DAYS (Z.abs (us / 86400000000))) as [_|H]; [reflexivity|lia].
Qed.

(** The whole and the fractional part of a float. *)
Lemma py_int_bounds (x : Q) :
  ((0 <= x)%Q /\ py_int x = Qfloor x /\ (0 <= x - inject_Z (py_int x) < 1)%Q)
  \/ ((x < 0)%Q /\ (-1 < x - inject_Z (py_int x) <= 0)%Q).
Proof.
  destruct (Qlt_le_dec x 0) as [Hneg|Hpos].
  - right. split; [exact Hneg|]. rewrite py_int_nonpos by lra.
    pose proof (Qfloor_bounds (- x)) as [H1 H2]. rewrite inject_Z_opp. lra.
  - left. split; [exact Hpos|]. split; [apply py_int_nonneg; exact Hpos|].
    rewrite py_int_nonneg by exact Hpos.
    pose proof (Qfloor_bounds x) as [H1 H2]. lra.
Qed.

(** The microseconds of a float differ from the exact product by at most
    half a microsecond and the rounding error of the product. *)
Lemma microseconds_of_close (x : Q) :
  (Qabs (inject_Z (microseconds_of x) - 1000000 * x) <= (1 # 2) + pow2 (-34))%Q.
Proof.
  unfold microseconds_of, float_mul.
  set (f := (x - inject_Z (py_int x))%Q).
  assert (Hf : (-1 < f < 1)%Q).
  { unfold f. destruct (py_int_bounds x) as [(_ & _ & H)|(_ & H)]; lra. }
  assert (Hsmall : (Qabs (1000000 * f) < pow2 20)%Q).
  { change (pow2 20) with 1048576%Q. qabs (1000000 * f)%Q; lra. }
  pose proof (double_round_error (1000000 * f) 20 ltac:(lia) Hsmall) as Herr.
  change (pow2 (20 - 54)) with (pow2 (-34)) in Herr.
  pose proof (round_half_even_bounds (double_round (1000000 * f))) as [Hr1 Hr2].
  rewrite inject_Z_plus, inject_Z_mult. change (inject_Z 1000000) with 1000000%Q.
  assert (Hx : (x == inject_Z (py_int x) + f)%Q) by (unfold f; ring).
  rewrite Hx at 2.
  qabs (double_round (1000000 * f) - 1000000 * f)%Q;
    qabs (inject_Z (py_int x) * 1000000
          + inject_Z (round_half_even (double_round (1000000 * f)))
          - 1000000 * (inject_Z (py_int x) + f))%Q; lra.
Qed.

(** For a float that is not negative: whole seconds, and a fraction of at
    most a million microseconds. *)
Lemma microseconds_of_nonneg (x : Q) :
  (0 <= x)%Q ->
  microseconds_of x
  = Qfloor x * 1000000
    + round_half_even (double_round (1000000 * (x - inject_Z (Qfloor x)))) /\
  0 <= round_half_even (double_round (1000000 * (x - inject_Z (Qfloor x)))) <= 1000000.
Proof.
  intros Hx. unfold microseconds_of, float_mul. rewrite (py_int_nonneg x Hx).
  split; [reflexivity|].
  pose proof (Qfloor_bounds x) as [H1 H2].
  split.
  - apply (Z.le_trans _ (round_half_even (inject_Z 0)));
      [rewrite round_half_even_inject; lia|].
    apply round_half_even_le, double_round_nonneg. lra.
  - apply (Z.le_trans _ (round_half_even (inject_Z 1000000)));
      [|rewrite round_half_even_inject; lia].
    apply round_half_even_le.
    apply (Qle_trans _ (double_round (inject_Z 1000000))).
    + apply double_round_le. change (inject_Z 1000000) with 1000000%Q. lra.
    + rewrite double_round_Z by (vm_compute; discriminate). apply Qle_refl.
Qed.

(** The microseconds grow with the float. *)
Lemma microseconds_of_le (x y : Q) :
  (0 <= x)%Q -> (x <= y)%Q -> microseconds_of x <= microseconds_of y.
Proof.
  intros Hx Hxy.
  destruct (microseconds_of_nonneg x Hx) as [-> [Hx1 Hx2]].
  destruct (microseconds_of_nonneg y ltac:(lra)) as [-> [Hy1 Hy2]].
  assert (Hfl : Qfloor x <= Qfloor y) by (apply Qfloor_resp_le; exact Hxy).
  destruct (Z.eq_dec (Qfloor x) (Qfloor y)) as [Heq|Hne]; [|lia].
  rewrite Heq. apply Z.add_le_mono_l. apply round_half_even_le, double_round_le. lra.
Qed.

(** ** [format_time_srt] *)

Lemma inject_Z_range (a z b : Z) :
  a <= z <= b -> (inject_Z a <= inject_Z z <= inject_Z b)%Q.
Proof. intros [H1 H2]. split; rewrite <- Zle_Qle; assumption. Qed.

(** The four fields the formatter computes from a total of [t] seconds:
    float arithmetic gives the whole seconds exactly; only the product for
    the milliseconds is rounded. *)
Lemma srt_fields_of_total (t : Q) :
  (0 <= t <= 86400000000000)%Q ->
  py_int (float_floordiv t 3600) = Qfloor t / 3600 /\
  py_int (float_floordiv (float_mod t 3600) 60) = (Qfloor t mod 3600) / 60 /\
  py_int (float_mod t 60) = Qfloor t mod 60 /\
  py_int (float_mul (float_mod t 1) 1000) = millisecond_field t.
Proof.
  intros [Ht0 Ht1].
  assert (HT : 0 <= Qfloor t <= 86400000000000).
  { split.
    - change 0 with (Qfloor 0). apply Qfloor_resp_le. exact Ht0.
    - rewrite <- (Qfloor_Z 86400000000000). apply Qfloor_resp_le. exact Ht1. }
  change 3600%Q with (inject_Z (Zpos 3600)). change 60%Q with (inject_Z (Zpos 60)).
  change 1%Q with (inject_Z (Zpos 1)).
  pose proof (float_mod_nonneg t 3600 Ht0) as Hm3600.
  pose proof (float_mod_bounds t 3600 Ht0) as [Hb1 Hb2].
  assert (Hfm : Qfloor (float_mod t (inject_Z (Zpos 3600))) = Qfloor t mod 3600).
  { rewrite (Qfloor_comp _ _ Hm3600), <- inject_Z_mult, Qfloor_sub_Z.
    rewrite Z.mod_eq by discriminate. reflexivity. }
  repeat split.
  - rewrite (py_int_comp _ _ (float_floordiv_nonneg t 3600 Ht0 ltac:(
      Z.div_mod_to_equations; lia))).
    apply py_int_inject.
  - rewrite (py_int_comp _ _ (float_floordiv_nonneg _ 60 Hb1 ltac:(
      rewrite Hfm; Z.div_mod_to_equations; lia))).
    rewrite py_int_inject, Hfm. reflexivity.
  - pose proof (float_mod_bounds t 60 Ht0) as [Hc1 _].
    rewrite py_int_nonneg by exact Hc1.
    rewrite (Qfloor_comp _ _ (float_mod_nonneg t 60 Ht0)), <- inject_Z_mult, Qfloor_sub_Z.
    rewrite Z.mod_eq by discriminate. reflexivity.
  - unfold millisecond_field, float_mul. f_equal. apply double_round_comp.
    rewrite (float_mod_nonneg t 1 Ht0), Z.div_1_r. change (inject_Z (Zpos 1)) with 1%Q. ring.
Qed.

(** Within the range of [timedelta] and from 0 on, the formatter returns
    the fields of the total number of seconds. *)
Lemma format_time_srt_fields (s : Q) :
  in_timedelta_range s -> 0 <= microseconds_of (py_float s) ->
  format_time_srt s =
    Return (format_0d 2 (Qfloor (total_seconds_of s) / 3600) ++ utf8 ":"
            ++ format_0d 2 ((Qfloor (total_seconds_of s) mod 3600) / 60) ++ utf8 ":"
            ++ format_0d 2 (Qfloor (total_seconds_of s) mod 60) ++ utf8 ","
            ++ format_0d 3 (millisecond_field (total_seconds_of s))).
Proof.
  intros Hrange Hus. unfold format_time_srt, total_seconds_of.
  rewrite (timedelta_of_seconds_in_range s Hrange), total_seconds_normalised.
  set (us := microseconds_of (py_float s)) in *.
  assert (Ht : (0 <= double_round (us # 1000000) <= 86400000000000)%Q).
  { unfold in_timedelta_range, MAX_DELTA_DAYS in Hrange. fold us in Hrange. split.
    - apply double_round_nonneg. unfold Qle. cbn [Qnum Qden]. lia.
    - apply (Qle_trans _ (double_round (inject_Z 86400000000000))).
      + apply double_round_le. unfold Qle, inject_Z. cbn [Qnum Qden]. lia.
      + rewrite double_round_Z by (vm_compute; discriminate). apply Qle_refl. }
  set (t := double_round (us # 1000000)) in *.
  destruct (srt_fields_of_total _ Ht) as (-> & -> & -> & ->). reflexivity.
Qed.

Lemma microseconds_as_seconds (us : Z) :
  (us # 1000000
   == inject_Z (us / 1000000) + inject_Z (us mod 1000000) * (1 # 1000000))%Q.
Proof.
  rewrite (Qmake_Qdiv us 1000000).
  rewrite (inject_Z_div_mod us 1000000) at 1.
  change (inject_Z (Zpos 1000000)) with 1000000%Q. field.
Qed.

(** What the fields show of a number of microseconds, up to [2^33] seconds:
    the rounding errors of the division by [10^6] and of the product by 1000
    are far smaller than a microsecond, so they matter only when the
    microseconds are a whole number of milliseconds, where the field may
    fall one short. *)
Lemma shown_small (us : Z) :
  0 <= us <= 8589934592000000 ->
  0 <= millisecond_field (double_round (us # 1000000)) <= 999 /\
  milliseconds_shown (double_round (us # 1000000)) * 1000 <= us
  <= milliseconds_shown (double_round (us # 1000000)) * 1000 + 1000.
Proof.
  intros Hus. set (t := double_round (us # 1000000)).
  pose proof (microseconds_as_seconds us) as Hy.
  set (U := us / 1000000) in *. set (v := us mod 1000000) in *.
  assert (Hdm : us = 1000000 * U + v) by (apply Z.div_mod; lia).
  assert (Hv : 0 <= v < 1000000) by (apply Z.mod_pos_bound; lia).
  assert (HU : 0 <= U <= 8589934592) by lia.
  destruct (Z.eq_dec v 0) as [Hv0|Hv0].
  - (* whole seconds *)
    assert (Ht : (t == inject_Z U)%Q).
    { unfold t. rewrite (double_round_comp _ (inject_Z U)).
      - apply double_round_Z. lia.
      - rewrite Hy, Hv0. change (inject_Z 0) with 0%Q. field. }
    assert (HT : Qfloor t = U) by (rewrite (Qfloor_comp _ _ Ht); apply Qfloor_Z).
    assert (Hms : millisecond_field t = 0).
    { unfold millisecond_field, float_mul. rewrite HT.
      rewrite (py_int_comp _ 0); [reflexivity|].
      apply double_round_zero. rewrite Ht. ring. }
    unfold milliseconds_shown. rewrite HT, Hms. lia.
  - pose proof (inject_Z_range 0 U 8589934591 ltac:(lia)) as HUq.
    pose proof (inject_Z_range 1 v 999999 ltac:(lia)) as Hvq.
    change (inject_Z 0) with 0%Q in HUq. change (inject_Z 8589934591) with 8589934591%Q in HUq.
    change (inject_Z 1) with 1%Q in Hvq. change (inject_Z 999999) with 999999%Q in Hvq.
    assert (Habs : (Qabs (us # 1000000) < pow2 33)%Q).
    { change (pow2 33) with 8589934592%Q. rewrite Hy.
      qabs (inject_Z U + inject_Z v * (1 # 1000000))%Q; lra. }
    pose proof (double_round_error _ 33 ltac:(lia) Habs) as Herr. fold t in Herr.
    change (pow2 (33 - 54)) with (1 # 2097152)%Q in Herr. rewrite Hy in Herr.
    assert (Ht : (inject_Z U < t < inject_Z U + 1)%Q).
    { qabs (t - (inject_Z U + inject_Z v * (1 # 1000000)))%Q; lra. }
    assert (HT : Qfloor t = U) by (apply Qfloor_unique; lra).
    set (z := ((t - inject_Z U) * 1000)%Q).
    assert (Hz : (Qabs z < pow2 10)%Q).
    { change (pow2 10) with 1024%Q. unfold z. qabs ((t - inject_Z U) * 1000)%Q; lra. }
    pose proof (double_round_error z 10 ltac:(lia) Hz) as Hw.
    change (pow2 (10 - 54)) with (1 # 17592186044416)%Q in Hw.
    assert (Hms : millisecond_field t = py_int (double_round z)).
    { unfold millisecond_field, float_mul. rewrite HT. reflexivity. }
    set (w := double_round z) in *.
    assert (Hclose : (inject_Z v * (1 # 1000) - (1 # 2000) < w
                      < inject_Z v * (1 # 1000) + (1 # 2000))%Q).
    { unfold z in Hw.
      qabs (t - (inject_Z U + inject_Z v * (1 # 1000000)))%Q;
        qabs (w - (t - inject_Z U) * 1000)%Q; lra. }
    pose proof (inject_Z_div_mod v 1000) as Hvk.
    change (inject_Z (Zpos 1000)) with 1000%Q in Hvk.
    set (k := v / 1000) in *. set (j := v mod 1000) in *.
    assert (Hkj : v = 1000 * k + j) by (apply Z.div_mod; lia).
    assert (Hj : 0 <= j < 1000) by (apply Z.mod_pos_bound; lia).
    assert (Hk : 0 <= k <= 999) by lia.
    assert (Hfloor : Qfloor w = k \/ (j = 0 /\ 1 <= k /\ Qfloor w = k - 1)).
    { destruct (Z.eq_dec j 0) as [Hj0|Hj0].
      - rewrite Hj0 in Hvk. change (inject_Z 0) with 0%Q in Hvk.
        destruct (Qlt_le_dec w (inject_Z k)) as [Hlt|Hge].
        + right. split; [exact Hj0|]. split; [lia|].
          apply Qfloor_unique. replace (k - 1) with (k + -1) by lia.
          rewrite inject_Z_plus. change (inject_Z (-1)) with (-1)%Q. lra.
        + left. apply Qfloor_unique. lra.
      - left. apply Qfloor_unique.
        pose proof (inject_Z_range 1 j 999 ltac:(lia)) as Hjq.
        change (inject_Z 1) with 1%Q in Hjq. change (inject_Z 999) with 999%Q in Hjq.
        lra. }
    assert (Hw0 : (0 <= w)%Q).
    { unfold w. apply double_round_nonneg. unfold z. lra. }
    unfold milliseconds_shown. rewrite HT, Hms, (py_int_nonneg w Hw0).
    destruct Hfloor as [->|(Hj0 & Hk1 & ->)]; lia.
Qed.

(** What the fields show of a float from [2^33] seconds on.  Such a float is
    a multiple of [2^-19] seconds, which is more than a microsecond: the
    total number of seconds is the float itself again, and the product for
    the milliseconds is exact. *)
Lemma shown_large (x : Q) :
  is_float x -> (8589934592 <= x)%Q ->
  0 <= millisecond_field (double_round (microseconds_of x # 1000000)) <= 999 /\
  milliseconds_shown (double_round (microseconds_of x # 1000000)) * 1000
  <= microseconds_of x
  <= milliseconds_shown (double_round (microseconds_of x # 1000000)) * 1000 + 1000.
Proof.
  intros Hf Hx.
  assert (Hx0 : (0 <= x)%Q) by lra.
  destruct (is_float_multiple x 33 Hf) as (j & Hj).
  { change (pow2 33) with 8589934592%Q. qabs x; lra. }
  change (pow2 (33 - 52)) with (1 # 524288)%Q in Hj.
  destruct (microseconds_of_nonneg x Hx0) as [Hus [Hr0 Hr1]].
  pose proof (Qfloor_bounds x) as [HI1 HI2].
  set (I := Qfloor x) in *.
  set (i := j - I * 524288).
  assert (Hfi : (x - inject_Z I == inject_Z i * (1 # 524288))%Q).
  { unfold i, Z.sub. rewrite Hj, inject_Z_plus, inject_Z_opp, inject_Z_mult.
    change (inject_Z 524288) with 524288%Q. field. }
  assert (Hi : 0 <= i < 524288).
  { split; [rewrite Zle_Qle|rewrite Zlt_Qlt];
      change (inject_Z 0) with 0%Q; change (inject_Z 524288) with 524288%Q; lra. }
  (* the product by 10^6 is exact *)
  assert (Hd : (double_round (1000000 * (x - inject_Z I)) == 1000000 * (x - inject_Z I))%Q).
  { pose proof (double_round_exact (i * 15625) (-13) ltac:(lia) ltac:(lia)) as He.
    unfold is_float in He.
    assert (Heq : (1000000 * (x - inject_Z I) == inject_Z (i * 15625) * pow2 (-13))%Q).
    { rewrite Hfi, inject_Z_mult. change (pow2 (-13)) with (1 # 8192)%Q.
      change (inject_Z 15625) with 15625%Q. field. }
    rewrite (double_round_comp _ _ Heq), He. symmetry. exact Heq. }
  set (r := round_half_even (double_round (1000000 * (x - inject_Z I)))) in *.
  assert (Hr : r = round_half_even (1000000 * (x - inject_Z I))).
  { apply round_half_even_comp. exact Hd. }
  pose proof (round_half_even_bounds (1000000 * (x - inject_Z I))) as [Hb1 Hb2].
  rewrite <- Hr in Hb1, Hb2.
  set (us := microseconds_of x) in *.
  assert (Hy : (us # 1000000 == inject_Z I + inject_Z r * (1 # 1000000))%Q).
  { rewrite Hus, Qmake_Qdiv, inject_Z_plus, inject_Z_mult.
    change (inject_Z 1000000) with 1000000%Q. change (inject_Z (Zpos 1000000)) with 1000000%Q.
    field. }
  pose proof (inject_Z_range 0 r 1000000 ltac:(lia)) as Hrq.
  change (inject_Z 0) with 0%Q in Hrq. change (inject_Z 1000000) with 1000000%Q in Hrq.
  assert (HIq : (8589934592 <= inject_Z I)%Q).
  { change 8589934592%Q with (inject_Z 8589934592). rewrite <- Zle_Qle.
    rewrite <- (Qfloor_Z 8589934592). apply Qfloor_resp_le. exact Hx. }
  (* the total number of seconds is [x] again *)
  pose proof (double_round_nearest (us # 1000000) x Hf) as Hn.
  assert (Ht33 : (8589934592 <= double_round (us # 1000000))%Q).
  { apply (Qle_trans _ (double_round (inject_Z 8589934592))).
    - rewrite double_round_Z by (vm_compute; discriminate). apply Qle_refl.
    - apply double_round_le. rewrite Hy. change (inject_Z 8589934592) with 8589934592%Q. lra. }
  set (t := double_round (us # 1000000)) in *.
  destruct (is_float_multiple t 33 (double_round_is_float _)) as (j' & Hj').
  { change (pow2 33) with 8589934592%Q. qabs t; lra. }
  change (pow2 (33 - 52)) with (1 # 524288)%Q in Hj'.
  rewrite Hy in Hn.
  assert (Hjj : j' = j).
  { assert (Hdiff : (-1 < inject_Z j' - inject_Z j < 1)%Q).
    { qabs (t - (inject_Z I + inject_Z r * (1 # 1000000)))%Q;
        qabs (x - (inject_Z I + inject_Z r * (1 # 1000000)))%Q; lra. }
    assert (H1 : (inject_Z (j + -1) < inject_Z j')%Q).
    { rewrite inject_Z_plus. change (inject_Z (-1)) with (-1)%Q. lra. }
    assert (H2 : (inject_Z j' < inject_Z (j + 1))%Q).
    { rewrite inject_Z_plus. change (inject_Z 1) with 1%Q. lra. }
    rewrite <- Zlt_Qlt in H1, H2. lia. }
  assert (Htx : (t == x)%Q) by (rewrite Hj', Hj, Hjj; reflexivity).
  assert (HT : Qfloor t = I) by (apply Qfloor_comp; exact Htx).
  (* the product by 1000 is exact *)
  assert (Hz : (double_round ((t - inject_Z I) * 1000) == 1000 * (x - inject_Z I))%Q).
  { pose proof (double_round_exact (i * 125) (-16) ltac:(lia) ltac:(lia)) as He.
    unfold is_float in He.
    assert (Heq : ((t - inject_Z I) * 1000 == inject_Z (i * 125) * pow2 (-16))%Q).
    { rewrite Htx, Hfi, inject_Z_mult. change (pow2 (-16)) with (1 # 65536)%Q.
      change (inject_Z 125) with 125%Q. field. }
    rewrite (double_round_comp _ _ Heq), He, <- Heq, Htx. ring. }
  assert (Hms : millisecond_field t = Qfloor (1000 * (x - inject_Z I))).
  { unfold millisecond_field, float_mul. rewrite HT.
    rewrite (py_int_comp _ _ Hz). apply py_int_nonneg. lra. }
  pose proof (Qfloor_bounds (1000 * (x - inject_Z I))) as [Hm1 Hm2].
  set (ms := Qfloor (1000 * (x - inject_Z I))) in *.
  assert (Hms0 : 0 <= ms <= 999).
  { split.
    - change 0 with (Qfloor 0). apply Qfloor_resp_le. lra.
    - assert (H : (inject_Z ms < inject_Z 1000)%Q)
        by (change (inject_Z 1000) with 1000%Q; lra).
      rewrite <- Zlt_Qlt in H. lia. }
  assert (Hlo : 1000 * ms <= r).
  { rewrite Hr, <- (round_half_even_inject (1000 * ms)). apply round_half_even_le.
    rewrite inject_Z_mult. change (inject_Z 1000) with 1000%Q. lra. }
  assert (Hhi : r <= 1000 * ms + 1000).
  { rewrite Hr, <- (round_half_even_inject (1000 * ms + 1000)). apply round_half_even_le.
    rewrite inject_Z_plus, inject_Z_mult. change (inject_Z 1000) with 1000%Q. lra. }
  unfold milliseconds_shown. rewrite HT, Hms. lia.
Qed.

(** What the fields show, for every float that is not negative: the
    milliseconds of the microseconds that [timedelta] holds, or one less. *)
Lemma shown_bounds (s : Q) :
  (0 <= py_float s)%Q ->
  0 <= microseconds_of (py_float s) /\
  0 <= Qfloor (total_seconds_of s) /\
  0 <= millisecond_field (total_seconds_of s) <= 999 /\
  milliseconds_shown (total_seconds_of s) * 1000 <= microseconds_of (py_float s)
  <= milliseconds_shown (total_seconds_of s) * 1000 + 1000.
Proof.
  intros Hx. unfold total_seconds_of.
  pose proof (double_round_is_float s) as Hf. fold (py_float s) in Hf.
  destruct (microseconds_of_nonneg (py_float s) Hx) as [Hus [Hr0 Hr1]].
  assert (HI : 0 <= Qfloor (py_float s)).
  { change 0 with (Qfloor 0). apply Qfloor_resp_le. exact Hx. }
  split; [lia|]. split.
  { change 0 with (Qfloor 0). apply Qfloor_resp_le, double_round_nonneg.
    unfold Qle. cbn [Qnum Qden]. lia. }
  destruct (Qlt_le_dec (py_float s) 8589934592) as [Hsmall|Hlarge].
  - apply shown_small.
    assert (H : Qfloor (py_float s) < 8589934592).
    { rewrite Zlt_Qlt. pose proof (Qfloor_bounds (py_float s)) as [H1 _].
      change (inject_Z 8589934592) with 8589934592%Q. lra. }
    lia.
  - apply shown_large; assumption.
Qed.

Lemma srt_fields (T : Z) :
  0 <= T ->
  0 <= T / 3600 /\
  0 <= (T mod 3600) / 60 < 60 /\
  0 <= T mod 60 < 60 /\
  (T / 3600) * 3600 + ((T mod 3600) / 60) * 60 + T mod 60 = T.
Proof. intros HT. Z.div_mod_to_equations. lia. Qed.

Lemma parse_srt_fields (hh mm ss mmm : str) :
  all_digits hh -> all_digits mm -> all_digits ss ->
  parse_srt (hh ++ utf8 ":" ++ mm ++ utf8 ":" ++ ss ++ utf8 "," ++ mmm) =
    match parse_N hh, parse_N mm, parse_N ss, parse_N mmm with
    | Some h, Some m, Some s, Some ms => Some (h, m, s, ms)
    | _, _, _, _ => None
    end.
Proof.
  intros Hh Hm Hs. unfold parse_srt.
  change (utf8 ":") with [58%N]. change (utf8 ",") with [44%N]. cbn [app].
  rewrite (split_on_digits 58%N hh) by (reflexivity || assumption).
  rewrite (split_on_digits 58%N mm) by (reflexivity || assumption).
  rewrite (split_on_digits 44%N ss) by (reflexivity || assumption).
  reflexivity.
Qed.

Lemma re_match_srt (hh mm ss mmm : str) :
  all_digits hh -> (2 <= List.length hh)%nat ->
  all_digits mm -> List.length mm = 2%nat ->
  all_digits ss -> List.length ss = 2%nat ->
  all_digits mmm -> List.length mmm = 3%nat ->
  re_match SRT_PATTERN (hh ++ utf8 ":" ++ mm ++ utf8 ":" ++ ss ++ utf8 "," ++ mmm).
Proof.
  intros. unfold SRT_PATTERN.
  change (utf8 ":") with [58%N]. change (utf8 ",") with [44%N].
  repeat (apply MCat);
    auto using re_match_two_or_more, re_match_two, re_match_three, MChar.
Qed.

(** For a value that is not negative, the formatter returns a timestamp
    whose fields read back as the milliseconds shown. *)
Lemma format_time_srt_reads_back (s : Q) :
  (0 <= py_float s)%Q -> in_timedelta_range s ->
  exists out h m sec ms,
    format_time_srt s = Return out /\
    re_match SRT_PATTERN out /\
    parse_srt out = Some (h, m, sec, ms) /\
    (m < 60 /\ sec < 60 /\ ms < 1000)%N /\
    (srt_value (h, m, sec, ms)
     == inject_Z (milliseconds_shown (total_seconds_of s)) * (1 # 1000))%Q.
Proof.
  intros Hx Hrange.
  destruct (shown_bounds s Hx) as (Hus & HT & Hms & _).
  rewrite (format_time_srt_fields s Hrange Hus).
  unfold milliseconds_shown.
  set (T := Qfloor (total_seconds_of s)) in *.
  set (msf := millisecond_field (total_seconds_of s)) in *.
  destruct (srt_fields T HT) as (Hh & Hm & Hsec & Hsum).
  set (h := T / 3600) in *.
  set (m := (T mod 3600) / 60) in *.
  set (sec := T mod 60) in *.
  destruct (format_0d_spec 2 h Hh ltac:(lia)) as (Dh & Lh & _ & Ph).
  destruct (format_0d_spec 2 m (proj1 Hm) ltac:(lia)) as (Dm & _ & Lm & Pm).
  destruct (format_0d_spec 2 sec (proj1 Hsec) ltac:(lia)) as (Ds & _ & Ls & Ps).
  destruct (format_0d_spec 3 msf (proj1 Hms) ltac:(lia)) as (Dms & _ & Lms & Pms).
  specialize (Lm ltac:(change (10 ^ Z.of_nat 2) with 100; lia)).
  specialize (Ls ltac:(change (10 ^ Z.of_nat 2) with 100; lia)).
  specialize (Lms ltac:(change (10 ^ Z.of_nat 3) with 1000; lia)).
  exists (format_0d 2 h ++ utf8 ":" ++ format_0d 2 m ++ utf8 ":"
          ++ format_0d 2 sec ++ utf8 "," ++ format_0d 3 msf).
  exists (Z.to_N h), (Z.to_N m), (Z.to_N sec), (Z.to_N msf).
  split; [reflexivity|].
  split; [apply re_match_srt; assumption|].
  split; [rewrite parse_srt_fields by assumption; rewrite Ph, Pm, Ps, Pms; reflexivity|].
  split; [lia|].
  unfold srt_value. rewrite !Z2N.id by lia.
  unfold Qeq, Qplus, Qmult, inject_Z. cbn [Qnum Qden]. lia.
Qed.

(** C4 (as amended).  For every float [s >= 0] that [timedelta] accepts, the
    SRT formatter returns a string that matches
    [^\d{2,}:\d{2}:\d{2},\d{3}$], with minutes and seconds below 60 and
    milliseconds below 1000.  Read back as
    [hours*3600 + minutes*60 + seconds + ms/1000] it gives a value [p] that
    never exceeds [s] as [timedelta] rounds it to whole microseconds, and lies
    at most one millisecond below it: a whole millisecond below where float
    arithmetic lands just under a whole number of milliseconds, as for 1.2,
    rendered [00:00:01,199].  With respect to [s] itself, [p] may exceed [s] by
    half a microsecond and may lie below it by a millisecond and half a
    microsecond (to which comes the rounding error of the product of the
    fraction by [10^6], less than a thousandth of a microsecond). *)
Theorem format_time_srt_truncates_rounded (s : Q) :
  is_float s -> (0 <= s)%Q -> in_timedelta_range s ->
  exists out h m sec ms,
    format_time_srt s = Return out /\
    re_match SRT_PATTERN out /\
    parse_srt out = Some (h, m, sec, ms) /\
    (m < 60 /\ sec < 60 /\ ms < 1000)%N /\
    (srt_value (h, m, sec, ms) <= microsecond_rounded s
       <= srt_value (h, m, sec, ms) + (1 # 1000))%Q /\
    (srt_value (h, m, sec, ms) - (501 # 1000000000) <= s
       <= srt_value (h, m, sec, ms) + (1 # 1000) + (501 # 1000000000))%Q.
Proof.
  intros Hf Hs Hrange.
  assert (Hxs : (py_float s == s)%Q) by exact Hf.
  assert (Hx : (0 <= py_float s)%Q) by (rewrite Hxs; exact Hs).
  destruct (format_time_srt_reads_back s Hx Hrange)
    as (out & h & m & sec & ms & Hout & Hmatch & Hparse & Hfields & Hval).
  exists out, h, m, sec, ms.
  split; [exact Hout|]. split; [exact Hmatch|]. split; [exact Hparse|].
  split; [exact Hfields|].
  destruct (shown_bounds s Hx) as (_ & _ & _ & Hlo & Hhi).
  pose proof (microseconds_of_close (py_float s)) as Hclose.
  change (pow2 (-34)) with (1 # 17179869184)%Q in Hclose.
  unfold microsecond_rounded.
  set (us := microseconds_of (py_float s)) in *.
  set (P := milliseconds_shown (total_seconds_of s)) in *.
  assert (Hq : (inject_Z P * 1000 <= inject_Z us <= inject_Z P * 1000 + 1000)%Q).
  { change 1000%Q with (inject_Z 1000). rewrite <- inject_Z_mult, <- inject_Z_plus.
    split; rewrite <- Zle_Qle; assumption. }
  assert (Hmr : (us # 1000000 == inject_Z us * (1 # 1000000))%Q).
  { unfold Qeq, Qmult, inject_Z. cbn [Qnum Qden]. lia. }
  rewrite Hxs in Hclose. rewrite Hval, Hmr.
  split; [split; lra|].
  qabs (inject_Z us - 1000000 * s)%Q; split; lra.
Qed.

(** ** [format_time_display] *)

(** C8 (as amended).  For every float [s] from 0 to below [2^53] seconds the
    display formatter gives a string that matches [^\d{2,}:\d{2}$]: no hour
    field, both fields padded to two digits; its minute field is
    [floor(s/60)], which grows past 59, and its second field is
    [floor(s) mod 60]. *)
Theorem format_time_display_spec (s : Q) :
  is_float s -> (0 <= s < 9007199254740992)%Q ->
  re_match DISPLAY_PATTERN (format_time_display s) /\
  parse_display (format_time_display s)
    = Some (Z.to_N (Qfloor (s / 60)), Z.to_N (Qfloor s mod 60)).
Proof.
  intros Hf [Hs0 Hs1].
  assert (Hxs : (py_float s == s)%Q) by exact Hf.
  assert (Hx0 : (0 <= py_float s)%Q) by (rewrite Hxs; exact Hs0).
  assert (HT : 0 <= Qfloor s < 9007199254740992).
  { split.
    - change 0 with (Qfloor 0). apply Qfloor_resp_le. exact Hs0.
    - rewrite Zlt_Qlt. pose proof (Qfloor_bounds s) as [H1 _].
      change (inject_Z 9007199254740992) with 9007199254740992%Q. lra. }
  assert (HTx : Qfloor (py_float s) = Qfloor s) by (apply Qfloor_comp; exact Hxs).
  unfold format_time_display.
  change 60%Q with (inject_Z (Zpos 60)).
  rewrite (py_int_comp _ _ (float_floordiv_nonneg (py_float s) 60 Hx0 ltac:(
    rewrite HTx; change (2 ^ 53) with 9007199254740992; Z.div_mod_to_equations; lia))).
  rewrite py_int_inject, HTx.
  pose proof (float_mod_bounds (py_float s) 60 Hx0) as [Hc1 _].
  rewrite (py_int_nonneg _ Hc1).
  rewrite (Qfloor_comp _ _ (float_mod_nonneg (py_float s) 60 Hx0)), <- inject_Z_mult,
    Qfloor_sub_Z, HTx.
  rewrite <- Z.mod_eq by discriminate.
  rewrite Qfloor_div.
  set (minutes := Qfloor s / 60).
  set (secs := Qfloor s mod 60).
  assert (Hmin : 0 <= minutes) by (apply Z.div_pos; lia).
  assert (Hsec : 0 <= secs < 60) by (apply Z.mod_pos_bound; lia).
  destruct (format_0d_spec 2 minutes Hmin ltac:(lia)) as (Dm & Lm & _ & Pm).
  destruct (format_0d_spec 2 secs (proj1 Hsec) ltac:(lia)) as (Ds & _ & Ls & Ps).
  specialize (Ls ltac:(change (10 ^ Z.of_nat 2) with 100; lia)).
  split.
  - unfold DISPLAY_PATTERN. change (utf8 ":") with [58%N].
    repeat (apply MCat); auto using re_match_two_or_more, re_match_two, MChar.
  - unfold parse_display. change (utf8 ":") with [58%N]. cbn [app].
    rewrite (split_on_digits 58%N) by (reflexivity || assumption).
    rewrite Pm, Ps. reflexivity.
Qed.

(** ** [generate_srt_content] *)

Lemma format_time_srt_returns (s : Q) :
  in_timedelta_range s -> exists out, format_time_srt s = Return out.
Proof.
  intros Hrange. unfold format_time_srt.
  rewrite (timedelta_of_seconds_in_range s Hrange). eauto.
Qed.

Lemma srt_loop_blocks (subtitle_segments : list SubtitleSegment) :
  forall (i : Z) (srt_content : str),
    Forall times_in_range subtitle_segments ->
    exists blocks,
      srt_loop i subtitle_segments srt_content = Return (srt_content ++ List.concat blocks) /\
      List.length blocks = List.length subtitle_segments /\
      forall k segment,
        nth_error subtitle_segments k = Some segment ->
        exists start_time end_time,
          format_time_srt (sub_start segment) = Return start_time /\
          format_time_srt (sub_end segment) = Return end_time /\
          nth_error blocks k = Some (srt_block (i + Z.of_nat k) start_time end_time segment).
Proof.
  induction subtitle_segments as [|segment rest IH]; intros i srt_content Hall.
  - exists []. cbn. rewrite app_nil_r. repeat split.
    intros [|k] seg Hk; discriminate.
  - inversion Hall as [|? ? [Hstart Hend] Hrest]; subst.
    destruct (format_time_srt_returns _ Hstart) as (st & Hst).
    destruct (format_time_srt_returns _ Hend) as (et & Het).
    cbn [srt_loop]. rewrite Hst, Het.
    destruct (IH (i + 1)
                (((srt_content ++ (str_of_Z i ++ utf8 "
")) ++ (st ++ utf8 " --> " ++ et ++ utf8 "
")) ++ (japanese segment ++ utf8 "

")) Hrest) as (blocks & Hrun & Hlen & Hnth).
    exists (srt_block i st et segment :: blocks). split; [|split].
    + rewrite Hrun. f_equal. cbn [List.concat]. unfold srt_block.
      rewrite <- !app_assoc. reflexivity.
    + cbn [List.length]. rewrite Hlen. reflexivity.
    + intros [|k] seg Hk.
      * cbn in Hk. injection Hk as <-. exists st, et.
        rewrite Z.add_0_r. repeat split; assumption || reflexivity.
      * cbn in Hk. destruct (Hnth k seg Hk) as (st' & et' & Hs' & He' & Hb).
        exists st', et'. repeat split; try assumption.
        cbn [nth_error]. rewrite Hb. do 2 f_equal. lia.
Qed.

(** C6 (as amended).  For every sequence of [N] subtitle segments whose start
    and end times [timedelta] accepts, the SRT renderer returns the
    concatenation, in sequence order, of exactly [N] blocks; the block of the
    [k]-th segment (counting from 1) consists of the line [k], the line
    [start --> end] with both times as the SRT formatter renders them, the
    line of the segment's Japanese text, and an empty line.  For the empty
    sequence the output is empty. *)
Theorem generate_srt_content_blocks (subtitle_segments : list SubtitleSegment) :
  Forall times_in_range subtitle_segments ->
  exists blocks,
    generate_srt_content subtitle_segments = Return (List.concat blocks) /\
    List.length blocks = List.length subtitle_segments /\
    (forall k segment,
        nth_error subtitle_segments k = Some segment ->
        exists start_time end_time,
          format_time_srt (sub_start segment) = Return start_time /\
          format_time_srt (sub_end segment) = Return end_time /\
          nth_error blocks k
            = Some (srt_block (Z.of_nat k + 1) start_time end_time segment)) /\
    (subtitle_segments = [] -> generate_srt_content subtitle_segments = Return []).
Proof.
  intros Hall.
  destruct (srt_loop_blocks subtitle_segments 1 [] Hall) as (blocks & Hrun & Hlen & Hnth).
  exists blocks. unfold generate_srt_content. repeat split.
  - exact Hrun.
  - exact Hlen.
  - intros k segment Hk. destruct (Hnth k segment Hk) as (st & et & Hs & He & Hb).
    exists st, et. rewrite Z.add_comm. repeat split; assumption.
  - intros ->. reflexivity.
Qed.

(** ** The segment pipeline *)

(** Unfolds the operations of the monad. *)
Ltac run := unfold try_except, bind, ret, raise, finally in *.

Section Pipeline.
Context {World Client Handle : Type} {platform : Platform World Client Handle}.
Variable self : @EnglishToJapaneseSubtitle Client.

(** The translation function always returns a string. *)
Lemma translate_to_japanese_total (english_text context : str) (w : World) :
  exists out w', translate_to_japanese self english_text context w = (Return out, w').
Proof.
  unfold translate_to_japanese. destruct (client self) as [c|]; run; [|eauto].
  destruct (chat_completions_create c _ w) as [[e|response] w']; [eauto|].
  destruct (choices response) as [|[content|] others]; eauto.
Qed.


Lemma segments_loop_dropped (segment : RawSegment) (rest : list RawSegment)
    (acc : list SubtitleSegment) (w : World) :
  kept segment = false ->
  segments_loop self (segment :: rest) acc w = segments_loop self rest acc w.
Proof. unfold kept. intros Hk. cbn [segments_loop]. rewrite Hk. reflexivity. Qed.

Lemma segments_loop_kept (segment : RawSegment) (rest : list RawSegment)
    (acc : list SubtitleSegment) (ja : str) (w w1 : World) :
  kept segment = true ->
  translate_to_japanese self (strip (dict_get (seg_text segment) [])) (utf8 "subtitle") w
    = (Return ja, w1) ->
  segments_loop self (segment :: rest) acc w
    = segments_loop self rest (acc ++ [subtitle_of segment ja]) w1.
Proof.
  unfold kept. intros Hk Htr. cbn [segments_loop]. rewrite Hk. run. rewrite Htr.
  reflexivity.
Qed.

(** The list built so far only ever grows at its end. *)
Lemma segments_loop_acc (segments : list RawSegment) :
  forall (acc front out : list SubtitleSegment) (w w' : World),
    segments_loop self segments acc w = (Return out, w') ->
    segments_loop self segments (front ++ acc) w = (Return (front ++ out), w').
Proof.
  induction segments as [|segment rest IH]; intros acc front out w w' Hrun.
  - cbn in *. unfold ret in *. congruence.
  - destruct (kept segment) eqn:Hk.
    + destruct (translate_to_japanese_total (strip (dict_get (seg_text segment) []))
                  (utf8 "subtitle") w) as (ja & w1 & Htr).
      rewrite (segments_loop_kept segment rest acc ja w w1 Hk Htr) in Hrun.
      rewrite (segments_loop_kept segment rest (front ++ acc) ja w w1 Hk Htr).
      rewrite <- app_assoc. apply IH. exact Hrun.
    + rewrite (segments_loop_dropped segment rest acc w Hk) in Hrun.
      rewrite (segments_loop_dropped segment rest (front ++ acc) w Hk).
      apply IH. exact Hrun.
Qed.

(** The loop returns, with one subtitle segment per kept raw segment. *)
Lemma segments_loop_total (segments : list RawSegment) :
  forall (w : World),
    exists out w',
      segments_loop self segments [] w = (Return out, w') /\
      map (fun sub => (sub_start sub, sub_end sub, english sub)) out
        = map (fun segment => (dict_get (seg_start segment) 0%Q,
                               dict_get (seg_end segment) 0%Q,
                               strip (dict_get (seg_text segment) [])))
            (filter kept segments).
Proof.
  induction segments as [|segment rest IH]; intros w.
  - exists [], w. split; reflexivity.
  - cbn [filter]. destruct (kept segment) eqn:Hk.
    + destruct (translate_to_japanese_total (strip (dict_get (seg_text segment) []))
                  (utf8 "subtitle") w) as (ja & w1 & Htr).
      destruct (IH w1) as (out & w' & Hrun & Hmap).
      exists (subtitle_of segment ja :: out), w'. split.
      * rewrite (segments_loop_kept segment rest _ ja w w1 Hk Htr).
        apply (segments_loop_acc rest [] [subtitle_of segment ja]) in Hrun.
        rewrite app_nil_r in Hrun. exact Hrun.
      * cbn [map]. rewrite Hmap. reflexivity.
    + destruct (IH w) as (out & w' & Hrun & Hmap).
      exists out, w'. split; [|exact Hmap].
      rewrite (segments_loop_dropped segment rest _ w Hk). exact Hrun.
Qed.

Lemma segments_loop_app_acc (pre post : list RawSegment) :
  forall (acc out1 out2 : list SubtitleSegment) (w w1 w2 : World),
    segments_loop self pre acc w = (Return out1, w1) ->
    segments_loop self post [] w1 = (Return out2, w2) ->
    segments_loop self (pre ++ post) acc w = (Return (out1 ++ out2), w2).
Proof.
  induction pre as [|segment rest IH]; intros acc out1 out2 w w1 w2 H1 H2.
  - cbn in H1. unfold ret in H1. injection H1 as Hout Hw. subst out1 w1.
    cbn [app]. apply (segments_loop_acc post [] acc) in H2.
    rewrite app_nil_r in H2. exact H2.
  - cbn [app]. destruct (kept segment) eqn:Hk.
    + destruct (translate_to_japanese_total (strip (dict_get (seg_text segment) []))
                  (utf8 "subtitle") w) as (ja & w0 & Htr).
      rewrite (segments_loop_kept segment rest acc ja w w0 Hk Htr) in H1.
      rewrite (segments_loop_kept segment (rest ++ post) acc ja w w0 Hk Htr).
      eapply IH; eassumption.
    + rewrite (segments_loop_dropped segment rest acc w Hk) in H1.
      rewrite (segments_loop_dropped segment (rest ++ post) acc w Hk).
      eapply IH; eassumption.
Qed.

(** With a non-empty list of segments, [create_subtitle_segments] is the
    loop. *)
Lemma create_subtitle_segments_loop (tr : TranscriptionResult)
    (segments : list RawSegment) (out : list SubtitleSegment) (w w' : World) :
  tr_segments tr = Some segments -> segments <> [] ->
  segments_loop self segments [] w = (Return out, w') ->
  create_subtitle_segments self (inr tr) w = (Return (inr out), w').
Proof.
  intros Hsegs Hne Hrun. unfold create_subtitle_segments. rewrite Hsegs.
  cbn [dict_get]. destruct segments as [|segment rest]; [congruence|].
  run. rewrite Hrun. reflexivity.
Qed.

(** Around a kept segment, the loop splits into the segments before it, its
    translation, and the segments after it. *)
Lemma segments_loop_around (pre post : list RawSegment) (segment : RawSegment)
    (out_pre out_post : list SubtitleSegment) (ja : str) (w w1 w2 w3 : World) :
  kept segment = true ->
  segments_loop self pre [] w = (Return out_pre, w1) ->
  translate_to_japanese self (strip (dict_get (seg_text segment) [])) (utf8 "subtitle") w1
    = (Return ja, w2) ->
  segments_loop self post [] w2 = (Return out_post, w3) ->
  segments_loop self (pre ++ segment :: post) [] w
    = (Return (out_pre ++ subtitle_of segment ja :: out_post), w3).
Proof.
  intros Hk Hpre Htr Hpost.
  apply (segments_loop_app_acc pre (segment :: post) [] out_pre
           (subtitle_of segment ja :: out_post) w w1 w3 Hpre).
  rewrite (segments_loop_kept segment post [] ja w1 w2 Hk Htr).
  apply (segments_loop_acc post [] [subtitle_of segment ja]) in Hpost.
  rewrite app_nil_r in Hpost. exact Hpost.
Qed.

(** C1.  For every transcription result whose list of segments is not empty,
    [create_subtitle_segments] returns one subtitle segment per raw segment
    whose stripped text is non-empty, in the original order and with the
    original start and end values, and nothing for a raw segment whose text
    is empty or only whitespace. *)
Theorem create_subtitle_segments_keeps_nonblank (tr : TranscriptionResult)
    (segments : list RawSegment) (w : World) :
  tr_segments tr = Some segments -> segments <> [] ->
  exists out w',
    create_subtitle_segments self (inr tr) w = (Return (inr out), w') /\
    map (fun sub => (sub_start sub, sub_end sub)) out
      = map (fun segment => (dict_get (seg_start segment) 0%Q,
                             dict_get (seg_end segment) 0%Q))
          (filter (fun segment => truthy (strip (dict_get (seg_text segment) [])))
             segments) /\
    List.length out
      = List.length (filter (fun segment => truthy (strip (dict_get (seg_text segment) [])))
                       segments).
Proof.
  intros Hsegs Hne.
  destruct (segments_loop_total segments w) as (out & w' & Hrun & Hmap).
  exists out, w'. split; [|split].
  - exact (create_subtitle_segments_loop tr segments out w w' Hsegs Hne Hrun).
  - apply (f_equal (map (fun t : Q * Q * str => (fst (fst t), snd (fst t))))) in Hmap.
    rewrite !map_map in Hmap. exact Hmap.
  - apply (f_equal (@List.length (Q * Q * str))) in Hmap.
    rewrite !length_map in Hmap. exact Hmap.
Qed.

(** C2.  For every transcription result whose list of segments is empty (or
    missing), [create_subtitle_segments] returns exactly one subtitle
    segment: it starts at 0 and ends at the duration, its English text is
    the full text, and its Japanese text is what the translation function
    returns for that full text, called once. *)
Theorem create_subtitle_segments_whole_clip (tr : TranscriptionResult) (w : World) :
  dict_get (tr_segments tr) [] = [] ->
  exists ja w',
    translate_to_japanese self (dict_get (tr_text tr) []) (utf8 "subtitle") w
      = (Return ja, w') /\
    create_subtitle_segments self (inr tr) w
      = (Return (inr [ {| sub_start := 0;
                          sub_end := dict_get (tr_duration tr) 0%Q;
                          english := dict_get (tr_text tr) [];
                          japanese := ja |} ]), w').
Proof.
  intros Hempty.
  destruct (translate_to_japanese_total (dict_get (tr_text tr) []) (utf8 "subtitle") w)
    as (ja & w' & Htr).
  exists ja, w'. split; [exact Htr|].
  unfold create_subtitle_segments. rewrite Hempty. run. rewrite Htr. reflexivity.
Qed.

(** C9.  The fallback segment is never dropped: with an empty (or missing)
    list of segments the result has exactly one segment whatever the text
    is, also when it is empty or only whitespace, and the text is stored as
    it is; a missing text counts as the empty string and a missing duration
    as 0, so the segment may span from 0 to 0 with an empty English text. *)
Theorem fallback_segment_is_never_dropped (tr : TranscriptionResult) (w : World) :
  dict_get (tr_segments tr) [] = [] ->
  exists segment w',
    create_subtitle_segments self (inr tr) w = (Return (inr [segment]), w') /\
    sub_start segment = 0%Q /\
    sub_end segment = match tr_duration tr with Some d => d | None => 0%Q end /\
    english segment = match tr_text tr with Some text => text | None => [] end.
Proof.
  intros Hempty.
  destruct (translate_to_japanese_total (dict_get (tr_text tr) []) (utf8 "subtitle") w)
    as (ja & w' & Htr).
  exists {| sub_start := 0;
            sub_end := dict_get (tr_duration tr) 0%Q;
            english := dict_get (tr_text tr) [];
            japanese := ja |}, w'.
  split; [|repeat split].
  unfold create_subtitle_segments. rewrite Hempty. run. rewrite Htr. reflexivity.
Qed.

(** C10.  In the loop over the segments, the English text of an emitted
    subtitle segment is the stripped text of the raw segment, the
    translation function is called on that stripped text, and a missing
    [start] or [end] key counts as 0. *)
Theorem emitted_segment_carries_stripped_text (tr : TranscriptionResult)
    (pre post : list RawSegment) (segment : RawSegment) (w : World) :
  tr_segments tr = Some (pre ++ segment :: post) ->
  strip (dict_get (seg_text segment) []) <> [] ->
  exists out_pre w1 ja w2 out_post w3,
    segments_loop self pre [] w = (Return out_pre, w1) /\
    translate_to_japanese self (strip (dict_get (seg_text segment) [])) (utf8 "subtitle") w1
      = (Return ja, w2) /\
    segments_loop self post [] w2 = (Return out_post, w3) /\
    create_subtitle_segments self (inr tr) w
      = (Return (inr (out_pre
                      ++ {| sub_start := match seg_start segment with
                                         | Some t => t
                                         | None => 0%Q
                                         end;
                            sub_end := match seg_end segment with
                                       | Some t => t
                                       | None => 0%Q
                                       end;
                            english := strip (dict_get (seg_text segment) []);
                            japanese := ja |} :: out_post)), w3).
Proof.
  intros Hsegs Htext.
  assert (Hk : kept segment = true).
  { unfold kept. destruct (strip (dict_get (seg_text segment) [])); [congruence|reflexivity]. }
  destruct (segments_loop_total pre w) as (out_pre & w1 & Hpre & _).
  destruct (translate_to_japanese_total (strip (dict_get (seg_text segment) []))
              (utf8 "subtitle") w1) as (ja & w2 & Htr).
  destruct (segments_loop_total post w2) as (out_post & w3 & Hpost & _).
  exists out_pre, w1, ja, w2, out_post, w3.
  repeat split; try assumption.
  apply (create_subtitle_segments_loop tr (pre ++ segment :: post)); try assumption.
  - destruct pre; discriminate.
  - exact (segments_loop_around pre post segment out_pre out_post ja w w1 w2 w3
             Hk Hpre Htr Hpost).
Qed.


End Pipeline.

(** ** The transcription adapter *)

Section Adapter.
Context {World Client Handle : Type} {platform : Platform World Client Handle}.

(** Validation always returns a verdict and a message. *)
Lemma validate_wav_file_total (wav_file : str) (w : World) :
  exists verdict w', validate_wav_file wav_file w = (Return verdict, w').
Proof.
  unfold validate_wav_file. run.
  destruct (wave_open wav_file w) as [[e|wf] w1]; [eauto|].
  destruct (framerate wf =? 0); [eauto|].
  destruct (getsize wav_file w1) as [[e|file_size] w2]; [eauto|].
  destruct (file_size >? 25 * 1024 * 1024); eauto.
Qed.

(** The adapter always returns: a message or a result. *)
Lemma transcribe_english_with_timestamps_total (self : @EnglishToJapaneseSubtitle Client)
    (audio_file : str) (w : World) :
  exists r w', transcribe_english_with_timestamps self audio_file w = (Return r, w').
Proof.
  unfold transcribe_english_with_timestamps.
  destruct (client self) as [c|]; [|unfold ret; eauto].
  destruct (validate_wav_file_total audio_file w) as ([is_valid message] & w1 & Hv).
  unfold bind at 1. rewrite Hv.
  destruct is_valid; cbn [negb]; [|unfold ret; eauto].
  run.
  destruct (open_rb audio_file w1) as [[e|audio] w2]; [eauto|].
  destruct (transcriptions_create c _ w2) as [[e1|transcript] w3]; [|eauto].
  destruct (seek audio 0 w3) as [[e|[]] w4]; [eauto|].
  destruct (transcriptions_create c _ w4) as [[e2|transcript] w5]; eauto.
Qed.

(** C5.  Once the file is validated and open, the adapter first sends the
    request that asks for segment-level timestamps.  If that call raises,
    whatever the exception, it seeks the file back to position 0 and sends
    the request once more, without that parameter, and nothing after it.  An
    exception of the second call (or of the seek) comes back to the caller
    as a string that starts with the error label.  The adapter never
    raises. *)
Theorem transcription_adapter_falls_back_once (self : @EnglishToJapaneseSubtitle Client)
    (c : Client) (audio_file message : str) (audio : Handle) (w w1 w2 : World) :
  client self = Some c ->
  validate_wav_file audio_file w = (Return (true, message), w1) ->
  open_rb audio_file w1 = (Return audio, w2) ->
  (forall self' path w0,
      exists r w', transcribe_english_with_timestamps self' path w0 = (Return r, w')) /\
  match transcriptions_create c (primary_request audio) w2 with
  | (Return transcript, w3) =>
      transcribe_english_with_timestamps self audio_file w
        = (Return (inr (result_of_transcript transcript)), close audio w3)
  | (Raise _, w3) =>
      match seek audio 0 w3 with
      | (Return _, w4) =>
          match transcriptions_create c (fallback_request audio) w4 with
          | (Return transcript, w5) =>
              transcribe_english_with_timestamps self audio_file w
                = (Return (inr (result_of_transcript transcript)), close audio w5)
          | (Raise e, w5) =>
              transcribe_english_with_timestamps self audio_file w
                = (Return (inl (utf8 "英語音声認識エラー: " ++ e)), close audio w5)
          end
      | (Raise e, w4) =>
          transcribe_english_with_timestamps self audio_file w
            = (Return (inl (utf8 "英語音声認識エラー: " ++ e)), close audio w4)
      end
  end.
Proof.
  intros Hc Hv Hopen.
  split; [exact transcribe_english_with_timestamps_total|].
  assert (Hrun : transcribe_english_with_timestamps self audio_file w
                 = match transcriptions_create c (primary_request audio) w2 with
                   | (Return transcript, w3) =>
                       (Return (inr (result_of_transcript transcript)), close audio w3)
                   | (Raise _, w3) =>
                       match seek audio 0 w3 with
                       | (Return _, w4) =>
                           match transcriptions_create c (fallback_request audio) w4 with
                           | (Return transcript, w5) =>
                               (Return (inr (result_of_transcript transcript)),
                                close audio w5)
                           | (Raise e, w5) =>
                               (Return (inl (utf8 "英語音声認識エラー: " ++ e)),
                                close audio w5)
                           end
                       | (Raise e, w4) =>
                           (Return (inl (utf8 "英語音声認識エラー: " ++ e)), close audio w4)
                       end
                   end).
  { unfold transcribe_english_with_timestamps. rewrite Hc.
    unfold bind at 1. rewrite Hv. cbn [negb].
    run. rewrite Hopen.
    fold (primary_request audio). fold (fallback_request audio).
    destruct (transcriptions_create c (primary_request audio) w2)
      as [[e1|transcript] w3]; [|reflexivity].
    destruct (seek audio 0 w3) as [[e|u] w4]; [reflexivity|].
    destruct (transcriptions_create c (fallback_request audio) w4)
      as [[e2|transcript] w5]; reflexivity. }
  rewrite Hrun.
  destruct (transcriptions_create c (primary_request audio) w2) as [[e1|transcript] w3];
    [|reflexivity].
  destruct (seek audio 0 w3) as [[e|u] w4]; [reflexivity|].
  destruct (transcriptions_create c (fallback_request audio) w4) as [[e2|transcript] w5];
    reflexivity.
Qed.

(** C7.  The checks come before any request.  A path that does not end in
    [.wav], whatever the case of its letters, makes [process_wav_file] return
    the message that asks for a conversion to WAV, and the world is then the
    one the first progress report left: nothing was opened or sent.  A file
    that [wave.open] rejects, and a file of more than 25 MiB, make the
    adapter return an error message right after the failed check: the file
    is not opened for upload and no request is sent. *)
Theorem checks_come_before_any_request (self : @EnglishToJapaneseSubtitle Client)
    (c : Client) (file_path : str) (w : World) :
  client self = Some c ->
  (forall progress_callback w1,
      endswith (lower file_path) (utf8 ".wav") = false ->
      report progress_callback (utf8 "WAVファイルを確認中...") w = (Return tt, w1) ->
      process_wav_file self file_path progress_callback w = (Return (inl MSG_WAV_ONLY), w1)) /\
  (forall e w1,
      wave_open file_path w = (Raise e, w1) ->
      transcribe_english_with_timestamps self file_path w
        = (Return (inl (utf8 "WAVファイルの読み込みエラー: " ++ e)), w1)) /\
  (forall wf w1 file_size w2,
      wave_open file_path w = (Return wf, w1) ->
      framerate wf <> 0 ->
      getsize file_path w1 = (Return file_size, w2) ->
      25 * 1024 * 1024 < file_size ->
      transcribe_english_with_timestamps self file_path w
        = (Return (inl (utf8 "ファイルサイズが大きすぎます: "
                        ++ format_1f (inject_Z file_size / inject_Z (1024 * 1024))%Q
                        ++ utf8 "MB（上限: 25MB）")), w2)).
Proof.
  intros Hc. split; [|split].
  - intros progress_callback w1 Hext Hreport.
    unfold process_wav_file. run. rewrite Hreport, Hext. reflexivity.
  - intros e w1 Hwave.
    unfold transcribe_english_with_timestamps, validate_wav_file. rewrite Hc.
    run. rewrite Hwave. reflexivity.
  - intros wf w1 file_size w2 Hwave Hrate Hsize Hbig.
    unfold transcribe_english_with_timestamps, validate_wav_file. rewrite Hc.
    run. rewrite Hwave.
    destruct (Z.eqb_spec (framerate wf) 0) as [Heq|_]; [contradiction|].
    rewrite Hsize.
    destruct (Z.gtb_spec file_size (25 * 1024 * 1024)) as [_|Hle]; [reflexivity|lia].
Qed.

End Adapter.

(** ** The theorems at work on sample inputs *)

(** Closes a goal between two computed integers. *)
Ltac by_computation := vm_compute; repeat split; (discriminate || reflexivity).

(** C4: the amended statement at 1.2 seconds, which are the float
    [5404319552844595 / 2^52]; the timestamp is [00:00:01,199]. *)
Lemma format_time_srt_truncates_rounded_witness :
  is_float (5404319552844595 # 4503599627370496) /\
  (0 <= 5404319552844595 # 4503599627370496)%Q /\
  in_timedelta_range (5404319552844595 # 4503599627370496) /\
  exists out h m sec ms,
    format_time_srt (5404319552844595 # 4503599627370496) = Return out /\
    re_match SRT_PATTERN out /\
    parse_srt out = Some (h, m, sec, ms) /\
    (m < 60 /\ sec < 60 /\ ms < 1000)%N /\
    (srt_value (h, m, sec, ms)
       <= microsecond_rounded (5404319552844595 # 4503599627370496)
       <= srt_value (h, m, sec, ms) + (1 # 1000))%Q /\
    (srt_value (h, m, sec, ms) - (501 # 1000000000)
       <= 5404319552844595 # 4503599627370496
       <= srt_value (h, m, sec, ms) + (1 # 1000) + (501 # 1000000000))%Q.
Proof.
  assert (Hf : is_float (5404319552844595 # 4503599627370496)) by by_computation.
  assert (H0 : (0 <= 5404319552844595 # 4503599627370496)%Q) by by_computation.
  assert (H1 : in_timedelta_range (5404319552844595 # 4503599627370496))
    by by_computation.
  split; [exact Hf|]. split; [exact H0|]. split; [exact H1|].
  exact (format_time_srt_truncates_rounded (5404319552844595 # 4503599627370496) Hf H0 H1).
Defined.

(** C4 as stated fails in three ways.  0.9999996 seconds are rounded up to
    one second by [timedelta], so the formatted value exceeds the input.
    1.2000004 seconds are rounded to 1.2 seconds, whose float lies just
    below 1.2 and is rendered [00:00:01,199]: more than a millisecond below
    the input.  And [10^9] days, which are 86400000000000 seconds, make
    [timedelta] raise, so no string is produced. *)
Lemma format_time_srt_rounds_up_and_overflows :
  ((0 <= py_float 0.9999996)%Q /\
   format_time_srt (py_float 0.9999996) = Return (utf8 "00:00:01,000") /\
   parse_srt (utf8 "00:00:01,000") = Some (0, 0, 1, 0)%N /\
   (py_float 0.9999996 < srt_value (0, 0, 1, 0)%N)%Q) /\
  ((0 <= py_float 1.2000004)%Q /\
   format_time_srt (py_float 1.2000004) = Return (utf8 "00:00:01,199") /\
   parse_srt (utf8 "00:00:01,199") = Some (0, 0, 1, 199)%N /\
   (srt_value (0, 0, 1, 199)%N + (1 # 1000) < py_float 1.2000004)%Q) /\
  ((0 <= 86400000000000)%Q /\ is_float 86400000000000 /\
   format_time_srt 86400000000000
     = Raise (utf8 "days=1000000000; must have magnitude <= 999999999")).
Proof. by_computation. Qed.

(** C8 at 75.9 seconds, the float [2670493841542349 / 2^45]: one minute,
    fifteen seconds. *)
Lemma format_time_display_spec_witness :
  is_float (2670493841542349 # 35184372088832) /\
  (0 <= 2670493841542349 # 35184372088832 < 9007199254740992)%Q /\
  re_match DISPLAY_PATTERN (format_time_display (2670493841542349 # 35184372088832)) /\
  parse_display (format_time_display (2670493841542349 # 35184372088832))
    = Some (1, 15)%N.
Proof.
  assert (Hf : is_float (2670493841542349 # 35184372088832)) by by_computation.
  assert (H0 : (0 <= 2670493841542349 # 35184372088832 < 9007199254740992)%Q)
    by by_computation.
  split; [exact Hf|]. split; [exact H0|].
  exact (format_time_display_spec (2670493841542349 # 35184372088832) Hf H0).
Defined.

(** C8 as stated fails for a large float.  [10^22] seconds are a float; the
    quotient of the float division by 60 is rounded, and the minute field is
    166666666666666655744, where [floor(10^22 / 60)] is
    166666666666666666666. *)
Lemma format_time_display_large_minutes :
  is_float 10000000000000000000000 /\ (0 <= 10000000000000000000000)%Q /\
  format_time_display 10000000000000000000000 = utf8 "166666666666666655744:40" /\
  parse_display (utf8 "166666666666666655744:40")
    = Some (166666666666666655744, 40)%N /\
  Qfloor (10000000000000000000000 / 60) = 166666666666666666666.
Proof. by_computation. Qed.

(** C6: the amended statement on two segments. *)
Lemma generate_srt_content_blocks_witness :
  Forall times_in_range sample_subtitles /\
  exists blocks,
    generate_srt_content sample_subtitles = Return (List.concat blocks) /\
    List.length blocks = 2%nat /\
    (forall k segment,
        nth_error sample_subtitles k = Some segment ->
        exists start_time end_time,
          format_time_srt (sub_start segment) = Return start_time /\
          format_time_srt (sub_end segment) = Return end_time /\
          nth_error blocks k
            = Some (srt_block (Z.of_nat k + 1) start_time end_time segment)) /\
    (sample_subtitles = [] -> generate_srt_content sample_subtitles = Return []).
Proof.
  assert (H0 : Forall times_in_range sample_subtitles).
  { repeat constructor; by_computation. }
  split; [exact H0|].
  exact (generate_srt_content_blocks sample_subtitles H0).
Defined.

(** C6 as stated fails on a segment whose end time [timedelta] rejects: the
    renderer raises instead of returning blocks. *)
Lemma generate_srt_content_raises_out_of_range :
  generate_srt_content
    [ {| sub_start := 0; sub_end := 86400000000000;
         english := utf8 "Hi"; japanese := utf8 "JA:Hi" |} ]
  = Raise (utf8 "days=1000000000; must have magnitude <= 999999999").
Proof. by_computation. Qed.

(** C1 on the segments [{0,2,"Hi"}, {2,4,"  "}, {4,6,"Bye"}]: exactly two
    subtitle segments, the first from 0 to 2 and the second from 4 to 6. *)
Lemma create_subtitle_segments_keeps_nonblank_witness :
  tr_segments sample_result = Some sample_segments /\
  sample_segments <> [] /\
  exists out w',
    @create_subtitle_segments _ _ _ (scripted sample_script) sample_self
      (inr sample_result) [] = (Return (inr out), w') /\
    map (fun sub => (sub_start sub, sub_end sub)) out = [(0%Q, 2%Q); (4%Q, 6%Q)] /\
    List.length out = 2%nat.
Proof.
  assert (H0 : tr_segments sample_result = Some sample_segments) by reflexivity.
  assert (H1 : sample_segments <> []) by discriminate.
  split; [exact H0|]. split; [exact H1|].
  exact (@create_subtitle_segments_keeps_nonblank _ _ _ (scripted sample_script)
           sample_self sample_result sample_segments [] H0 H1).
Defined.

(** C2 with no segments, a duration of 12.5 and the text "Hello". *)
Lemma create_subtitle_segments_whole_clip_witness :
  dict_get (tr_segments whole_clip_result) [] = [] /\
  exists ja w',
    @translate_to_japanese _ _ _ (scripted sample_script) sample_self
      (utf8 "Hello") (utf8 "subtitle") [] = (Return ja, w') /\
    @create_subtitle_segments _ _ _ (scripted sample_script) sample_self
      (inr whole_clip_result) []
    = (Return (inr [ {| sub_start := 0; sub_end := 12.5;
                        english := utf8 "Hello"; japanese := ja |} ]), w').
Proof.
  assert (H0 : dict_get (tr_segments whole_clip_result) [] = []) by reflexivity.
  split; [exact H0|].
  exact (@create_subtitle_segments_whole_clip _ _ _ (scripted sample_script)
           sample_self whole_clip_result [] H0).
Defined.

(** C9 on a result with no key at all: one segment from 0 to 0 with an empty
    English text. *)
Lemma fallback_segment_is_never_dropped_witness :
  dict_get (tr_segments bare_result) [] = [] /\
  exists segment w',
    @create_subtitle_segments _ _ _ (scripted sample_script) sample_self
      (inr bare_result) [] = (Return (inr [segment]), w') /\
    sub_start segment = 0%Q /\ sub_end segment = 0%Q /\ english segment = [].
Proof.
  assert (H0 : dict_get (tr_segments bare_result) [] = []) by reflexivity.
  split; [exact H0|].
  exact (@fallback_segment_is_never_dropped _ _ _ (scripted sample_script)
           sample_self bare_result [] H0).
Defined.

(** C10 on a segment with the text "  Yes " and neither [start] nor [end]:
    the emitted segment spans 0 to 0 and carries "Yes". *)
Lemma emitted_segment_carries_stripped_text_witness :
  tr_segments untimed_result = Some (firstn 1 sample_segments ++ untimed_segment :: []) /\
  strip (dict_get (seg_text untimed_segment) []) <> [] /\
  exists out_pre w1 ja w2 out_post w3,
    @segments_loop _ _ _ (scripted sample_script) sample_self
      (firstn 1 sample_segments) [] [] = (Return out_pre, w1) /\
    @translate_to_japanese _ _ _ (scripted sample_script) sample_self
      (utf8 "Yes") (utf8 "subtitle") w1 = (Return ja, w2) /\
    @segments_loop _ _ _ (scripted sample_script) sample_self [] [] w2
      = (Return out_post, w3) /\
    @create_subtitle_segments _ _ _ (scripted sample_script) sample_self
      (inr untimed_result) []
    = (Return (inr (out_pre
                    ++ {| sub_start := 0; sub_end := 0;
                          english := utf8 "Yes"; japanese := ja |} :: out_post)), w3).
Proof.
  assert (H0 : tr_segments untimed_result
               = Some (firstn 1 sample_segments ++ untimed_segment :: [])) by reflexivity.
  assert (H1 : strip (dict_get (seg_text untimed_segment) []) <> []) by by_computation.
  split; [exact H0|]. split; [exact H1|].
  exact (@emitted_segment_carries_stripped_text _ _ _ (scripted sample_script)
           sample_self untimed_result (firstn 1 sample_segments) [] untimed_segment []
           H0 H1).
Defined.


(** C5 in the sample world, where the API rejects the first request: the log
    shows the first request, the seek back to 0, the second request without
    the parameter, and the closing of the file. *)
Lemma transcription_adapter_falls_back_once_witness :
  client sample_self = Some tt /\
  @validate_wav_file _ _ _ (scripted sample_script) (utf8 "talk.wav") []
  = (Return (true, utf8 "WAVファイルは有効です"),
     [EvWaveOpen (utf8 "talk.wav"); EvGetSize (utf8 "talk.wav")]) /\
  @open_rb _ _ _ (scripted sample_script) (utf8 "talk.wav")
    [EvWaveOpen (utf8 "talk.wav"); EvGetSize (utf8 "talk.wav")]
  = (Return 3%nat,
     [EvWaveOpen (utf8 "talk.wav"); EvGetSize (utf8 "talk.wav"); EvOpen (utf8 "talk.wav")]) /\
  @transcribe_english_with_timestamps _ _ _ (scripted sample_script) sample_self
    (utf8 "talk.wav") []
  = (Return (inr sample_result),
     [EvWaveOpen (utf8 "talk.wav"); EvGetSize (utf8 "talk.wav"); EvOpen (utf8 "talk.wav");
      EvTranscribe (primary_request 3%nat); EvSeek 3 0;
      EvTranscribe (fallback_request 3%nat); EvClose 3]).
Proof.
  assert (H0 : client sample_self = Some tt) by reflexivity.
  assert (H1 : @validate_wav_file _ _ _ (scripted sample_script) (utf8 "talk.wav") []
               = (Return (true, utf8 "WAVファイルは有効です"),
                  [EvWaveOpen (utf8 "talk.wav"); EvGetSize (utf8 "talk.wav")]))
    by reflexivity.
  assert (H2 : @open_rb _ _ _ (scripted sample_script) (utf8 "talk.wav")
                 [EvWaveOpen (utf8 "talk.wav"); EvGetSize (utf8 "talk.wav")]
               = (Return 3%nat,
                  [EvWaveOpen (utf8 "talk.wav"); EvGetSize (utf8 "talk.wav");
                   EvOpen (utf8 "talk.wav")]))
    by reflexivity.
  split; [exact H0|]. split; [exact H1|]. split; [exact H2|].
  exact (proj2 (@transcription_adapter_falls_back_once _ _ _ (scripted sample_script)
                  sample_self tt (utf8 "talk.wav") (utf8 "WAVファイルは有効です") 3%nat
                  [] _ _ H0 H1 H2)).
Defined.

(** C7 in the sample world: an [.mp3] path is turned away after the first
    progress report, and the log holds nothing else. *)
Lemma checks_come_before_any_request_witness :
  client sample_self = Some tt /\
  endswith (lower (utf8 "talk.mp3")) (utf8 ".wav") = false /\
  @process_wav_file _ _ _ (scripted sample_script) sample_self (utf8 "talk.mp3")
    logging_callback []
  = (Return (inl MSG_WAV_ONLY), [EvProgress (utf8 "WAVファイルを確認中...")]).
Proof.
  assert (H0 : client sample_self = Some tt) by reflexivity.
  assert (H1 : endswith (lower (utf8 "talk.mp3")) (utf8 ".wav") = false) by reflexivity.
  split; [exact H0|]. split; [exact H1|].
  exact (proj1 (@checks_come_before_any_request _ _ _ (scripted sample_script)
                  sample_self tt (utf8 "talk.mp3") [] H0)
           logging_callback [EvProgress (utf8 "WAVファイルを確認中...")] H1 eq_refl).
Defined.

(** ** Sample runs of the program *)

Example process_wav_file_sample_run :
  exists result,
    @process_wav_file _ _ _ (scripted sample_script) sample_self (utf8 "Talk.WAV")
      logging_callback []
    = (Return (inr result),
       [EvProgress (utf8 "WAVファイルを確認中...");
        EvProgress (utf8 "英語音声を認識中...");
        EvWaveOpen (utf8 "Talk.WAV"); EvGetSize (utf8 "Talk.WAV"); EvOpen (utf8 "Talk.WAV");
        EvTranscribe (primary_request 3%nat); EvSeek 3 0;
        EvTranscribe (fallback_request 3%nat); EvClose 3;
        EvProgress (utf8 "日本語に翻訳中...");
        EvChat (subtitle_request (utf8 "Hi")); EvChat (subtitle_request (utf8 "Bye"));
        EvProgress (utf8 "完了！")]) /\
    pr_segments result
    = inr [ {| sub_start := 0; sub_end := 2; english := utf8 "Hi";
               japanese := utf8 "JA:Hi" |};
            {| sub_start := 4; sub_end := 6; english := utf8 "Bye";
               japanese := utf8 "翻訳エラー: rate limit" |} ].
Proof. eexists. split; vm_compute; reflexivity. Qed.

Example corrupt_file_sample_run :
  @process_wav_file _ _ _ (scripted corrupt_script) sample_self (utf8 "talk.wav") None []
  = (Return (inl (utf8 "WAVファイルの読み込みエラー: file does not start with RIFF id")),
     [EvWaveOpen (utf8 "talk.wav")]).
Proof. vm_compute. reflexivity. Qed.

Example huge_file_sample_run :
  @process_wav_file _ _ _ (scripted huge_script) sample_self (utf8 "talk.wav") None []
  = (Return (inl (utf8 "ファイルサイズが大きすぎます: ?MB（上限: 25MB）")),
     [EvWaveOpen (utf8 "talk.wav"); EvGetSize (utf8 "talk.wav")]).
Proof. vm_compute. reflexivity. Qed.

Example generate_srt_content_sample_run :
  generate_srt_content sample_subtitles
  = Return (utf8 "1
00:00:00,000 --> 00:00:02,500
JA:Hi

2
00:00:04,000 --> 01:01:01,001
JA:Bye

").
Proof. vm_compute. reflexivity. Qed.

(** * Further properties *)

(** ** [strip] *)

Lemma lstrip_head (s : str) :
  match lstrip s with
  | [] => True
  | c :: _ => isspace c = false
  end.
Proof.
  induction s as [|c s IH]; cbn; [exact I|].
  destruct (isspace c) eqn:Hc; [exact IH|exact Hc].
Qed.

Lemma lstrip_nil_iff (s : str) :
  lstrip s = [] <-> Forall (fun c => isspace c = true) s.
Proof.
  induction s as [|c s IH]; cbn.
  - split; [constructor|reflexivity].
  - destruct (isspace c) eqn:Hc.
    + rewrite IH. split; [intros H; constructor; assumption|].
      intros H. inversion H; assumption.
    + split; [discriminate|]. intros H. inversion H; congruence.
Qed.

Lemma lstrip_decompose (s : str) :
  exists spaces, s = spaces ++ lstrip s /\ Forall (fun c => isspace c = true) spaces.
Proof.
  induction s as [|c s (spaces & Heq & Hsp)]; cbn.
  - exists []. split; [reflexivity|constructor].
  - destruct (isspace c) eqn:Hc.
    + exists (c :: spaces). split; [cbn; congruence|constructor; assumption].
    + exists []. split; [reflexivity|constructor].
Qed.

Lemma lstrip_app_nonspace (s : str) (c : char) :
  isspace c = false -> lstrip (s ++ [c]) = lstrip s ++ [c].
Proof.
  intros Hc. induction s as [|d s IH]; cbn.
  - rewrite Hc. reflexivity.
  - destruct (isspace d); [exact IH|reflexivity].
Qed.

Lemma rstrip_cons_nonspace (c : char) (s : str) :
  isspace c = false -> rstrip (c :: s) = c :: rstrip s.
Proof.
  intros Hc. unfold rstrip. cbn [rev].
  rewrite (lstrip_app_nonspace (rev s) c Hc), rev_app_distr. reflexivity.
Qed.

Lemma rstrip_nil_iff (s : str) :
  rstrip s = [] <-> Forall (fun c => isspace c = true) s.
Proof.
  unfold rstrip. split.
  - intros H. apply (f_equal (@rev char)) in H. rewrite rev_involutive in H. cbn in H.
    apply lstrip_nil_iff in H. apply Forall_rev in H. rewrite rev_involutive in H.
    exact H.
  - intros H. apply Forall_rev in H. apply lstrip_nil_iff in H. rewrite H. reflexivity.
Qed.

Lemma rstrip_last (s : str) (c : char) :
  isspace c = false -> isspace (last (rstrip s) c) = false.
Proof.
  intros Hc. unfold rstrip.
  pose proof (lstrip_head (rev s)) as Hhead.
  destruct (lstrip (rev s)) as [|d v]; cbn [rev]; [exact Hc|].
  rewrite last_last. exact Hhead.
Qed.

Lemma rstrip_decompose (s : str) :
  exists spaces, s = rstrip s ++ spaces /\ Forall (fun c => isspace c = true) spaces.
Proof.
  destruct (lstrip_decompose (rev s)) as (spaces & Heq & Hsp).
  exists (rev spaces). split.
  - unfold rstrip. rewrite <- rev_app_distr, <- Heq, rev_involutive. reflexivity.
  - apply Forall_rev. exact Hsp.
Qed.

(** [strip] on a string that starts with a character that is not
    whitespace. *)
Lemma strip_shape (s : str) :
  strip s = match lstrip s with
            | [] => []
            | c :: s' => c :: rstrip s'
            end.
Proof.
  unfold strip. pose proof (lstrip_head s) as Hhead.
  destruct (lstrip s) as [|c s']; [reflexivity|].
  apply rstrip_cons_nonspace. exact Hhead.
Qed.

Lemma strip_nil_iff (s : str) :
  strip s = [] <-> Forall (fun c => isspace c = true) s.
Proof.
  rewrite strip_shape, <- lstrip_nil_iff.
  destruct (lstrip s); split; (reflexivity || discriminate).
Qed.

Lemma strip_trimmed (s : str) : trimmed (strip s).
Proof.
  rewrite strip_shape. pose proof (lstrip_head s) as Hhead.
  destruct (lstrip s) as [|c s']; cbn; [exact I|].
  split; [exact Hhead|]. apply rstrip_last. exact Hhead.
Qed.

(** [strip] removes whitespace from both ends and nothing else: the
    string is its stripped part between two runs of whitespace, the stripped
    part has no whitespace at either end, and it is empty exactly when the
    string is whitespace only. *)
Lemma strip_removes_surrounding_whitespace_only (s : str) :
  (exists before after,
      s = before ++ strip s ++ after /\
      Forall (fun c => isspace c = true) before /\
      Forall (fun c => isspace c = true) after) /\
  trimmed (strip s) /\
  (strip s = [] <-> Forall (fun c => isspace c = true) s).
Proof.
  split; [|split; [apply strip_trimmed | apply strip_nil_iff]].
  destruct (lstrip_decompose s) as (before & Hb & Hsb).
  destruct (rstrip_decompose (lstrip s)) as (after & Ha & Hsa).
  exists before, after. split; [|split; assumption].
  unfold strip. rewrite <- Ha. exact Hb.
Qed.

(** ** More on the segment pipeline *)

Section PipelineMore.
Context {World Client Handle : Type} {platform : Platform World Client Handle}.
Variable self : @EnglishToJapaneseSubtitle Client.

Lemma kept_false_iff_blank (segment : RawSegment) :
  kept segment = false <-> blank segment.
Proof.
  unfold kept, blank. rewrite <- strip_nil_iff.
  destruct (strip (dict_get (seg_text segment) [])); split;
    (reflexivity || discriminate).
Qed.

(** A property of the subtitle segments that the loop adds holds of all it
    returns. *)
Lemma segments_loop_invariant (P : SubtitleSegment -> Prop) :
  (forall segment ja, kept segment = true -> P (subtitle_of segment ja)) ->
  forall (segments : list RawSegment) (acc out : list SubtitleSegment) (w w' : World),
    segments_loop self segments acc w = (Return out, w') ->
    Forall P acc -> Forall P out.
Proof.
  intros Hnew. induction segments as [|segment rest IH]; intros acc out w w' Hrun Hacc.
  - cbn in Hrun. unfold ret in Hrun. injection Hrun as <- _. exact Hacc.
  - destruct (kept segment) eqn:Hk.
    + destruct (translate_to_japanese_total self (strip (dict_get (seg_text segment) []))
                  (utf8 "subtitle") w) as (ja & w1 & Htr).
      rewrite (segments_loop_kept self segment rest acc ja w w1 Hk Htr) in Hrun.
      apply (IH _ _ _ _ Hrun). apply Forall_app. split; [exact Hacc|].
      constructor; [apply Hnew; exact Hk|constructor].
    + rewrite (segments_loop_dropped self segment rest acc w Hk) in Hrun.
      exact (IH _ _ _ _ Hrun Hacc).
Qed.

(** X1.  Whatever [create_subtitle_segments] returns for a result with
    segments, the English text of every subtitle segment is non-empty and has
    no whitespace at its start or at its end. *)
Theorem emitted_english_is_trimmed_and_nonempty (tr : TranscriptionResult)
    (first : RawSegment) (others : list RawSegment) (out : list SubtitleSegment)
    (w w' : World) :
  tr_segments tr = Some (first :: others) ->
  create_subtitle_segments self (inr tr) w = (Return (inr out), w') ->
  Forall (fun sub => english sub <> [] /\ trimmed (english sub)) out.
Proof.
  intros Hsegs Hrun. unfold create_subtitle_segments in Hrun.
  rewrite Hsegs in Hrun. cbn [dict_get] in Hrun. unfold bind, ret in Hrun.
  destruct (segments_loop self (first :: others) [] w) as [[e|out'] w1] eqn:Hloop;
    [discriminate|].
  injection Hrun as <- _.
  apply (segments_loop_invariant
           (fun sub => english sub <> [] /\ trimmed (english sub)))
    with (segments := first :: others) (acc := []) (w := w) (w' := w1).
  - intros segment ja Hk. cbn [subtitle_of english]. split.
    + unfold kept in Hk. destruct (strip (dict_get (seg_text segment) []));
        [discriminate|discriminate].
    + apply strip_trimmed.
  - exact Hloop.
  - constructor.
Qed.

Lemma segments_loop_all_blank (segments : list RawSegment)
    (acc : list SubtitleSegment) (w : World) :
  Forall blank segments ->
  segments_loop self segments acc w = (Return acc, w).
Proof.
  induction 1 as [|segment rest Hb _ IH]; [reflexivity|].
  apply kept_false_iff_blank in Hb.
  rewrite (segments_loop_dropped self segment rest acc w Hb). exact IH.
Qed.

(** X2.  For a result with segments, [create_subtitle_segments] returns the
    empty list exactly when the text of every segment is whitespace only or
    missing.  The whole-clip segment is not used then, and the world is left
    as it was: nothing is sent for translation. *)
Theorem all_blank_segments_give_nothing (tr : TranscriptionResult)
    (first : RawSegment) (others : list RawSegment) (w : World) :
  tr_segments tr = Some (first :: others) ->
  (Forall blank (first :: others) ->
   create_subtitle_segments self (inr tr) w = (Return (inr []), w)) /\
  (forall w', create_subtitle_segments self (inr tr) w = (Return (inr []), w') ->
              Forall blank (first :: others)).
Proof.
  intros Hsegs. split.
  - intros Hblank. unfold create_subtitle_segments. rewrite Hsegs. cbn [dict_get].
    unfold bind, ret. rewrite (segments_loop_all_blank (first :: others) [] w Hblank).
    reflexivity.
  - intros w' Hrun.
    destruct (segments_loop_total self (first :: others) w) as (out & w1 & Hloop & Hmap).
    unfold create_subtitle_segments in Hrun. rewrite Hsegs in Hrun.
    cbn [dict_get] in Hrun. unfold bind, ret in Hrun. rewrite Hloop in Hrun.
    injection Hrun as Hout _. subst out. cbn [map] in Hmap.
    symmetry in Hmap. apply map_eq_nil in Hmap.
    apply Forall_forall. intros segment Hin. apply kept_false_iff_blank.
    destruct (kept segment) eqn:Hk; [|reflexivity].
    assert (Hf : In segment (filter kept (first :: others)))
      by (apply filter_In; split; assumption).
    rewrite Hmap in Hf. destruct Hf.
Qed.

Lemma translate_to_japanese_without_key (english_text context : str) (w : World) :
  client self = None ->
  translate_to_japanese self english_text context w = (Return MSG_NO_API_KEY, w).
Proof. intros Hc. unfold translate_to_japanese. rewrite Hc. reflexivity. Qed.

Lemma segments_loop_without_key (segments : list RawSegment) :
  client self = None ->
  forall (acc : list SubtitleSegment) (w : World),
    exists out,
      segments_loop self segments acc w = (Return (acc ++ out), w) /\
      Forall (fun sub => japanese sub = MSG_NO_API_KEY) out.
Proof.
  intros Hc. induction segments as [|segment rest IH]; intros acc w.
  - exists []. rewrite app_nil_r. split; [reflexivity|constructor].
  - destruct (kept segment) eqn:Hk.
    + rewrite (segments_loop_kept self segment rest acc MSG_NO_API_KEY w w Hk
                 (translate_to_japanese_without_key _ _ w Hc)).
      destruct (IH (acc ++ [subtitle_of segment MSG_NO_API_KEY]) w) as (out & Hrun & Hall).
      exists (subtitle_of segment MSG_NO_API_KEY :: out). split.
      * rewrite Hrun, <- app_assoc. reflexivity.
      * constructor; [reflexivity|exact Hall].
    + rewrite (segments_loop_dropped self segment rest acc w Hk). apply IH.
Qed.

(** X3.  On an object without client (no API key accepted),
    [create_subtitle_segments] still returns its segments, leaves the world
    as it was (no request is sent) and stores the message that no API key is
    set as the Japanese text of every segment. *)
Theorem without_api_key_segments_carry_the_message (tr : TranscriptionResult)
    (w : World) :
  client self = None ->
  exists out,
    create_subtitle_segments self (inr tr) w = (Return (inr out), w) /\
    Forall (fun sub => japanese sub = MSG_NO_API_KEY) out.
Proof.
  intros Hc. unfold create_subtitle_segments.
  destruct (dict_get (tr_segments tr) []) as [|first others] eqn:Hsegs.
  - unfold bind, ret.
    rewrite (translate_to_japanese_without_key _ _ w Hc).
    eexists. split; [reflexivity|]. constructor; [reflexivity|constructor].
  - destruct (segments_loop_without_key (first :: others) Hc [] w) as (out & Hrun & Hall).
    exists out. unfold bind, ret. rewrite Hrun. split; [reflexivity|exact Hall].
Qed.

(** X4.  When the response of the API has no [segments] attribute, or an
    empty one, the result the adapter builds from it makes
    [create_subtitle_segments] return the whole clip as one segment: from 0
    to the duration of the response, with the text of the response. *)
Theorem response_without_segments_gives_whole_clip (transcript : Transcript)
    (w : World) :
  t_segments transcript = None \/ t_segments transcript = Some [] ->
  exists ja w',
    create_subtitle_segments self (inr (result_of_transcript transcript)) w
    = (Return (inr [ {| sub_start := 0;
                        sub_end := t_duration transcript;
                        english := t_text transcript;
                        japanese := ja |} ]), w').
Proof.
  intros Hnone.
  destruct (translate_to_japanese_total self (t_text transcript) (utf8 "subtitle") w)
    as (ja & w' & Htr).
  exists ja, w'. unfold create_subtitle_segments, result_of_transcript.
  cbn [tr_segments tr_text tr_duration dict_get].
  destruct Hnone as [-> | ->]; unfold bind, ret; rewrite Htr; reflexivity.
Qed.

End PipelineMore.

(** ** More on the adapter and on [process_wav_file] *)

Section AdapterMore.
Context {World Client Handle : Type} {platform : Platform World Client Handle}.
Variable self : @EnglishToJapaneseSubtitle Client.

(** X5.  [validate_wav_file] accepts a file exactly when [wave.open] reads
    it, its frame rate is not 0 and its size is at most 25 MiB (26214400
    bytes; the bound itself is accepted). *)
Theorem validate_wav_file_accepts_iff (wav_file message : str) (w w' : World) :
  validate_wav_file wav_file w = (Return (true, message), w') <->
  exists wf w1 file_size,
    wave_open wav_file w = (Return wf, w1) /\
    framerate wf <> 0 /\
    getsize wav_file w1 = (Return file_size, w') /\
    file_size <= 26214400 /\
    message = utf8 "WAVファイルは有効です".
Proof.
  unfold validate_wav_file. run. split.
  - destruct (wave_open wav_file w) as [[e|wf] w1]; [discriminate|].
    destruct (Z.eqb_spec (framerate wf) 0) as [Hzero|Hrate]; [discriminate|].
    destruct (getsize wav_file w1) as [[e|file_size] w2] eqn:Hsize; [discriminate|].
    destruct (Z.gtb_spec file_size (25 * 1024 * 1024)) as [Hbig|Hsmall]; [discriminate|].
    intros H. injection H as Hm Hw. subst w2.
    exists wf, w1, file_size.
    split; [reflexivity|]. split; [exact Hrate|]. split; [exact Hsize|].
    split; [lia|congruence].
  - intros (wf & w1 & file_size & Hwave & Hrate & Hsize & Hsmall & ->).
    rewrite Hwave.
    destruct (Z.eqb_spec (framerate wf) 0) as [Hzero|_]; [contradiction|].
    rewrite Hsize.
    destruct (Z.gtb_spec file_size (25 * 1024 * 1024)) as [Hbig|_]; [lia|reflexivity].
Qed.

(** X6.  [validate_wav_file] rejects a file in two ways only: with a read
    error that carries the cause (a failure of [wave.open] or of
    [os.path.getsize], or a header with a frame rate of 0, for which the
    division that computes the duration fails before the size is asked for),
    or with the message that the file is too large, when its size is above
    25 MiB. *)
Theorem validate_wav_file_rejects_in_two_ways (wav_file : str) (w : World) :
  (forall message w',
      validate_wav_file wav_file w = (Return (false, message), w') ->
      (exists e, message = utf8 "WAVファイルの読み込みエラー: " ++ e) \/
      (exists wf w1 file_size,
          wave_open wav_file w = (Return wf, w1) /\
          getsize wav_file w1 = (Return file_size, w') /\
          26214400 < file_size /\
          message = utf8 "ファイルサイズが大きすぎます: "
                    ++ format_1f (inject_Z file_size / inject_Z (1024 * 1024))%Q
                    ++ utf8 "MB（上限: 25MB）")) /\
  (forall wf w1,
      wave_open wav_file w = (Return wf, w1) ->
      framerate wf = 0 ->
      validate_wav_file wav_file w
      = (Return (false, utf8 "WAVファイルの読み込みエラー: "
                        ++ utf8 "float division by zero"), w1)).
Proof.
  split.
  - intros message w'. unfold validate_wav_file. run.
    destruct (wave_open wav_file w) as [[e|wf] w1] eqn:Hwave.
    { intros H. injection H as <- _. left. eexists. reflexivity. }
    destruct (Z.eqb_spec (framerate wf) 0) as [Hzero|Hrate].
    { intros H. injection H as <- _. left. eexists. reflexivity. }
    destruct (getsize wav_file w1) as [[e|file_size] w2] eqn:Hsize.
    { intros H. injection H as <- _. left. eexists. reflexivity. }
    destruct (Z.gtb_spec file_size (25 * 1024 * 1024)) as [Hbig|Hsmall]; [|discriminate].
    intros H. injection H as <- <-. right.
    exists wf, w1, file_size. repeat split; try assumption; try reflexivity; lia.
  - intros wf w1 Hwave Hrate. unfold validate_wav_file. run. rewrite Hwave, Hrate.
    reflexivity.
Qed.

(** X7.  Once validation has passed, every message the adapter returns in
    place of a result starts with the label of a recognition error: this
    covers a file that cannot be opened, a failed seek and a failed
    request. *)
Theorem adapter_errors_are_labelled (c : Client) (audio_file message failure : str)
    (w w1 w' : World) :
  client self = Some c ->
  validate_wav_file audio_file w = (Return (true, message), w1) ->
  transcribe_english_with_timestamps self audio_file w = (Return (inl failure), w') ->
  exists e, failure = utf8 "英語音声認識エラー: " ++ e.
Proof.
  intros Hc Hv. unfold transcribe_english_with_timestamps. rewrite Hc.
  unfold bind at 1. rewrite Hv. cbn [negb]. run.
  destruct (open_rb audio_file w1) as [[e|audio] w2].
  { intros H. injection H as <- _. eexists. reflexivity. }
  destruct (transcriptions_create c _ w2) as [[e1|transcript] w3]; [|discriminate].
  destruct (seek audio 0 w3) as [[e|u] w4].
  { intros H. injection H as <- _. eexists. reflexivity. }
  destruct (transcriptions_create c _ w4) as [[e2|transcript] w5]; [|discriminate].
  intros H. injection H as <- _. eexists. reflexivity.
Qed.

(** When the file cannot be opened for the upload, the adapter returns the
    labelled message and sends no request: the world is the one the failed
    [open] left. *)
Lemma adapter_open_failure_sends_nothing (c : Client) (audio_file message : str)
    (e : exc) (w w1 w2 : World) :
  client self = Some c ->
  validate_wav_file audio_file w = (Return (true, message), w1) ->
  open_rb audio_file w1 = (Raise e, w2) ->
  transcribe_english_with_timestamps self audio_file w
  = (Return (inl (utf8 "英語音声認識エラー: " ++ e)), w2).
Proof.
  intros Hc Hv Hopen. unfold transcribe_english_with_timestamps. rewrite Hc.
  unfold bind at 1. rewrite Hv. cbn [negb]. run. rewrite Hopen. reflexivity.
Qed.

Lemma create_subtitle_segments_returns_list (tr : TranscriptionResult) (w : World) :
  exists out w', create_subtitle_segments self (inr tr) w = (Return (inr out), w').
Proof.
  unfold create_subtitle_segments.
  destruct (dict_get (tr_segments tr) []) as [|first others].
  - destruct (translate_to_japanese_total self (dict_get (tr_text tr) [])
                (utf8 "subtitle") w) as (ja & w' & Htr).
    unfold bind, ret. rewrite Htr. eauto.
  - destruct (segments_loop_total self (first :: others) w) as (out & w' & Hrun & _).
    unfold bind, ret. rewrite Hrun. eauto.
Qed.

(** X8.  [process_wav_file] never raises, whatever the progress callback
    does: an exception of the callback comes back as a message with the
    label of a processing error.  In particular, when the first report
    raises, that message is the result and nothing else has happened. *)
Theorem process_wav_file_never_raises (file_path : str)
    (progress_callback : option (str -> M World unit)) (w : World) :
  (exists r w', process_wav_file self file_path progress_callback w = (Return r, w')) /\
  (forall e w1,
      report progress_callback (utf8 "WAVファイルを確認中...") w = (Raise e, w1) ->
      process_wav_file self file_path progress_callback w
      = (Return (inl (utf8 "処理エラー: " ++ e)), w1)).
Proof.
  split.
  - unfold process_wav_file, try_except.
    match goal with |- context [match ?body w with _ => _ end] =>
      destruct (body w) as [[e|r] w1] end; unfold ret; eauto.
  - intros e w1 Hreport. unfold process_wav_file. run. rewrite Hreport. reflexivity.
Qed.

(** X9.  A result of [process_wav_file] that is not a message means that the
    path ends in [.wav] (letters of either case), that the object has a
    client, and that the field [segments] holds a list of subtitle
    segments, never a message. *)
Theorem process_wav_file_success (file_path : str)
    (progress_callback : option (str -> M World unit)) (result : ProcessResult)
    (w w' : World) :
  process_wav_file self file_path progress_callback w = (Return (inr result), w') ->
  endswith (lower file_path) (utf8 ".wav") = true /\
  client self <> None /\
  exists subtitle_segments, pr_segments result = inr subtitle_segments.
Proof.
  unfold process_wav_file. unfold try_except, bind at 1.
  destruct (report progress_callback (utf8 "WAVファイルを確認中...") w) as [[e|u] w1];
    [unfold ret; discriminate|].
  destruct (endswith (lower file_path) (utf8 ".wav")) eqn:Hext;
    cbn [negb]; [|unfold ret; discriminate].
  unfold bind at 1.
  destruct (report progress_callback (utf8 "英語音声を認識中...") w1) as [[e|u2] w2];
    [unfold ret; discriminate|].
  unfold bind at 1.
  destruct (client self) as [c|] eqn:Hc.
  2:{ unfold transcribe_english_with_timestamps. rewrite Hc. unfold ret. discriminate. }
  destruct (transcribe_english_with_timestamps_total self file_path w2)
    as ([message|tr] & w3 & Htr); rewrite Htr; [unfold ret; discriminate|].
  unfold bind at 1.
  destruct (report progress_callback (utf8 "日本語に翻訳中...") w3) as [[e|u3] w4];
    [unfold ret; discriminate|].
  destruct (create_subtitle_segments_returns_list tr w4) as (out & w5 & Hcreate).
  unfold bind at 1. rewrite Hcreate.
  unfold bind at 1.
  destruct (report progress_callback (utf8 "完了！") w5) as [[e|u4] w6];
    [unfold ret; discriminate|].
  unfold ret. intros H. injection H as <- _.
  repeat split; [discriminate|]. exists out. reflexivity.
Qed.

(** X10.  On an object without client, [process_wav_file] with a path that
    ends in [.wav] returns the message that no API key is set; between the
    two progress reports and the return nothing happens: the file is not
    read and nothing is sent. *)
Theorem process_wav_file_without_key (file_path : str)
    (progress_callback : option (str -> M World unit)) (w w1 w2 : World) :
  client self = None ->
  endswith (lower file_path) (utf8 ".wav") = true ->
  report progress_callback (utf8 "WAVファイルを確認中...") w = (Return tt, w1) ->
  report progress_callback (utf8 "英語音声を認識中...") w1 = (Return tt, w2) ->
  process_wav_file self file_path progress_callback w
  = (Return (inl MSG_NO_API_KEY), w2).
Proof.
  intros Hc Hext Hr1 Hr2. unfold process_wav_file, transcribe_english_with_timestamps.
  rewrite Hc. run. rewrite Hr1, Hext. cbn [negb]. rewrite Hr2. reflexivity.
Qed.

End AdapterMore.

(** ** The extension test *)

Lemma str_eqb_eq (a b : str) : str_eqb a b = true <-> a = b.
Proof.
  revert b. induction a as [|x a IH]; intros [|y b]; cbn;
    try (split; (reflexivity || discriminate)).
  rewrite andb_true_iff, N.eqb_eq, IH. split.
  - intros [-> ->]. reflexivity.
  - intros H. injection H as -> ->. split; reflexivity.
Qed.

Lemma endswith_iff (s suffix : str) :
  endswith s suffix = true <-> exists stem, s = stem ++ suffix.
Proof.
  unfold endswith. rewrite andb_true_iff, Nat.leb_le, str_eqb_eq. split.
  - intros [Hlen Hskip].
    exists (firstn (List.length s - List.length suffix) s).
    rewrite <- Hskip at 2. symmetry. apply firstn_skipn.
  - intros [stem ->]. rewrite length_app. split; [lia|].
    replace (List.length stem + List.length suffix - List.length suffix)%nat
      with (List.length stem) by lia.
    rewrite skipn_app, skipn_all, Nat.sub_diag. reflexivity.
Qed.

Lemma lower_app (a b : str) : lower (a ++ b) = lower a ++ lower b.
Proof. apply flat_map_app. Qed.

(** What a character is, when it lower-cases to a single character. *)
Lemma lower_char_single (c x : char) :
  lower_char c = [x] ->
  (x = c /\ ~ (65 <= c <= 90)%N) \/ (65 <= c <= 90 /\ x = c + 32)%N \/ (c = 8490 /\ x = 107)%N.
Proof.
  unfold lower_char.
  destruct ((65 <=? c) && (c <=? 90))%N eqn:Hupper.
  - apply andb_true_iff in Hupper. destruct Hupper as [H1 H2].
    apply N.leb_le in H1, H2. intros H. injection H as <-. right; left. lia.
  - destruct (N.eqb_spec c 304); [discriminate|].
    destruct (N.eqb_spec c 8490).
    + intros H. injection H as <-. right; right. split; [assumption|reflexivity].
    + intros H. injection H as <-. left. split; [reflexivity|].
      intros [H1 H2]. apply N.leb_le in H1, H2. rewrite H1, H2 in Hupper. discriminate.
Qed.

(** The last character of a lower-cased string comes from the last character
    of the string. *)
Lemma lower_snoc_inv (p before : str) (x : char) :
  x <> 775%N ->
  lower p = before ++ [x] ->
  exists p' c, p = p' ++ [c] /\ lower p' = before /\ lower_char c = [x].
Proof.
  intros Hx H.
  assert (Hp : p <> []).
  { intros ->. cbn in H. destruct before; discriminate. }
  destruct (exists_last Hp) as (p' & c & ->).
  rewrite lower_app in H. change (lower [c]) with (lower_char c ++ []) in H.
  rewrite app_nil_r in H.
  exists p', c. split; [reflexivity|].
  unfold lower_char in *.
  destruct ((65 <=? c) && (c <=? 90))%N.
  { apply app_inj_tail in H. destruct H as [-> ->]. split; reflexivity. }
  destruct (c =? 304)%N.
  { change [105; 775]%N with ([105] ++ [775])%N in H. rewrite app_assoc in H.
    apply app_inj_tail in H. destruct H as [_ H]. congruence. }
  destruct (c =? 8490)%N;
    apply app_inj_tail in H; destruct H as [-> ->]; split; reflexivity.
Qed.

(** X11.  The extension test of [process_wav_file],
    [file_path.lower().endswith('.wav')], accepts exactly the paths whose
    last four characters are a dot, [w] or [W], [a] or [A], and [v] or
    [V]. *)
Theorem wav_extension_test_accepts_iff (file_path : str) :
  endswith (lower file_path) (utf8 ".wav") = true <->
  exists stem c0 c1 c2 c3,
    file_path = stem ++ [c0; c1; c2; c3] /\ is_wav_suffix c0 c1 c2 c3.
Proof.
  rewrite endswith_iff. change (utf8 ".wav") with [46; 119; 97; 118]%N. split.
  - intros [stem' Hlower].
    change [46; 119; 97; 118]%N with ([46; 119; 97] ++ [118])%N in Hlower.
    rewrite app_assoc in Hlower.
    apply lower_snoc_inv in Hlower; [|discriminate].
    destruct Hlower as (p3 & c3 & -> & Hlower & H3).
    change [46; 119; 97]%N with ([46; 119] ++ [97])%N in Hlower.
    rewrite app_assoc in Hlower.
    apply lower_snoc_inv in Hlower; [|discriminate].
    destruct Hlower as (p2 & c2 & -> & Hlower & H2).
    change [46; 119]%N with ([46] ++ [119])%N in Hlower.
    rewrite app_assoc in Hlower.
    apply lower_snoc_inv in Hlower; [|discriminate].
    destruct Hlower as (p1 & c1 & -> & Hlower & H1).
    apply lower_snoc_inv in Hlower; [|discriminate].
    destruct Hlower as (stem & c0 & -> & _ & H0).
    exists stem, c0, c1, c2, c3. split.
    + rewrite <- !app_assoc. reflexivity.
    + apply lower_char_single in H0, H1, H2, H3. unfold is_wav_suffix. lia.
  - intros (stem & c0 & c1 & c2 & c3 & -> & H0 & H1 & H2 & H3).
    exists (lower stem). rewrite lower_app. f_equal.
    destruct H1 as [-> | ->], H2 as [-> | ->], H3 as [-> | ->]; subst c0; reflexivity.
Qed.

(** ** More on [timedelta] and the SRT formatter *)

Lemma format_time_srt_returns_iff (s : Q) :
  (exists out, format_time_srt s = Return out) <-> in_timedelta_range s.
Proof.
  split; [|apply format_time_srt_returns].
  intros [out Hout].
  destruct (Z_le_dec (- MAX_DELTA_DAYS * 86400000000) (microseconds_of (py_float s)))
    as [Hlo|Hlo];
    [destruct (Z_lt_dec (microseconds_of (py_float s))
                 ((MAX_DELTA_DAYS + 1) * 86400000000)) as [Hhi|Hhi]|].
  - split; assumption.
  - unfold format_time_srt in Hout.
    rewrite timedelta_of_seconds_out_of_range in Hout; [discriminate|].
    unfold in_timedelta_range. lia.
  - unfold format_time_srt in Hout.
    rewrite timedelta_of_seconds_out_of_range in Hout; [discriminate|].
    unfold in_timedelta_range. lia.
Qed.




Lemma re_match_srt_starts_with_digit (s : str) :
  re_match SRT_PATTERN s -> exists c rest, s = c :: rest /\ is_digit c = true.
Proof.
  unfold SRT_PATTERN, two_or_more_digits. intros H.
  inversion H as [| |r1 r2 s1 s2 H1 H2| |]; subst.
  inversion H1 as [| |r1' r2' s11 s12 H11 H12| |]; subst.
  inversion H11 as [|c Hc| | |]; subst.
  exists c, (s12 ++ s2). split; [reflexivity|exact Hc].
Qed.

(** A float below half a microsecond under 0 has a negative number of
    microseconds: the next float below -0.0000005 is far enough from it for
    the product by [10^6] to stay below one half after rounding. *)
Lemma microseconds_of_negative (x : Q) :
  is_float x -> (x < - (1 # 2000000))%Q -> microseconds_of x <= -1.
Proof.
  intros Hf Hx. unfold microseconds_of, float_mul.
  assert (Hxn : (x <= 0)%Q) by lra.
  pose proof (Qfloor_bounds (- x)) as [Hf1 Hf2].
  rewrite (py_int_nonpos x Hxn).
  destruct (Qlt_le_dec (-1) x) as [Hfrac|Hwhole].
  - (* no whole second *)
    assert (H0 : Qfloor (- x) = 0) by (apply Qfloor_unique; change (inject_Z 0) with 0%Q; lra).
    rewrite H0. change (- 0 * 1000000) with 0. change (inject_Z (- 0)) with 0%Q.
    destruct (is_float_multiple x (-21) Hf) as (j & Hj).
    { change (pow2 (-21)) with (1 # 2097152)%Q. qabs x; lra. }
    change (pow2 (-21 - 52)) with (1 # 9444732965739290427392)%Q in Hj.
    assert (Hjz : j <= -4722366482869646).
    { assert (H : (inject_Z j < inject_Z (-4722366482869645))%Q).
      { change (inject_Z (-4722366482869645)) with (-4722366482869645)%Q. lra. }
      rewrite <- Zlt_Qlt in H. lia. }
    rewrite Zle_Qle in Hjz.
    change (inject_Z (-4722366482869646)) with (-4722366482869646)%Q in Hjz.
    set (y := (1000000 * (x - 0))%Q).
    assert (Hy : (y <= - (1 # 2) - (1 # 12100000000000000))%Q) by (unfold y; lra).
    assert (Hd : (double_round y < - (1 # 2))%Q).
    { destruct (Qlt_le_dec (-1) y) as [Hy1|Hy1].
      - assert (Hsmall : (Qabs y < pow2 0)%Q).
        { change (pow2 0) with 1%Q. qabs y; lra. }
        pose proof (double_round_error y 0 ltac:(lia) Hsmall) as Herr.
        change (pow2 (0 - 54)) with (1 # 18014398509481984)%Q in Herr.
        qabs (double_round y - y)%Q; lra.
      - apply (Qle_lt_trans _ (double_round (inject_Z (-1)))).
        + apply double_round_le. change (inject_Z (-1)) with (-1)%Q. exact Hy1.
        + rewrite double_round_Z by (vm_compute; discriminate). reflexivity. }
    pose proof (round_half_even_bounds (double_round y)) as [Hr _].
    assert (H : (inject_Z (round_half_even (double_round y)) < inject_Z 0)%Q).
    { change (inject_Z 0) with 0%Q. lra. }
    rewrite <- Zlt_Qlt in H. lia.
  - (* at least one whole second, and a fraction that is not positive *)
    assert (H1 : 1 <= Qfloor (- x)).
    { change 1 with (Qfloor 1). apply Qfloor_resp_le. lra. }
    assert (Hr : round_half_even
                   (double_round (1000000 * (x - inject_Z (- Qfloor (- x))))) <= 0).
    { apply (Z.le_trans _ (round_half_even (inject_Z 0)));
        [|rewrite round_half_even_inject; lia].
      apply round_half_even_le, double_round_nonpos.
      rewrite inject_Z_opp. change (inject_Z 0) with 0%Q. lra. }
    lia.
Qed.

Lemma format_0d_negative (width : nat) (z : Z) :
  z < 0 -> exists rest, format_0d width z = 45%N :: rest.
Proof.
  intros Hz. unfold format_0d.
  destruct (Z.ltb_spec z 0) as [_|Hge]; [|lia]. eexists. reflexivity.
Qed.

(** The hour field of a negative total number of seconds is negative. *)
Lemma hours_negative (t : Q) :
  (-86399999913600 <= t <= - (1 # 1048576))%Q ->
  py_int (float_floordiv t 3600) < 0.
Proof.
  intros [Ht0 Ht1].
  change 3600%Q with (inject_Z (Zpos 3600)).
  set (y := (t / inject_Z (Zpos 3600))%Q).
  assert (Hy : (-23999999976 <= y < 0)%Q).
  { unfold y. change (inject_Z (Zpos 3600)) with 3600%Q. split.
    - apply Qle_shift_div_l; [reflexivity|]. lra.
    - apply Qlt_shift_div_r; [reflexivity|]. lra. }
  assert (HK : -23999999976 <= Qfloor y <= -1).
  { pose proof (Qfloor_bounds y) as [H1 H2]. split.
    - rewrite <- (Qfloor_Z (-23999999976)). apply Qfloor_resp_le.
      change (inject_Z (-23999999976)) with (-23999999976)%Q. lra.
    - assert (H : (inject_Z (Qfloor y) < inject_Z 0)%Q) by (change (inject_Z 0) with 0%Q; lra).
      rewrite <- Zlt_Qlt in H. lia. }
  assert (HT : -23999999976 <= py_int y <= 0).
  { rewrite py_int_nonpos by lra. pose proof (Qfloor_bounds (- y)) as [H1 H2].
    assert (Ha : 0 <= Qfloor (- y)) by (change 0 with (Qfloor 0); apply Qfloor_resp_le; lra).
    assert (Hb : (inject_Z (Qfloor (- y)) < inject_Z 23999999977)%Q)
      by (change (inject_Z 23999999977) with 23999999977%Q; lra).
    rewrite <- Zlt_Qlt in Hb. lia. }
  rewrite (py_int_comp _ _ (float_floordiv_spec t 3600 ltac:(fold y; lia) ltac:(fold y; lia))).
  fold y. rewrite py_int_inject. lia.
Qed.

(** X13.  A negative seconds value is not refused: for every float below
    half a microsecond under 0 that [timedelta] accepts, [format_time_srt]
    returns a string that starts with a minus sign, which is not an SRT
    timestamp. *)
Theorem format_time_srt_negative_is_malformed (s : Q) :
  is_float s -> in_timedelta_range s -> (s < - (1 # 2000000))%Q ->
  exists rest,
    format_time_srt s = Return (45%N :: rest) /\
    ~ re_match SRT_PATTERN (45%N :: rest).
Proof.
  intros Hf Hrange Hneg.
  assert (Hxs : (py_float s == s)%Q) by exact Hf.
  assert (Hus : microseconds_of (py_float s) <= -1).
  { apply microseconds_of_negative; [apply double_round_is_float|]. rewrite Hxs. exact Hneg. }
  unfold format_time_srt.
  rewrite (timedelta_of_seconds_in_range s Hrange), total_seconds_normalised.
  unfold in_timedelta_range, MAX_DELTA_DAYS in Hrange.
  (* the total number of seconds is negative, and not below the range *)
  assert (Ht : (-86399999913600 <= double_round (microseconds_of (py_float s) # 1000000)
                <= - (1 # 1048576))%Q).
  { split.
    - apply (Qle_trans _ (double_round (inject_Z (-86399999913600)))).
      + rewrite double_round_Z by (vm_compute; discriminate). apply Qle_refl.
      + apply double_round_le. unfold Qle, inject_Z. cbn [Qnum Qden]. lia.
    - apply (Qle_trans _ (double_round (inject_Z (-1) * pow2 (-20)))).
      + apply double_round_le. change (inject_Z (-1) * pow2 (-20))%Q with (-1 # 1048576)%Q.
        unfold Qle. cbn [Qnum Qden]. lia.
      + pose proof (double_round_exact (-1) (-20) ltac:(lia) ltac:(vm_compute; discriminate))
          as He.
        unfold is_float in He. rewrite He. vm_compute. discriminate. }
  destruct (format_0d_negative 2 _ (hours_negative _ Ht)) as (digits & ->).
  rewrite <- app_comm_cons. eexists. split; [reflexivity|].
  intros Hmatch. apply re_match_srt_starts_with_digit in Hmatch.
  destruct Hmatch as (c & rest & Heq & Hc).
  apply (f_equal (hd 0%N)) in Heq. cbn [hd] in Heq. subst c. discriminate.
Qed.

(** The milliseconds shown grow with the total number of seconds. *)
Lemma milliseconds_shown_le (t1 t2 : Q) :
  (0 <= t1)%Q -> (t1 <= t2)%Q -> milliseconds_shown t1 <= milliseconds_shown t2.
Proof.
  intros H0 Hle. unfold milliseconds_shown, millisecond_field, float_mul.
  pose proof (Qfloor_bounds t1) as [Ha1 Ha2]. pose proof (Qfloor_bounds t2) as [Hb1 Hb2].
  assert (HT : Qfloor t1 <= Qfloor t2) by (apply Qfloor_resp_le; exact Hle).
  assert (Hn1 : (0 <= double_round ((t1 - inject_Z (Qfloor t1)) * 1000))%Q)
    by (apply double_round_nonneg; lra).
  assert (Hn2 : (0 <= double_round ((t2 - inject_Z (Qfloor t2)) * 1000))%Q)
    by (apply double_round_nonneg; lra).
  rewrite (py_int_nonneg _ Hn1), (py_int_nonneg _ Hn2).
  destruct (Z.eq_dec (Qfloor t1) (Qfloor t2)) as [Heq|Hne].
  - rewrite Heq. apply Z.add_le_mono_l. apply Qfloor_resp_le, double_round_le.
    rewrite <- Heq. lra.
  - assert (H1 : Qfloor (double_round ((t1 - inject_Z (Qfloor t1)) * 1000)) <= 1000).
    { apply (Z.le_trans _ (Qfloor (inject_Z 1000))); [|rewrite Qfloor_Z; lia].
      apply Qfloor_resp_le.
      apply (Qle_trans _ (double_round (inject_Z 1000))).
      - apply double_round_le. change (inject_Z 1000) with 1000%Q. lra.
      - rewrite double_round_Z by (vm_compute; discriminate). apply Qle_refl. }
    assert (H2 : 0 <= Qfloor (double_round ((t2 - inject_Z (Qfloor t2)) * 1000))).
    { change 0 with (Qfloor 0). apply Qfloor_resp_le. exact Hn2. }
    lia.
Qed.

(** X14.  The SRT formatter keeps the order of times: of two seconds values
    that are not negative, the later one never reads back as an earlier
    timestamp, float arithmetic included. *)
Theorem format_time_srt_is_monotone (s1 s2 : Q) :
  (0 <= s1)%Q -> (s1 <= s2)%Q -> in_timedelta_range s2 ->
  exists out1 out2 t1 t2,
    format_time_srt s1 = Return out1 /\ parse_srt out1 = Some t1 /\
    format_time_srt s2 = Return out2 /\ parse_srt out2 = Some t2 /\
    (srt_value t1 <= srt_value t2)%Q.
Proof.
  intros Hs1 Hle Hrange2.
  assert (Hx1 : (0 <= py_float s1)%Q) by (apply double_round_nonneg; exact Hs1).
  assert (Hx12 : (py_float s1 <= py_float s2)%Q) by (apply double_round_le; exact Hle).
  assert (Hx2 : (0 <= py_float s2)%Q) by lra.
  pose proof (microseconds_of_le _ _ Hx1 Hx12) as Hus.
  destruct (shown_bounds s1 Hx1) as (Hus1 & _).
  assert (Hrange1 : in_timedelta_range s1).
  { unfold in_timedelta_range, MAX_DELTA_DAYS in *. lia. }
  destruct (format_time_srt_reads_back s1 Hx1 Hrange1)
    as (out1 & h1 & m1 & sec1 & ms1 & Hf1 & _ & Hp1 & _ & Hv1).
  destruct (format_time_srt_reads_back s2 Hx2 Hrange2)
    as (out2 & h2 & m2 & sec2 & ms2 & Hf2 & _ & Hp2 & _ & Hv2).
  exists out1, out2, (h1, m1, sec1, ms1), (h2, m2, sec2, ms2).
  repeat split; try assumption.
  rewrite Hv1, Hv2.
  assert (Hshown : milliseconds_shown (total_seconds_of s1)
                   <= milliseconds_shown (total_seconds_of s2)).
  { apply milliseconds_shown_le; unfold total_seconds_of.
    - apply double_round_nonneg. unfold Qle. cbn [Qnum Qden]. lia.
    - apply double_round_le. unfold Qle. cbn [Qnum Qden]. lia. }
  rewrite Zle_Qle in Hshown. lra.
Qed.

(** ** More on [generate_srt_content] *)

Lemma srt_loop_returns_iff (subtitle_segments : list SubtitleSegment) :
  forall (i : Z) (srt_content : str),
    (exists out, srt_loop i subtitle_segments srt_content = Return out)
    <-> Forall times_in_range subtitle_segments.
Proof.
  induction subtitle_segments as [|segment rest IH]; intros i srt_content.
  - split; [constructor|]. intros _. eexists. reflexivity.
  - cbn [srt_loop]. split.
    + intros [out Hout].
      destruct (format_time_srt (sub_start segment)) as [e|st] eqn:Hst; [discriminate|].
      destruct (format_time_srt (sub_end segment)) as [e|et] eqn:Het; [discriminate|].
      constructor.
      * split; apply format_time_srt_returns_iff; eauto.
      * refine (proj1 (IH (i + 1) _) _). exists out. exact Hout.
    + intros Hall. inversion Hall as [|? ? [Hs He] Hrest]; subst.
      destruct (format_time_srt_returns _ Hs) as (st & ->).
      destruct (format_time_srt_returns _ He) as (et & ->).
      apply IH. exact Hrest.
Qed.

(** X15.  [generate_srt_content] returns a text exactly when [timedelta]
    accepts the start and the end of every segment; one value out of range
    anywhere in the sequence makes the whole rendering raise. *)
Theorem generate_srt_content_returns_iff (subtitle_segments : list SubtitleSegment) :
  (exists out, generate_srt_content subtitle_segments = Return out)
  <-> Forall times_in_range subtitle_segments.
Proof. apply srt_loop_returns_iff. Qed.

Lemma srt_loop_acc (subtitle_segments : list SubtitleSegment) :
  forall (i : Z) (srt_content : str),
    srt_loop i subtitle_segments srt_content
    = match srt_loop i subtitle_segments [] with
      | Return out => Return (srt_content ++ out)
      | Raise e => Raise e
      end.
Proof.
  induction subtitle_segments as [|segment rest IH]; intros i srt_content.
  - cbn. rewrite app_nil_r. reflexivity.
  - cbn [srt_loop].
    destruct (format_time_srt (sub_start segment)) as [e|st]; [reflexivity|].
    destruct (format_time_srt (sub_end segment)) as [e|et]; [reflexivity|].
    rewrite IH. symmetry. rewrite IH. cbn [app].
    destruct (srt_loop (i + 1) rest []) as [e|out]; [reflexivity|].
    rewrite <- !app_assoc. reflexivity.
Qed.

Lemma srt_loop_app (a b : list SubtitleSegment) :
  forall (i : Z) (srt_content : str),
    srt_loop i (a ++ b) srt_content
    = match srt_loop i a srt_content with
      | Return out => srt_loop (i + Z.of_nat (List.length a)) b out
      | Raise e => Raise e
      end.
Proof.
  induction a as [|segment rest IH]; intros i srt_content.
  - cbn. rewrite Z.add_0_r. reflexivity.
  - cbn [app srt_loop].
    destruct (format_time_srt (sub_start segment)) as [e|st]; [reflexivity|].
    destruct (format_time_srt (sub_end segment)) as [e|et]; [reflexivity|].
    rewrite IH. cbn [List.length].
    replace (i + 1 + Z.of_nat (List.length rest))
      with (i + Z.of_nat (S (List.length rest))) by lia.
    reflexivity.
Qed.

(** X16.  Rendering two sequences one after the other is rendering the first
    and then the second with its numbering continued: the SRT text of the
    first sequence is the beginning of the SRT text of the whole, and an
    error in the first sequence is the error of the whole. *)
Theorem generate_srt_content_app (a b : list SubtitleSegment) :
  generate_srt_content (a ++ b)
  = match generate_srt_content a with
    | Raise e => Raise e
    | Return out_a =>
        match srt_loop (Z.of_nat (List.length a) + 1) b [] with
        | Raise e => Raise e
        | Return out_b => Return (out_a ++ out_b)
        end
    end.
Proof.
  unfold generate_srt_content. rewrite srt_loop_app.
  destruct (srt_loop 1 a []) as [e|out_a]; [reflexivity|].
  rewrite srt_loop_acc. rewrite (Z.add_comm 1). reflexivity.
Qed.

(** ** [generate_bilingual_text] *)

Lemma bilingual_loop_blocks (subtitle_segments : list SubtitleSegment) :
  forall (i : Z) (text_content : str),
    bilingual_loop i subtitle_segments text_content
    = text_content
      ++ List.concat (map (fun p => bilingual_block (fst p) (snd p))
                        (enumerate i subtitle_segments)).
Proof.
  induction subtitle_segments as [|segment rest IH]; intros i text_content.
  - cbn. rewrite app_nil_r. reflexivity.
  - cbn [bilingual_loop enumerate map List.concat fst snd]. rewrite IH.
    unfold bilingual_block. rewrite <- !app_assoc. reflexivity.
Qed.

Lemma enumerate_nth_error {A : Type} (l : list A) :
  forall (i : Z) (k : nat) (x : A),
    nth_error l k = Some x -> nth_error (enumerate i l) k = Some (i + Z.of_nat k, x).
Proof.
  induction l as [|y l IH]; intros i [|k] x Hk; try discriminate.
  - cbn in *. injection Hk as ->. rewrite Z.add_0_r. reflexivity.
  - cbn [nth_error enumerate] in *. rewrite (IH (i + 1) k x Hk). do 2 f_equal. lia.
Qed.

Lemma enumerate_length {A : Type} (l : list A) :
  forall (i : Z), List.length (enumerate i l) = List.length l.
Proof. induction l as [|y l IH]; intros i; cbn; [reflexivity|]. rewrite IH. reflexivity. Qed.

(** X17.  The bilingual text is the banner followed by one block per
    subtitle segment, in order; the block of the [k]-th segment (counting
    from 1) carries the index [k], padded with zeros to three digits.  For
    the empty sequence the text is the banner alone. *)
Theorem generate_bilingual_text_blocks (generated_at : str)
    (subtitle_segments : list SubtitleSegment) :
  generate_bilingual_text generated_at subtitle_segments
  = bilingual_banner generated_at
    ++ List.concat (map (fun p => bilingual_block (fst p) (snd p))
                      (enumerate 1 subtitle_segments)) /\
  List.length (enumerate 1 subtitle_segments) = List.length subtitle_segments /\
  (forall k segment,
      nth_error subtitle_segments k = Some segment ->
      nth_error (enumerate 1 subtitle_segments) k = Some (1 + Z.of_nat k, segment)) /\
  generate_bilingual_text generated_at [] = bilingual_banner generated_at.
Proof.
  split; [|split; [|split]].
  - unfold generate_bilingual_text, bilingual_banner. rewrite bilingual_loop_blocks.
    rewrite <- !app_assoc. reflexivity.
  - apply enumerate_length.
  - intros k segment Hk. apply enumerate_nth_error. exact Hk.
  - unfold generate_bilingual_text, bilingual_banner. cbn [bilingual_loop].
    rewrite <- !app_assoc. reflexivity.
Qed.

(** ** The API key *)

Section ApiKeyProperties.
Context {World Client : Type} {service : KeyService World Client}.

(** X18.  [set_api_key] never raises.  It returns [True] exactly when the
    client could be built and the listing of the models succeeded, and then
    the object holds that client; in every other case it returns [False] and
    the object has no client, also when it had one before the call. *)
Theorem set_api_key_outcome (self : @EnglishToJapaneseSubtitle Client)
    (api_key : str) (w : World) :
  exists self' ok w',
    set_api_key self api_key w = (Return (self', ok), w') /\
    (ok = false -> client self' = None) /\
    (ok = true <->
     exists c w1,
       OpenAI api_key w = (Return c, w1) /\
       models_list c w1 = (Return tt, w') /\
       client self' = Some c).
Proof.
  unfold set_api_key. run.
  destruct (OpenAI api_key w) as [[e|c] w1] eqn:Hnew.
  - exists {| client := None |}, false, w1. split; [reflexivity|]. split; [reflexivity|].
    split; [discriminate|]. intros (c & w2 & H & _). discriminate.
  - destruct (models_list c w1) as [[e|[]] w2] eqn:Hlist.
    + exists {| client := None |}, false, w2. split; [reflexivity|].
      split; [reflexivity|]. split; [discriminate|].
      intros (c' & w3 & H & Hl & _). injection H as <- <-. congruence.
    + exists {| client := Some c |}, true, w2. split; [reflexivity|].
      split; [discriminate|]. split; [|reflexivity].
      intros _. exists c, w1. repeat split. exact Hlist.
Qed.

(** X19.  After a call of [set_api_key] that returned [False], the object
    translates nothing: [translate_to_japanese] returns the message that no
    API key is set and sends no request, whatever client the object had
    before the call. *)
Theorem failed_key_disables_translation {World' Handle : Type}
    {platform : Platform World' Client Handle}
    (self self' : @EnglishToJapaneseSubtitle Client) (api_key : str) (w w' : World) :
  set_api_key self api_key w = (Return (self', false), w') ->
  forall (english_text context : str) (w0 : World'),
    translate_to_japanese self' english_text context w0 = (Return MSG_NO_API_KEY, w0).
Proof.
  intros Hset english_text context w0.
  apply translate_to_japanese_without_key.
  unfold set_api_key in Hset. run.
  destruct (OpenAI api_key w) as [[e|c] w1].
  - injection Hset as <- _. reflexivity.
  - destruct (models_list c w1) as [[e|u] w2].
    + injection Hset as <- _. reflexivity.
    + discriminate.
Qed.

End ApiKeyProperties.

(** ** Requests in the scripted world *)

Section ScriptedRequests.
Variable script : Script.
Variable self : @EnglishToJapaneseSubtitle unit.
Hypothesis has_client : client self = Some tt.

Lemma scripted_translation_logs_request (english_text : str) (log : list event) :
  exists out,
    @translate_to_japanese _ _ _ (scripted script) self english_text (utf8 "subtitle") log
    = (Return out, log ++ [EvChat (subtitle_request english_text)]).
Proof.
  unfold translate_to_japanese. rewrite has_client. run.
  change (if str_eqb (utf8 "subtitle") (utf8 "subtitle") then SUBTITLE_PROMPT
          else GENERIC_PROMPT) with SUBTITLE_PROMPT.
  fold (subtitle_request english_text).
  cbn [chat_completions_create scripted]. unfold logged.
  destruct (on_chat script (subtitle_request english_text)) as [e|response]; [eauto|].
  destruct (choices response) as [|[content|] others]; eauto.
Qed.

Lemma scripted_loop_logs_requests (segments : list RawSegment) :
  forall (acc : list SubtitleSegment) (log : list event),
    exists out,
      @segments_loop _ _ _ (scripted script) self segments acc log
      = (Return out,
         log ++ map (fun segment =>
                       EvChat (subtitle_request (strip (dict_get (seg_text segment) []))))
                  (filter kept segments)).
Proof.
  induction segments as [|segment rest IH]; intros acc log.
  - exists acc. cbn. rewrite app_nil_r. reflexivity.
  - cbn [filter]. destruct (kept segment) eqn:Hk.
    + destruct (scripted_translation_logs_request
                  (strip (dict_get (seg_text segment) [])) log) as (ja & Htr).
      rewrite (@segments_loop_kept _ _ _ (scripted script) self segment rest acc ja
                 log _ Hk Htr).
      destruct (IH (acc ++ [subtitle_of segment ja])
                  (log ++ [EvChat (subtitle_request
                                     (strip (dict_get (seg_text segment) [])))]))
        as (out & Hrun).
      exists out. rewrite Hrun. cbn [map]. rewrite <- app_assoc. reflexivity.
    + rewrite (@segments_loop_dropped _ _ _ (scripted script) self segment rest acc
                 log Hk).
      apply IH.
Qed.

(** X20.  In a world that logs what is done to it, [create_subtitle_segments]
    on a result with segments adds to the log one chat request per segment
    with text, in the order of the segments, each for the stripped text in
    the subtitle context, and nothing else: no request for a blank segment,
    no second attempt after a failure, no access to a file. *)
Theorem one_chat_request_per_kept_segment (tr : TranscriptionResult)
    (first : RawSegment) (others : list RawSegment) (log : list event) :
  tr_segments tr = Some (first :: others) ->
  exists out,
    @create_subtitle_segments _ _ _ (scripted script) self (inr tr) log
    = (Return (inr out),
       log ++ map (fun segment =>
                     EvChat (subtitle_request (strip (dict_get (seg_text segment) []))))
                (filter (fun segment => truthy (strip (dict_get (seg_text segment) [])))
                   (first :: others))).
Proof.
  intros Hsegs.
  destruct (scripted_loop_logs_requests (first :: others) [] log) as (out & Hrun).
  exists out. unfold create_subtitle_segments. rewrite Hsegs. cbn [dict_get].
  unfold bind, ret. rewrite Hrun. reflexivity.
Qed.

End ScriptedRequests.

(** ** [__init__] *)

Section InitProperties.
Context {World Client : Type} {service : KeyService World Client}.

Lemma set_api_key_run (self : @EnglishToJapaneseSubtitle Client) (api_key : str)
    (w : World) :
  set_api_key self api_key w
  = match OpenAI api_key w with
    | (Raise _, w1) => (Return ({| client := None |}, false), w1)
    | (Return c, w1) =>
        match models_list c w1 with
        | (Raise _, w2) => (Return ({| client := None |}, false), w2)
        | (Return _, w2) => (Return ({| client := Some c |}, true), w2)
        end
    end.
Proof.
  unfold set_api_key. run.
  destruct (OpenAI api_key w) as [[e|c] w1]; [reflexivity|].
  destruct (models_list c w1) as [[e|u] w2]; reflexivity.
Qed.

(** X21.  When the imports of the module failed, the constructor returns
    at once: nothing is called, and the object is left without a [client]
    attribute.  Otherwise the new object has the attribute, and it holds a
    client exactly when the object was built with a non-empty key, the
    client could be constructed and the listing of the models succeeded;
    without a key, or with the empty key, nothing is called at all. *)
Theorem init_client_iff (IMPORTS_OK : bool) (api_key : option str) (w : World) :
  exists object w',
    init IMPORTS_OK api_key w = (Return object, w') /\
    (IMPORTS_OK = false -> object = None /\ w' = w) /\
    (IMPORTS_OK = true ->
     exists self',
       object = Some self' /\
       (client self' <> None <->
        exists key c w1,
          api_key = Some key /\ key <> [] /\
          OpenAI key w = (Return c, w1) /\ models_list c w1 = (Return tt, w')) /\
       (api_key = None \/ api_key = Some [] -> w' = w /\ client self' = None)).
Proof.
  unfold init. destruct IMPORTS_OK; cbn [negb].
  2:{ exists None, w. split; [reflexivity|]. split; [split; reflexivity|discriminate]. }
  destruct api_key as [[|k key]|]; cbn [truthy].
  - exists (Some {| client := None |}), w. split; [reflexivity|].
    split; [discriminate|]. intros _. exists {| client := None |}.
    split; [reflexivity|]. split; [|split; reflexivity].
    split; [intros H; contradiction H; reflexivity|].
    intros (key & c & w1 & Hk & Hne & _). injection Hk as <-. congruence.
  - unfold bind, ret. rewrite set_api_key_run.
    destruct (OpenAI (k :: key) w) as [[e|c] w1] eqn:Hnew.
    + exists (Some {| client := None |}), w1. split; [reflexivity|].
      split; [discriminate|]. intros _. exists {| client := None |}.
      split; [reflexivity|]. split.
      * split; [intros H; contradiction H; reflexivity|].
        intros (key' & c & w2 & Hk & _ & Hnew' & _). injection Hk as <-. congruence.
      * intros [H|H]; discriminate.
    + destruct (models_list c w1) as [[e|[]] w2] eqn:Hlist.
      * exists (Some {| client := None |}), w2. split; [reflexivity|].
        split; [discriminate|]. intros _. exists {| client := None |}.
        split; [reflexivity|]. split.
        -- split; [intros H; contradiction H; reflexivity|].
           intros (key' & c' & w1' & Hk & _ & Hnew' & Hlist'). injection Hk as <-.
           rewrite Hnew in Hnew'. injection Hnew' as <- <-. congruence.
        -- intros [H|H]; discriminate.
      * exists (Some {| client := Some c |}), w2. split; [reflexivity|].
        split; [discriminate|]. intros _. exists {| client := Some c |}.
        split; [reflexivity|]. split.
        -- split; [|discriminate]. intros _.
           exists (k :: key), c, w1. repeat split; try assumption. discriminate.
        -- intros [H|H]; discriminate.
  - exists (Some {| client := None |}), w. split; [reflexivity|].
    split; [discriminate|]. intros _. exists {| client := None |}.
    split; [reflexivity|]. split; [|split; reflexivity].
    split; [intros H; contradiction H; reflexivity|].
    intros (key & c & w1 & Hk & _). discriminate.
Qed.

End InitProperties.

(** ** The further properties on sample inputs *)

(** X1 on a sample input. *)
Lemma emitted_english_is_trimmed_and_nonempty_witness :
  tr_segments sample_result = Some sample_segments /\
  @create_subtitle_segments _ _ _ (scripted sample_script) sample_self
    (inr sample_result) [] = (Return (inr sample_output), sample_chat_log) /\
  Forall (fun sub => english sub <> [] /\ trimmed (english sub)) sample_output.
Proof.
  assert (H0 : tr_segments sample_result = Some sample_segments) by reflexivity.
  assert (H1 : @create_subtitle_segments _ _ _ (scripted sample_script) sample_self
                 (inr sample_result) [] = (Return (inr sample_output), sample_chat_log))
    by (vm_compute; reflexivity).
  split; [exact H0|]. split; [exact H1|].
  exact (@emitted_english_is_trimmed_and_nonempty _ _ _ (scripted sample_script)
           sample_self sample_result _ _ sample_output [] sample_chat_log H0 H1).
Defined.

(** X2 on a sample input. *)
Lemma all_blank_segments_give_nothing_witness :
  Forall blank (dict_get (tr_segments blank_result) []) /\
  @create_subtitle_segments _ _ _ (scripted sample_script) sample_self
    (inr blank_result) [] = (Return (inr []), []).
Proof.
  assert (H0 : Forall blank (dict_get (tr_segments blank_result) [])).
  { repeat constructor. }
  split; [exact H0|].
  exact (proj1 (@all_blank_segments_give_nothing _ _ _ (scripted sample_script)
                  sample_self blank_result _ _ [] eq_refl) H0).
Defined.

(** X3 on a sample input. *)
Lemma without_api_key_segments_carry_the_message_witness :
  client self_without_key = None /\
  exists out,
    @create_subtitle_segments _ _ _ (scripted sample_script) self_without_key
      (inr sample_result) [] = (Return (inr out), []) /\
    Forall (fun sub => japanese sub = MSG_NO_API_KEY) out.
Proof.
  split; [reflexivity|].
  exact (@without_api_key_segments_carry_the_message _ _ _ (scripted sample_script)
           self_without_key sample_result [] eq_refl).
Defined.

(** X4 on a sample input. *)
Lemma response_without_segments_gives_whole_clip_witness :
  (t_segments plain_transcript = None \/ t_segments plain_transcript = Some []) /\
  exists ja w',
    @create_subtitle_segments _ _ _ (scripted sample_script) sample_self
      (inr plain_result) []
    = (Return (inr [ {| sub_start := 0; sub_end := 12.5;
                        english := utf8 "Hello"; japanese := ja |} ]), w').
Proof.
  assert (H0 : t_segments plain_transcript = None \/ t_segments plain_transcript = Some [])
    by (left; reflexivity).
  split; [exact H0|].
  exact (@response_without_segments_gives_whole_clip _ _ _ (scripted sample_script)
           sample_self plain_transcript [] H0).
Defined.

(** X5 on a sample input. *)
Lemma validate_wav_file_accepts_iff_witness :
  @validate_wav_file _ _ _ (scripted sample_script) (utf8 "talk.wav") []
  = (Return (true, utf8 "WAVファイルは有効です"),
     [EvWaveOpen (utf8 "talk.wav"); EvGetSize (utf8 "talk.wav")]).
Proof.
  apply (proj2 (@validate_wav_file_accepts_iff _ _ _ (scripted sample_script)
                  (utf8 "talk.wav") (utf8 "WAVファイルは有効です") []
                  [EvWaveOpen (utf8 "talk.wav"); EvGetSize (utf8 "talk.wav")])).
  exists {| nchannels := 1; sampwidth := 2; framerate := 16000; nframes := 96000 |},
    [EvWaveOpen (utf8 "talk.wav")], 1000.
  repeat split; (discriminate || reflexivity).
Defined.

(** X6 on a sample input. *)
Lemma validate_wav_file_rejects_in_two_ways_witness :
  @validate_wav_file _ _ _ (scripted zero_rate_script) (utf8 "talk.wav") []
  = (Return (false, utf8 "WAVファイルの読み込みエラー: " ++ utf8 "float division by zero"),
     [EvWaveOpen (utf8 "talk.wav")]).
Proof.
  exact (proj2 (@validate_wav_file_rejects_in_two_ways _ _ _ (scripted zero_rate_script)
                  (utf8 "talk.wav") [])
           {| nchannels := 1; sampwidth := 2; framerate := 0; nframes := 96000 |}
           [EvWaveOpen (utf8 "talk.wav")] eq_refl eq_refl).
Defined.

(** X7 on a sample input. *)
Lemma adapter_errors_are_labelled_witness :
  client sample_self = Some tt /\
  @validate_wav_file _ _ _ (scripted failing_api_script) (utf8 "talk.wav") []
  = (Return (true, utf8 "WAVファイルは有効です"),
     [EvWaveOpen (utf8 "talk.wav"); EvGetSize (utf8 "talk.wav")]) /\
  @transcribe_english_with_timestamps _ _ _ (scripted failing_api_script) sample_self
    (utf8 "talk.wav") []
  = (Return (inl (utf8 "英語音声認識エラー: " ++ utf8 "Connection error.")),
     sample_upload_log (utf8 "talk.wav")) /\
  exists e,
    utf8 "英語音声認識エラー: " ++ utf8 "Connection error." = utf8 "英語音声認識エラー: " ++ e.
Proof.
  assert (H0 : client sample_self = Some tt) by reflexivity.
  assert (H1 : @validate_wav_file _ _ _ (scripted failing_api_script) (utf8 "talk.wav") []
               = (Return (true, utf8 "WAVファイルは有効です"),
                  [EvWaveOpen (utf8 "talk.wav"); EvGetSize (utf8 "talk.wav")]))
    by reflexivity.
  assert (H2 : @transcribe_english_with_timestamps _ _ _ (scripted failing_api_script)
                 sample_self (utf8 "talk.wav") []
               = (Return (inl (utf8 "英語音声認識エラー: " ++ utf8 "Connection error.")),
                  sample_upload_log (utf8 "talk.wav")))
    by (vm_compute; reflexivity).
  split; [exact H0|]. split; [exact H1|]. split; [exact H2|].
  exact (@adapter_errors_are_labelled _ _ _ (scripted failing_api_script) sample_self tt
           _ _ _ [] _ _ H0 H1 H2).
Defined.

(** X8 on a sample input. *)
Lemma process_wav_file_never_raises_witness :
  @report (list event) raising_callback (utf8 "WAVファイルを確認中...") []
  = (Raise (utf8 "window closed"), [EvProgress (utf8 "WAVファイルを確認中...")]) /\
  @process_wav_file _ _ _ (scripted sample_script) sample_self (utf8 "talk.wav")
    raising_callback []
  = (Return (inl (utf8 "処理エラー: " ++ utf8 "window closed")),
     [EvProgress (utf8 "WAVファイルを確認中...")]).
Proof.
  split; [reflexivity|].
  exact (proj2 (@process_wav_file_never_raises _ _ _ (scripted sample_script) sample_self
                  (utf8 "talk.wav") raising_callback [])
           (utf8 "window closed") [EvProgress (utf8 "WAVファイルを確認中...")] eq_refl).
Defined.

(** X9 on a sample input. *)
Lemma process_wav_file_success_witness :
  @process_wav_file _ _ _ (scripted sample_script) sample_self (utf8 "Talk.WAV") None []
  = (Return (inr {| pr_segments := inr sample_output;
                    pr_original_text := utf8 "Hi Bye";
                    pr_duration := 6 |}),
     sample_upload_log (utf8 "Talk.WAV") ++ sample_chat_log) /\
  endswith (lower (utf8 "Talk.WAV")) (utf8 ".wav") = true /\
  client sample_self <> None /\
  exists subtitle_segments,
    (inr sample_output : str + list SubtitleSegment) = inr subtitle_segments.
Proof.
  assert (H0 : @process_wav_file _ _ _ (scripted sample_script) sample_self
                 (utf8 "Talk.WAV") None []
               = (Return (inr {| pr_segments := inr sample_output;
                                 pr_original_text := utf8 "Hi Bye";
                                 pr_duration := 6 |}),
                  sample_upload_log (utf8 "Talk.WAV") ++ sample_chat_log))
    by (vm_compute; reflexivity).
  split; [exact H0|].
  exact (@process_wav_file_success _ _ _ (scripted sample_script) sample_self
           (utf8 "Talk.WAV") None _ [] _ H0).
Defined.

(** X10 on a sample input. *)
Lemma process_wav_file_without_key_witness :
  client self_without_key = None /\
  endswith (lower (utf8 "talk.wav")) (utf8 ".wav") = true /\
  @process_wav_file _ _ _ (scripted sample_script) self_without_key (utf8 "talk.wav")
    None [] = (Return (inl MSG_NO_API_KEY), []).
Proof.
  split; [reflexivity|]. split; [reflexivity|].
  exact (@process_wav_file_without_key _ _ _ (scripted sample_script) self_without_key
           (utf8 "talk.wav") None [] [] [] eq_refl eq_refl eq_refl eq_refl).
Defined.

(** X11 on a sample input. *)
Lemma wav_extension_test_accepts_iff_witness :
  is_wav_suffix 46%N 87%N 97%N 86%N /\
  endswith (lower (utf8 "talk.WaV")) (utf8 ".wav") = true.
Proof.
  assert (H0 : is_wav_suffix 46%N 87%N 97%N 86%N).
  { unfold is_wav_suffix. repeat split; (left; reflexivity) || (right; reflexivity). }
  split; [exact H0|].
  apply (proj2 (wav_extension_test_accepts_iff (utf8 "talk.WaV"))).
  exists (utf8 "talk"), 46%N, 87%N, 97%N, 86%N. split; [reflexivity|exact H0].
Defined.


(** X13 on a sample input. *)
Lemma format_time_srt_negative_is_malformed_witness :
  is_float (-1) /\ in_timedelta_range (-1) /\ (-1 < - (1 # 2000000))%Q /\
  exists rest,
    format_time_srt (-1) = Return (45%N :: rest) /\
    ~ re_match SRT_PATTERN (45%N :: rest).
Proof.
  assert (Hf : is_float (-1)) by by_computation.
  assert (H0 : in_timedelta_range (-1)) by by_computation.
  assert (H1 : (-1 < - (1 # 2000000))%Q) by by_computation.
  split; [exact Hf|]. split; [exact H0|]. split; [exact H1|].
  exact (format_time_srt_negative_is_malformed (-1) Hf H0 H1).
Defined.

(** X14 on a sample input. *)
Lemma format_time_srt_is_monotone_witness :
  (0 <= 1.0004)%Q /\ (1.0004 <= 1.0016)%Q /\ in_timedelta_range 1.0016 /\
  exists out1 out2 t1 t2,
    format_time_srt 1.0004 = Return out1 /\ parse_srt out1 = Some t1 /\
    format_time_srt 1.0016 = Return out2 /\ parse_srt out2 = Some t2 /\
    (srt_value t1 <= srt_value t2)%Q.
Proof.
  assert (H0 : (0 <= 1.0004)%Q) by by_computation.
  assert (H1 : (1.0004 <= 1.0016)%Q) by by_computation.
  assert (H2 : in_timedelta_range 1.0016) by by_computation.
  split; [exact H0|]. split; [exact H1|]. split; [exact H2|].
  exact (format_time_srt_is_monotone 1.0004 1.0016 H0 H1 H2).
Defined.

(** X15 on a sample input. *)
Lemma generate_srt_content_returns_iff_witness :
  Forall times_in_range sample_subtitles /\
  exists out, generate_srt_content sample_subtitles = Return out.
Proof.
  assert (H0 : Forall times_in_range sample_subtitles).
  { repeat constructor; by_computation. }
  split; [exact H0|].
  exact (proj2 (generate_srt_content_returns_iff sample_subtitles) H0).
Defined.

(** X16 on a sample input. *)
Lemma generate_srt_content_app_witness :
  generate_srt_content (firstn 1 sample_subtitles ++ skipn 1 sample_subtitles)
  = Return (utf8 "1
00:00:00,000 --> 00:00:02,500
JA:Hi

" ++ utf8 "2
00:00:04,000 --> 01:01:01,001
JA:Bye

").
Proof.
  rewrite (generate_srt_content_app (firstn 1 sample_subtitles)
             (skipn 1 sample_subtitles)).
  vm_compute. reflexivity.
Defined.

(** X17 on a sample input. *)
Lemma generate_bilingual_text_blocks_witness :
  generate_bilingual_text (utf8 "2025-01-02 03:04:05") sample_subtitles
  = bilingual_banner (utf8 "2025-01-02 03:04:05")
    ++ utf8 "[001] 00:00 - 00:02
EN: Hi
JA: JA:Hi
----------------------------------------

[002] 00:04 - 61:01
EN: Bye
JA: JA:Bye
----------------------------------------

".
Proof.
  rewrite (proj1 (generate_bilingual_text_blocks (utf8 "2025-01-02 03:04:05")
                    sample_subtitles)).
  vm_compute. reflexivity.
Defined.

(** X18 on a sample input. *)
Lemma set_api_key_outcome_witness :
  exists self' ok w',
    @set_api_key _ _ sample_key_service {| client := Some (utf8 "sk-good") |}
      (utf8 "sk-bad") [] = (Return (self', ok), w') /\
    (ok = false -> client self' = None) /\
    (ok = true <->
     exists c w1,
       @OpenAI _ _ sample_key_service (utf8 "sk-bad") [] = (Return c, w1) /\
       @models_list _ _ sample_key_service c w1 = (Return tt, w') /\
       client self' = Some c).
Proof.
  exact (@set_api_key_outcome _ _ sample_key_service
           {| client := Some (utf8 "sk-good") |} (utf8 "sk-bad") []).
Defined.

(** X19 on a sample input. *)
Lemma failed_key_disables_translation_witness :
  @set_api_key _ _ sample_key_service {| client := Some (utf8 "sk-good") |}
    (utf8 "sk-bad") []
  = (Return ({| client := None |}, false), [utf8 "OpenAI"; utf8 "models.list"]) /\
  forall (english_text context : str) (w0 : list event),
    @translate_to_japanese _ _ _ (scripted_for str sample_script) {| client := None |}
      english_text context w0 = (Return MSG_NO_API_KEY, w0).
Proof.
  assert (H0 : @set_api_key _ _ sample_key_service {| client := Some (utf8 "sk-good") |}
                 (utf8 "sk-bad") []
               = (Return ({| client := None |}, false),
                  [utf8 "OpenAI"; utf8 "models.list"])) by reflexivity.
  split; [exact H0|].
  exact (@failed_key_disables_translation _ _ sample_key_service _ _
           (scripted_for str sample_script) _ _ _ _ _ H0).
Defined.

(** X20 on a sample input. *)
Lemma one_chat_request_per_kept_segment_witness :
  client sample_self = Some tt /\
  tr_segments sample_result = Some sample_segments /\
  exists out,
    @create_subtitle_segments _ _ _ (scripted sample_script) sample_self
      (inr sample_result) [] = (Return (inr out), [] ++ sample_chat_log).
Proof.
  assert (H0 : client sample_self = Some tt) by reflexivity.
  assert (H1 : tr_segments sample_result = Some sample_segments) by reflexivity.
  split; [exact H0|]. split; [exact H1|].
  exact (one_chat_request_per_kept_segment sample_script sample_self H0 sample_result
           _ _ [] H1).
Defined.

(** X21 on a sample input. *)
Lemma init_client_iff_witness :
  exists object w',
    @init _ _ sample_key_service true (Some (utf8 "sk-good")) [] = (Return object, w') /\
    (true = false -> object = None /\ w' = []) /\
    (true = true ->
     exists self',
       object = Some self' /\
       (client self' <> None <->
        exists key c w1,
          Some (utf8 "sk-good") = Some key /\ key <> [] /\
          @OpenAI _ _ sample_key_service key [] = (Return c, w1) /\
          @models_list _ _ sample_key_service c w1 = (Return tt, w')) /\
       (Some (utf8 "sk-good") = None \/ Some (utf8 "sk-good") = Some []
        -> w' = [] /\ client self' = None)).
Proof.
  exact (@init_client_iff _ _ sample_key_service true (Some (utf8 "sk-good")) []).
Defined.

Example set_api_key_sample_runs :
  @set_api_key _ _ sample_key_service {| client := None |} (utf8 "sk-good") []
  = (Return ({| client := Some (utf8 "sk-good") |}, true),
     [utf8 "OpenAI"; utf8 "models.list"]) /\
  @init _ _ sample_key_service true (Some []) [] = (Return (Some {| client := None |}), []) /\
  @init _ _ sample_key_service true None [] = (Return (Some {| client := None |}), []) /\
  @init _ _ sample_key_service true (Some (utf8 "sk-good")) []
  = (Return (Some {| client := Some (utf8 "sk-good") |}),
     [utf8 "OpenAI"; utf8 "models.list"]) /\
  @init _ _ sample_key_service false (Some (utf8 "sk-good")) [] = (Return None, []).
Proof. repeat split; reflexivity. Qed.
